(** * Packing and database construction of the private vector search server

    A shallow embedding of [search/database/database.go] (cluster packing,
    cluster loading, population of the PIR plaintext matrix) and of
    [main.go] (validation of the arguments, names of the output files,
    [readQueryLine], [writeResults] and the loop over the queries).

    Conventions of the embedding:
    - a Go [uint64] is a [Z] in [0, 2^64); every addition and
      multiplication of the source is written with its wrap-around
      ([add64], [mul64]);
    - an [int8] is a [Z] in [-128, 127];
    - slices are lists, indexed with stdpp's lookup; an access outside the
      slice is the Go run-time panic [IndexOutOfRange];
    - [map[uint]uint64] is a [gmap Z Z];
    - a panic is a value of [panic], and a function that can panic returns
      a [result];
    - [uint] is taken to be 64 bits wide, so [uint(x)] is the identity on a
      [uint64]. *)

From Stdlib Require Import ZArith Lia Ascii String.
From Stdlib Require DecimalString.
From stdpp Require Import base option list gmap sorting.

Local Open Scope Z_scope.

(** ** Machine integers *)

Definition wrap64 (z : Z) : Z := z mod 2 ^ 64.
Definition add64 (a b : Z) : Z := wrap64 (a + b).
Definition mul64 (a b : Z) : Z := wrap64 (a * b).

Definition is_u64 (z : Z) : Prop := 0 ≤ z < 2 ^ 64.
Definition is_int8 (z : Z) : Prop := -128 ≤ z ≤ 127.

(** Go's conversion [uint64(v)] of an [int8]: the value is sign-extended
    and then truncated to 64 bits, that is, taken modulo [2^64]. *)
Definition uint64_of_int8 (v : Z) : Z := wrap64 v.

(** Go's conversion [uint8(v)] of an [int8], zero-extended to 64 bits. *)
Definition uint64_of_uint8_of_int8 (v : Z) : Z := v mod 2 ^ 8.

(** ** Panics and results *)

Inductive panic : Type :=
  | NoClustersGiven
  | TotalMismatch
  | DimensionMismatch
  | PrecisionMismatch
  | ReadClusterFailed
  | PickParamsFailure
  | KeyShouldNotYetExist
  | RowOverflow
  | InfoLMismatch
  | NoScoresToWrite
  | WriteFailed
  | BackendPanic
  | NilDereference
  | IndexOutOfRange
  | MakeSliceLenOutOfRange
  | VectorsLengthMismatch.

Definition message (p : panic) : string :=
  match p with
  | NoClustersGiven => "No clusters given"
  | TotalMismatch => "Total number of vectors mismatch"
  | DimensionMismatch => "Dimension mismatch"
  | PrecisionMismatch => "Precision mismatch"
  | ReadClusterFailed => "Error reading CSV file"
  | PickParamsFailure => "Failure in picking SimplePIR DB parameters"
  | KeyShouldNotYetExist => "Key should not yet exist"
  | RowOverflow => "Should not happen"
  | InfoLMismatch => "Should not happen"
  | NoScoresToWrite => "Error: No scores to write"
  | WriteFailed => "Error writing to output file"
  | BackendPanic => "panic in the PIR backend"
  | NilDereference => "runtime error: invalid memory address or nil pointer dereference"
  | IndexOutOfRange => "runtime error: index out of range"
  | MakeSliceLenOutOfRange => "runtime error: makeslice: len out of range"
  | VectorsLengthMismatch =>
      "Error reading CSV file -- length of vectors does not match"
  end.

Inductive result (A : Type) : Type :=
  | Ok (a : A)
  | Panic (p : panic).
Arguments Ok {A} a.
Arguments Panic {A} p.

#[global] Instance result_ret : MRet result := λ A a, Ok a.
#[global] Instance result_bind : MBind result :=
  λ A B f r, match r with Ok a => f a | Panic p => Panic p end.

Definition is_Ok {A} (r : result A) : Prop := ∃ a, r = Ok a.

(** ** Data model *)

Record Metadata : Type := mkMetadata {
  md_NumVectors : Z;
  md_Dim : Z;
  md_NumClusters : Z
}.

Record Cluster : Type := mkCluster {
  Index : Z;
  NumVectors : Z;
  Dim : Z;
  PrecBits : Z;
  Vectors : list Z
}.

(** [DBIndex] calculates the index of an element in the database. *)
Definition DBIndex (row col m : Z) : Z := add64 (mul64 row m) col.

(** [s[i]] on a slice. *)
Definition sliceGet {A} (s : list A) (i : Z) : result A :=
  if (i <? 0) then Panic IndexOutOfRange
  else match s !! Z.to_nat i with
       | Some a => Ok a
       | None => Panic IndexOutOfRange
       end.

(** [s[i] = v] on a slice. *)
Definition sliceSet {A} (s : list A) (i : Z) (v : A) : result (list A) :=
  if (i <? 0) then Panic IndexOutOfRange
  else if (i <? Z.of_nat (length s)) then Ok (<[Z.to_nat i := v]> s)
  else Panic IndexOutOfRange.

Definition sumNumVectors (cs : list Cluster) : Z :=
  foldr (λ c acc, NumVectors c + acc) 0 cs.

(** ** sort.Slice

    [sort.Slice] belongs to the Go library.  Its documented behaviour: for a
    [less] that is a transitive ordering in the sense of [sort.Interface],
    the slice is permuted so that no later element is [less] than an earlier
    one.  Nothing is promised about the order of elements neither of which
    is [less] than the other ("the sort is not guaranteed to be stable"). *)

Record LessOk (less : Z → Z → bool) : Prop := {
  less_irrefl : ∀ a, less a a = false;
  less_trans : ∀ a b c, less a b = true → less b c = true → less a c = true;
  less_neg_trans :
    ∀ a b c, less a b = false → less b c = false → less a c = false
}.

Definition SortSliceSpec (srt : (Z → Z → bool) → list Z → list Z) : Prop :=
  ∀ less l, LessOk less →
    srt less l ≡ₚ l ∧ StronglySorted (λ a b, less b a = false) (srt less l).

(** An insertion sort, which meets the documented behaviour: each element in
    turn is moved left past the elements it is [less] than, so elements that
    compare equal keep their order. *)
Fixpoint insertLast (less : Z → Z → bool) (x : Z) (sorted : list Z) : list Z :=
  match sorted with
  | [] => [x]
  | y :: rest => if less x y then x :: y :: rest else y :: insertLast less x rest
  end.

Definition insertionSort (less : Z → Z → bool) (l : list Z) : list Z :=
  foldl (λ acc x, insertLast less x acc) [] l.

(** *** The library's implementation

    [sort.Slice] as the Go library implements it since Go 1.19
    (sort/slice.go and sort/zsortfunc.go): a pattern-defeating quicksort on
    an index range of the slice, which sorts ranges of at most 12 elements
    by insertion and falls back to heap sort when [limit] bad pivots have
    been chosen.  [data.Less(i, j)] compares the elements that stand at [i]
    and [j], [data.Swap(i, j)] exchanges them.  The library is not part of
    the repository; its functions keep their names. *)

Definition dataAt (data : list Z) (i : Z) : Z :=
  default 0 (data !! Z.to_nat i).

Definition dataLess (less : Z → Z → bool) (data : list Z) (i j : Z) : bool :=
  less (dataAt data i) (dataAt data j).

Definition dataSwap (data : list Z) (i j : Z) : list Z :=
  <[Z.to_nat i := dataAt data j]> (<[Z.to_nat j := dataAt data i]> data).

(** [for j := i; j > a && data.Less(j, j-1); j--]; [fuel] is [j - a]. *)
Fixpoint insertionInner (fuel : nat) (less : Z → Z → bool) (data : list Z)
    (a j : Z) : list Z :=
  match fuel with
  | O => data
  | S fuel' =>
      if (a <? j) && dataLess less data j (j - 1)
      then insertionInner fuel' less (dataSwap data j (j - 1)) a (j - 1)
      else data
  end.

(** [for i := a + 1; i < b; i++]; [fuel] is [b - i]. *)
Fixpoint insertionOuter (fuel : nat) (less : Z → Z → bool) (data : list Z)
    (a i : Z) : list Z :=
  match fuel with
  | O => data
  | S fuel' =>
      insertionOuter fuel' less
        (insertionInner (Z.to_nat (i - a)) less data a i) a (i + 1)
  end.

Definition insertionSort_func (less : Z → Z → bool) (data : list Z) (a b : Z)
    : list Z :=
  insertionOuter (Z.to_nat (b - (a + 1))) less data a (a + 1).

(** The loop of [siftDown_func]; [root] grows in every round, so [hi]
    rounds suffice. *)
Fixpoint siftDownLoop (fuel : nat) (less : Z → Z → bool) (data : list Z)
    (root hi first : Z) : list Z :=
  match fuel with
  | O => data
  | S fuel' =>
      let child := 2 * root + 1 in
      if hi <=? child then data
      else
        let child :=
          if (child + 1 <? hi)
             && dataLess less data (first + child) (first + child + 1)
          then child + 1 else child in
        if negb (dataLess less data (first + root) (first + child)) then data
        else siftDownLoop fuel' less
               (dataSwap data (first + root) (first + child)) child hi first
  end.

Definition siftDown_func (less : Z → Z → bool) (data : list Z)
    (lo hi first : Z) : list Z :=
  siftDownLoop (Z.to_nat hi) less data lo hi first.

(** [for i := (hi - 1) / 2; i >= 0; i--]; [fuel] is [i + 1]. *)
Fixpoint heapBuild (fuel : nat) (less : Z → Z → bool) (data : list Z)
    (i hi first : Z) : list Z :=
  match fuel with
  | O => data
  | S fuel' =>
      heapBuild fuel' less (siftDown_func less data i hi first) (i - 1) hi first
  end.

(** [for i := hi - 1; i >= 0; i--]; [fuel] is [i + 1]. *)
Fixpoint heapPop (fuel : nat) (less : Z → Z → bool) (data : list Z)
    (i lo first : Z) : list Z :=
  match fuel with
  | O => data
  | S fuel' =>
      let data := dataSwap data first (first + i) in
      heapPop fuel' less (siftDown_func less data lo i first) (i - 1) lo first
  end.

Definition heapSort_func (less : Z → Z → bool) (data : list Z) (a b : Z)
    : list Z :=
  let first := a in
  let lo := 0 in
  let hi := b - a in
  let data :=
    heapBuild (Z.to_nat ((hi - 1) ÷ 2 + 1)) less data ((hi - 1) ÷ 2) hi first in
  heapPop (Z.to_nat hi) less data (hi - 1) lo first.

Inductive sortedHint : Type :=
  | unknownHint
  | increasingHint
  | decreasingHint.

(** [order2_func], [median_func] and [medianAdjacent_func] return their
    indices and the counter [*swaps]. *)
Definition order2_func (less : Z → Z → bool) (data : list Z) (a b swaps : Z)
    : Z * Z * Z :=
  if dataLess less data b a then (b, a, swaps + 1) else (a, b, swaps).

Definition median_func (less : Z → Z → bool) (data : list Z)
    (a b c swaps : Z) : Z * Z :=
  let '(a, b, swaps) := order2_func less data a b swaps in
  let '(b, c, swaps) := order2_func less data b c swaps in
  let '(a, b, swaps) := order2_func less data a b swaps in
  (b, swaps).

Definition medianAdjacent_func (less : Z → Z → bool) (data : list Z)
    (a swaps : Z) : Z * Z :=
  median_func less data (a - 1) a (a + 1) swaps.

Definition choosePivot_func (less : Z → Z → bool) (data : list Z) (a b : Z)
    : Z * sortedHint :=
  let shortestNinther := 50 in
  let maxSwaps := 4 * 3 in
  let l := b - a in
  let swaps := 0 in
  let i := a + l ÷ 4 * 1 in
  let j := a + l ÷ 4 * 2 in
  let k := a + l ÷ 4 * 3 in
  let '(j, swaps) :=
    if 8 <=? l then
      let '(i, j, k, swaps) :=
        if shortestNinther <=? l then
          let '(i, swaps) := medianAdjacent_func less data i swaps in
          let '(j, swaps) := medianAdjacent_func less data j swaps in
          let '(k, swaps) := medianAdjacent_func less data k swaps in
          (i, j, k, swaps)
        else (i, j, k, swaps) in
      median_func less data i j k swaps
    else (j, swaps) in
  if swaps =? 0 then (j, increasingHint)
  else if swaps =? maxSwaps then (j, decreasingHint)
  else (j, unknownHint).

(** [for i < j] of [reverseRange_func]. *)
Fixpoint reverseRangeLoop (fuel : nat) (data : list Z) (i j : Z) : list Z :=
  match fuel with
  | O => data
  | S fuel' =>
      if i <? j then reverseRangeLoop fuel' (dataSwap data i j) (i + 1) (j - 1)
      else data
  end.

Definition reverseRange_func (data : list Z) (a b : Z) : list Z :=
  reverseRangeLoop (Z.to_nat (b - a)) data a (b - 1).

(** [for i < b && !data.Less(i, i-1) { i++ }]; [fuel] is [b - i]. *)
Fixpoint skipOrdered (fuel : nat) (less : Z → Z → bool) (data : list Z)
    (i b : Z) : Z :=
  match fuel with
  | O => i
  | S fuel' =>
      if (i <? b) && negb (dataLess less data i (i - 1))
      then skipOrdered fuel' less data (i + 1) b
      else i
  end.

(** [for j := i - 1; j >= 1; j--] of [partialInsertionSort_func]. *)
Fixpoint shiftLeft (fuel : nat) (less : Z → Z → bool) (data : list Z) (j : Z)
    : list Z :=
  match fuel with
  | O => data
  | S fuel' =>
      if 1 <=? j then
        if negb (dataLess less data j (j - 1)) then data
        else shiftLeft fuel' less (dataSwap data j (j - 1)) (j - 1)
      else data
  end.

(** [for j := i + 1; j < b; j++] of [partialInsertionSort_func]. *)
Fixpoint shiftRight (fuel : nat) (less : Z → Z → bool) (data : list Z)
    (j b : Z) : list Z :=
  match fuel with
  | O => data
  | S fuel' =>
      if j <? b then
        if negb (dataLess less data j (j - 1)) then data
        else shiftRight fuel' less (dataSwap data j (j - 1)) (j + 1) b
      else data
  end.

(** [for j := 0; j < maxSteps; j++] of [partialInsertionSort_func]. *)
Fixpoint partialInsertionLoop (steps : nat) (less : Z → Z → bool)
    (data : list Z) (a b i : Z) : list Z * bool :=
  match steps with
  | O => (data, false)
  | S steps' =>
      let shortestShifting := 50 in
      let i := skipOrdered (Z.to_nat (b - i)) less data i b in
      if i =? b then (data, true)
      else if b - a <? shortestShifting then (data, false)
      else
        let data := dataSwap data i (i - 1) in
        let data :=
          if 2 <=? i - a then shiftLeft (Z.to_nat (i - 1)) less data (i - 1)
          else data in
        let data :=
          if 2 <=? b - i
          then shiftRight (Z.to_nat (b - (i + 1))) less data (i + 1) b
          else data in
        partialInsertionLoop steps' less data a b i
  end.

Definition partialInsertionSort_func (less : Z → Z → bool) (data : list Z)
    (a b : Z) : list Z * bool :=
  let maxSteps := 5%nat in
  partialInsertionLoop maxSteps less data a b (a + 1).

(** [for i <= j && p(i) { i++ }] and [for i <= j && p(j) { j-- }]; [fuel]
    is [j - i + 1]. *)
Fixpoint scanUp (fuel : nat) (p : Z → bool) (i j : Z) : Z :=
  match fuel with
  | O => i
  | S fuel' => if (i <=? j) && p i then scanUp fuel' p (i + 1) j else i
  end.

Fixpoint scanDown (fuel : nat) (p : Z → bool) (i j : Z) : Z :=
  match fuel with
  | O => j
  | S fuel' => if (i <=? j) && p j then scanDown fuel' p i (j - 1) else j
  end.

(** The second loop of [partition_func]; it returns the slice and [j]. *)
Fixpoint partitionLoop (fuel : nat) (less : Z → Z → bool) (data : list Z)
    (a i j : Z) : list Z * Z :=
  match fuel with
  | O => (data, j)
  | S fuel' =>
      let i := scanUp (Z.to_nat (j - i + 1))
                 (λ i, dataLess less data i a) i j in
      let j := scanDown (Z.to_nat (j - i + 1))
                 (λ j, negb (dataLess less data j a)) i j in
      if j <? i then (data, j)
      else partitionLoop fuel' less (dataSwap data i j) a (i + 1) (j - 1)
  end.

(** [partition_func] returns the slice, [newpivot] and
    [alreadyPartitioned]. *)
Definition partition_func (less : Z → Z → bool) (data : list Z)
    (a b pivot : Z) : list Z * Z * bool :=
  let data := dataSwap data a pivot in
  let i := a + 1 in
  let j := b - 1 in
  let i := scanUp (Z.to_nat (j - i + 1)) (λ i, dataLess less data i a) i j in
  let j := scanDown (Z.to_nat (j - i + 1))
             (λ j, negb (dataLess less data j a)) i j in
  if j <? i then (dataSwap data j a, j, true)
  else
    let data := dataSwap data i j in
    let i := i + 1 in
    let j := j - 1 in
    let '(data, j) := partitionLoop (Z.to_nat (b - a)) less data a i j in
    (dataSwap data j a, j, false).

(** The loop of [partitionEqual_func]; it returns the slice and [i]. *)
Fixpoint partitionEqualLoop (fuel : nat) (less : Z → Z → bool)
    (data : list Z) (a i j : Z) : list Z * Z :=
  match fuel with
  | O => (data, i)
  | S fuel' =>
      let i := scanUp (Z.to_nat (j - i + 1))
                 (λ i, negb (dataLess less data a i)) i j in
      let j := scanDown (Z.to_nat (j - i + 1))
                 (λ j, dataLess less data a j) i j in
      if j <? i then (data, i)
      else partitionEqualLoop fuel' less (dataSwap data i j) a (i + 1) (j - 1)
  end.

Definition partitionEqual_func (less : Z → Z → bool) (data : list Z)
    (a b pivot : Z) : list Z * Z :=
  let data := dataSwap data a pivot in
  partitionEqualLoop (S (Z.to_nat (b - a))) less data a (a + 1) (b - 1).

(** [bits.Len] *)
Definition bitsLen (n : Z) : Z := if n <=? 0 then 0 else Z.log2 n + 1.

Section GoSort.

(** [breakPatterns_func] exchanges three elements of the range with
    elements at pseudo-random places; its generator is not reproduced
    here. *)
Variable breakPatterns_func : list Z → Z → Z → list Z.

(** [pdqsort_func]: one unit of [fuel] for every round of its loop and
    every call of itself; [None] when the fuel does not suffice. *)
Fixpoint pdqsort_func (fuel : nat) (less : Z → Z → bool) (data : list Z)
    (a b limit : Z) (wasBalanced wasPartitioned : bool) : option (list Z) :=
  match fuel with
  | O => None
  | S fuel' =>
      let maxInsertion := 12 in
      let length := b - a in
      if length <=? maxInsertion then Some (insertionSort_func less data a b)
      else if limit =? 0 then Some (heapSort_func less data a b)
      else
        let '(data, limit) :=
          if negb wasBalanced then (breakPatterns_func data a b, limit - 1)
          else (data, limit) in
        let '(pivot, hint) := choosePivot_func less data a b in
        let '(data, pivot, hint) :=
          match hint with
          | decreasingHint =>
              (reverseRange_func data a b, (b - 1) - (pivot - a),
               increasingHint)
          | _ => (data, pivot, hint)
          end in
        let '(data, sorted) :=
          match hint with
          | increasingHint =>
              if wasBalanced && wasPartitioned
              then partialInsertionSort_func less data a b
              else (data, false)
          | _ => (data, false)
          end in
        if sorted then Some data
        else if (0 <? a) && negb (dataLess less data (a - 1) pivot) then
          let '(data, mid) := partitionEqual_func less data a b pivot in
          pdqsort_func fuel' less data mid b limit wasBalanced wasPartitioned
        else
          let '(data, mid, alreadyPartitioned) :=
            partition_func less data a b pivot in
          let wasPartitioned := alreadyPartitioned in
          let leftLen := mid - a in
          let rightLen := b - mid in
          let balanceThreshold := length ÷ 8 in
          if leftLen <? rightLen then
            let wasBalanced := balanceThreshold <=? leftLen in
            match pdqsort_func fuel' less data a mid limit true true with
            | None => None
            | Some data =>
                pdqsort_func fuel' less data (mid + 1) b limit wasBalanced
                  wasPartitioned
            end
          else
            let wasBalanced := balanceThreshold <=? rightLen in
            match pdqsort_func fuel' less data (mid + 1) b limit true true with
            | None => None
            | Some data =>
                pdqsort_func fuel' less data a mid limit wasBalanced
                  wasPartitioned
            end
  end.

(** [sort.Slice(x, less)], for a [less] that compares elements as the one
    of [PackClusters] does.  Every round and every call of [pdqsort_func]
    works on a shorter range, so [len(x) + 1] units of fuel suffice. *)
Definition Slice (less : Z → Z → bool) (x : list Z) : list Z :=
  let length := Z.of_nat (length x) in
  let limit := bitsLen length in
  match pdqsort_func (S (List.length x)) less x 0 length limit true true with
  | Some data => data
  | None => x
  end.

End GoSort.

(** ** PackClusters *)

Section Packing.

Variable sortSlice : (Z → Z → bool) → list Z → list Z.

(** The size of the cluster at position [i]; [less] is only ever called
    on positions of the slice, so the default is never used. *)
Definition sizeAt (clusters : list Cluster) (i : Z) : Z :=
  match clusters !! Z.to_nat i with
  | Some c => NumVectors c
  | None => 0
  end.

(** The comparison handed to [sort.Slice]: larger clusters first. *)
Definition bySizeDesc (clusters : list Cluster) (a b : Z) : bool :=
  sizeAt clusters b <? sizeAt clusters a.

(** The inner loop [for j := 0; j < len(cols); j++]: [fuel] is the number
    of iterations left, [len(cols) - j].  Returns [fit] and the updated
    slices. *)
Fixpoint fitLoop (fuel : nat) (j : nat) (cols : list (list Z))
    (col_szs : list Z) (c : Cluster) (maxCapacity : Z)
    : result (bool * list (list Z) * list Z) :=
  match fuel with
  | O => Ok (false, cols, col_szs)
  | S fuel' =>
      sz ← sliceGet col_szs (Z.of_nat j);
      if add64 sz (NumVectors c) <? maxCapacity then
        col ← sliceGet cols (Z.of_nat j);
        Ok (true, <[j := col ++ [Index c]]> cols,
                  <[j := add64 sz (NumVectors c)]> col_szs)
      else fitLoop fuel' (S j) cols col_szs c maxCapacity
  end.

(** The outer loop [for i := 1; i < numClusters; i++], over the sorted
    positions [clusterIndices[1..]] that remain ([sort.Slice] sorts in place,
    so there are [numClusters - 1] of them). *)
Fixpoint packLoop (clusters : list Cluster) (maxCapacity : Z)
    (rest : list Z) (cols : list (list Z)) (col_szs : list Z)
    : result (list (list Z) * list Z) :=
  match rest with
  | [] => Ok (cols, col_szs)
  | ci :: rest' =>
      c ← sliceGet clusters ci;
      r ← fitLoop (length cols) 0 cols col_szs c maxCapacity;
      let '(fit, cols', col_szs') := r in
      if fit : bool then packLoop clusters maxCapacity rest' cols' col_szs'
      else packLoop clusters maxCapacity rest'
             (cols ++ [[Index c]]) (col_szs ++ [NumVectors c])
  end.

Definition PackClusters (clusters : list Cluster) (maxCapacity : Z)
    : result (list (list Z) * list Z) :=
  let numClusters := Z.of_nat (length clusters) in
  if numClusters =? 0 then Panic NoClustersGiven
  else
    let clusterIndices := sortSlice (bySizeDesc clusters) (seqZ 0 numClusters) in
    ci0 ← sliceGet clusterIndices 0;
    c0 ← sliceGet clusters ci0;
    let maxCapacity :=
      if maxCapacity <? NumVectors c0 then NumVectors c0 else maxCapacity in
    packLoop clusters maxCapacity (drop 1 clusterIndices)
      [[Index c0]] [NumVectors c0].

End Packing.

(** ** The packer in the spec's words

    First-fit decreasing over the clusters in packing order: a stripe is the
    list of clusters it holds, its row-count the sum of their sizes. *)

Definition rowCount (stripe : list Cluster) : Z := sumNumVectors stripe.

(** Place [c] into the first stripe that satisfies [fits]; open a new
    stripe holding only [c] when none does. *)
Fixpoint placeFirst (fits : list Cluster → bool) (c : Cluster)
    (stripes : list (list Cluster)) : list (list Cluster) :=
  match stripes with
  | [] => [[c]]
  | s :: rest =>
      if fits s then (s ++ [c]) :: rest else s :: placeFirst fits c rest
  end.

(** "current row-count + cluster size is strictly less than cap" *)
Definition fitsBelow (cap : Z) (c : Cluster) (s : list Cluster) : bool :=
  rowCount s + NumVectors c <? cap.

(** The same test on 64-bit unsigned integers. *)
Definition fitsBelow64 (cap : Z) (c : Cluster) (s : list Cluster) : bool :=
  wrap64 (rowCount s + NumVectors c) <? cap.

Definition raiseCap (cap : Z) (largest : Cluster) : Z :=
  if cap <? NumVectors largest then NumVectors largest else cap.

Definition firstFitDecreasing (ordered : list Cluster) (cap : Z)
    : list (list Cluster) :=
  match ordered with
  | [] => []
  | largest :: rest =>
      foldl (λ stripes c, placeFirst (fitsBelow (raiseCap cap largest) c) c stripes)
            [[largest]] rest
  end.

Definition firstFitDecreasing64 (ordered : list Cluster) (cap : Z)
    : list (list Cluster) :=
  match ordered with
  | [] => []
  | largest :: rest =>
      foldl (λ stripes c, placeFirst (fitsBelow64 (raiseCap cap largest) c) c stripes)
            [[largest]] rest
  end.

(** [cols] and [colRowCounts] of a list of stripes. *)
Definition colsOf (stripes : list (list Cluster)) : list (list Z) :=
  map (map Index) stripes.
Definition rowCountsOf (stripes : list (list Cluster)) : list Z :=
  map rowCount stripes.
Definition rowCounts64Of (stripes : list (list Cluster)) : list Z :=
  map (λ s, wrap64 (rowCount s)) stripes.

(** The clusters at the given positions, in that order. *)
Definition clustersAt (clusters : list Cluster) (positions : list Z)
    : list Cluster :=
  omap (λ i, clusters !! Z.to_nat i) positions.

(** The order in which [PackClusters] considers the clusters. *)
Definition packingOrder (srt : (Z → Z → bool) → list Z → list Z)
    (clusters : list Cluster) : list Z :=
  srt (bySizeDesc clusters) (seqZ 0 (Z.of_nat (length clusters))).

(** Among positions whose clusters have the same size, the smaller position
    comes first. *)
Definition tiesByPosition (clusters : list Cluster) (order : list Z) : Prop :=
  ∀ (i j : nat) a b, (i < j)%nat →
    order !! i = Some a → order !! j = Some b →
    sizeAt clusters a = sizeAt clusters b → a < b.

(** The order of a stable descending sort: the larger cluster first, and of
    two clusters of the same size the one at the smaller position. *)
Definition takenBefore (clusters : list Cluster) (a b : Z) : Prop :=
  sizeAt clusters b < sizeAt clusters a
  ∨ (sizeAt clusters a = sizeAt clusters b ∧ a < b).

(** ** ReadAllClusters *)

(** Go's [int(x)] of a [uint64] and the wrap-around of [int] arithmetic. *)
Definition wrapInt (z : Z) : Z := (z + 2 ^ 63) mod 2 ^ 64 - 2 ^ 63.
Definition int_of_u64 (z : Z) : Z := wrapInt z.

(** The fields [row[0] .. row[dim-1]] of one record. *)
Fixpoint readFields (fuel : nat) (j : Z) (row : list Z) : result (list Z) :=
  match fuel with
  | O => Ok []
  | S fuel' =>
      u ← sliceGet row j;
      rest ← readFields fuel' (j + 1) row;
      Ok (u :: rest)
  end.

(** What [reader.Read] does with [reader.FieldsPerRecord]: a positive
    value is the number of fields that every record must have, 0 is
    replaced by the number of fields of the first record, and a negative
    value switches the check off.  The result is the value the reader keeps,
    or [None] when [Read] returns the error of a wrong number of fields. *)
Definition checkFieldCount {A} (fieldsPerRecord : Z) (row : list A)
    : option Z :=
  if 0 <? fieldsPerRecord then
    if Z.of_nat (length row) =? fieldsPerRecord then Some fieldsPerRecord
    else None
  else if fieldsPerRecord =? 0 then Some (Z.of_nat (length row))
  else Some fieldsPerRecord.

(** The loop over the records; an error of [reader.Read] is the panic
    "Error reading CSV file". *)
Fixpoint readRows (dim fieldsPerRecord : Z) (rows : list (list Z))
    (vectors : list Z) (numVec : Z) : result (list Z * Z) :=
  match rows with
  | [] => Ok (vectors, numVec)
  | row :: rows' =>
      match checkFieldCount fieldsPerRecord row with
      | None => Panic ReadClusterFailed
      | Some fieldsPerRecord' =>
          fields ← readFields (Z.to_nat (int_of_u64 dim)) 0 row;
          readRows dim fieldsPerRecord' rows' (vectors ++ fields) (numVec + 1)
      end
  end.

(** [ReadClusterFromCsv].  [file] stands for what the CSV reader and the
    quantizer deliver for the file: its records, every field parsed and
    quantized to an [int8], or the panic of opening, reading or parsing. *)
Definition ReadClusterFromCsv (file : result (list (list Z)))
    (index dim precBits : Z) : result Cluster :=
  rows ← file;
  let fieldsPerRecord := int_of_u64 dim in
  r ← readRows dim fieldsPerRecord rows [] 0;
  let '(vectors, numVec) := r in
  if bool_decide (Z.of_nat (length vectors) = wrapInt (numVec * int_of_u64 dim))
  then Ok (mkCluster index (wrap64 numVec) dim precBits vectors)
  else Panic VectorsLengthMismatch.

(** [make([]T, n)] for a [uint64] length [n] and elements of [size] bytes
    succeeds when the length is an [int] and the slice does not exceed
    [maxAlloc], the largest allocation of the run time (2^48 bytes on 64-bit
    Linux); otherwise it panics with "makeslice: len out of range". *)
Definition maxAlloc : Z := 2 ^ 48.
Definition makeFits (size n : Z) : bool :=
  (n <? 2 ^ 63) && (size * n <=? maxAlloc).

Section Loading.

(** The cluster files [<prefix>_cluster_<i>.csv]. *)
Variable files : Z → result (list (list Z)).

(** The loop [for i := 0; i < numClusters; i++]; [fuel] is
    [numClusters - i]. *)
Fixpoint readLoop (fuel : nat) (i : Z) (dim precBits : Z)
    (clusters : list Cluster) (vecCountVeri : Z)
    : result (list Cluster * Z) :=
  match fuel with
  | O => Ok (clusters, vecCountVeri)
  | S fuel' =>
      c ← ReadClusterFromCsv (files i) i dim precBits;
      let vecCountVeri := add64 vecCountVeri (NumVectors c) in
      if negb (Dim c =? dim) then Panic DimensionMismatch
      else if negb (PrecBits c =? precBits) then Panic PrecisionMismatch
      else readLoop fuel' (i + 1) dim precBits (clusters ++ [c]) vecCountVeri
  end.

(** [metadataFile] is the decoded [<prefix>_metadata.json], or the panic
    of opening or decoding it. *)
Definition ReadAllClusters (metadataFile : result Metadata) (precBits : Z)
    : result (Metadata * list Cluster) :=
  metadata ← metadataFile;
  let numVectors := md_NumVectors metadata in
  let numClusters := md_NumClusters metadata in
  let dim := md_Dim metadata in
  (* cluster_sizes := make([]uint64, numClusters) *)
  if negb (makeFits 8 numClusters) then Panic MakeSliceLenOutOfRange else
  (* clusters := make([]*Cluster, numClusters) *)
  if negb (makeFits 8 numClusters) then Panic MakeSliceLenOutOfRange else
  r ← readLoop (Z.to_nat numClusters) 0 dim precBits [] 0;
  let '(clusters, vecCountVeri) := r in
  if negb (vecCountVeri =? numVectors) then Panic TotalMismatch
  else Ok (metadata, clusters).

End Loading.

(** ** BuildVectorDatabase *)

(** Modelled from the spec: [utils.Max] is not among the sources at hand;
    the spec gives "L = max(colRowCounts)". *)
Definition Max (l : list Z) : Z := foldr Z.max 0 l.

(** The loop [for j := uint64(0); j < slots; j++] that stores one vector;
    [fuel] is [slots - j]. *)
Fixpoint laneLoop (fuel : nat) (j : Z) (vals : list Z) (vectors : list Z)
    (rowIndex colIndex start slots m : Z) : result (list Z) :=
  match fuel with
  | O => Ok vals
  | S fuel' =>
      v ← sliceGet vectors (add64 start j);
      vals' ← sliceSet vals
                (DBIndex rowIndex (add64 (mul64 slots colIndex) j) m)
                (uint64_of_int8 v);
      laneLoop fuel' (j + 1) vals' vectors rowIndex colIndex start slots m
  end.

(** The loop [for x := uint64(0); x < sz; x++] over the vectors of one
    cluster; [fuel] is [sz - x].  Returns [vals] and [rowIndex]. *)
Fixpoint rowLoop (fuel : nat) (vals : list Z) (vectors : list Z)
    (rowIndex colIndex start slots m l : Z) : result (list Z * Z) :=
  match fuel with
  | O => Ok (vals, rowIndex)
  | S fuel' =>
      vals' ← laneLoop (Z.to_nat slots) 0 vals vectors rowIndex colIndex
                start slots m;
      let start' := add64 start slots in
      let rowIndex' := add64 rowIndex 1 in
      if l <? rowIndex' then Panic RowOverflow
      else rowLoop fuel' vals' vectors rowIndex' colIndex start' slots m l
  end.

(** The loop over the clusters of one stripe. *)
Fixpoint stripeLoop (clusters : list Cluster) (colContents : list Z)
    (colIndex slots m l : Z) (vals : list Z) (indexMap : gmap Z Z)
    (rowIndex : Z) : result (list Z * gmap Z Z) :=
  match colContents with
  | [] => Ok (vals, indexMap)
  | clusterIndex :: rest =>
      match indexMap !! clusterIndex with
      | Some _ => Panic KeyShouldNotYetExist
      | None =>
          let indexMap' :=
            <[clusterIndex := DBIndex rowIndex (mul64 slots colIndex) m]> indexMap in
          c ← sliceGet clusters clusterIndex;
          r ← rowLoop (Z.to_nat (NumVectors c)) vals (Vectors c) rowIndex
                colIndex 0 slots m l;
          let '(vals', rowIndex') := r in
          stripeLoop clusters rest colIndex slots m l vals' indexMap' rowIndex'
      end
  end.

(** The loop [for colIndex, colContents := range cols]. *)
Fixpoint colsLoop (clusters : list Cluster) (cols : list (list Z))
    (colIndex slots m l : Z) (vals : list Z) (indexMap : gmap Z Z)
    : result (list Z * gmap Z Z) :=
  match cols with
  | [] => Ok (vals, indexMap)
  | colContents :: cols' =>
      r ← stripeLoop clusters colContents colIndex slots m l vals indexMap 0;
      let '(vals', indexMap') := r in
      colsLoop clusters cols' (colIndex + 1) slots m l vals' indexMap'
  end.

(** [make([]uint64, n)] *)
Definition makeSlice (n : Z) : result (list Z) :=
  if 2 ^ 63 <=? n then Panic MakeSliceLenOutOfRange
  else Ok (replicate (Z.to_nat n) 0).

(** What [BuildVectorDatabase] has computed when it calls the backend's
    database constructor: the layout, the dimensions [l] and [m], the
    parameters, the plaintexts [vals] and the index map. *)
Record Plaintexts (Params : Type) : Type := mkPlaintexts {
  pt_cols : list (list Z);
  pt_colSzs : list Z;
  pt_l : Z;
  pt_m : Z;
  pt_params : Params;
  pt_vals : list Z;
  pt_indexMap : gmap Z Z
}.
Arguments mkPlaintexts {Params}.
Arguments pt_cols {Params}.
Arguments pt_colSzs {Params}.
Arguments pt_l {Params}.
Arguments pt_m {Params}.
Arguments pt_params {Params}.
Arguments pt_vals {Params}.
Arguments pt_indexMap {Params}.

Section Builder.

Variable sortSlice : (Z → Z → bool) → list Z → list Z.

(** The PIR backend: [lwe.Params] with its fields [P] and [Logq],
    [lwe.NewParamsFixedP] (a nil pointer is [None]),
    [pir.NewDatabaseFixedParams] ([None] when the backend itself panics)
    and the [Info.L] of its database. *)
Variable Params : Type.
Variable P : Params → Z.
Variable Logq : Params → Z.
Variable NewParamsFixedP : Z → Z → Z → option Params.
Variable Database : Type.
Variable NewDatabaseFixedParams : Z → Z → list Z → Params → option Database.
Variable Info_L : Database → Z.

(** The parameter check; on failure the source prints [p.P], which
    dereferences [p]. *)
Definition pickParams (m precBits : Z) : result Params :=
  let recordLen := 15 in
  let p := NewParamsFixedP 64 m (wrap64 (Z.shiftl 1 recordLen)) in
  match p with
  | None => Panic NilDereference
  | Some p' =>
      if (P p' <? wrap64 (Z.shiftl 1 precBits)) || negb (Logq p' =? 64)
      then Panic PickParamsFailure
      else Ok p'
  end.

(** [BuildVectorDatabase] up to its call of [pir.NewDatabaseFixedParams].
    The [seed] argument of the source is not used by it. *)
Definition buildPlaintexts (metadata : Metadata) (clusters : list Cluster)
    (hintSz precBits : Z) : result (Plaintexts Params) :=
  let dim := md_Dim metadata in
  let l := mul64 hintSz 125 in
  r ← PackClusters sortSlice clusters l;
  let '(cols, colSzs) := r in
  let m := mul64 (Z.of_nat (length cols)) dim in
  let l := Max colSzs in
  p ← pickParams m precBits;
  vals ← makeSlice (mul64 l m);
  let slots := dim in
  r ← colsLoop clusters cols 0 slots m l vals ∅;
  let '(vals', indexMap) := r in
  Ok (mkPlaintexts cols colSzs l m p vals' indexMap).

(** [BuildVectorDatabase] creates a PIR database from the clusters. *)
Definition BuildVectorDatabase (metadata : Metadata) (clusters : list Cluster)
    (hintSz precBits : Z) : result (Database * gmap Z Z) :=
  pt ← buildPlaintexts metadata clusters hintSz precBits;
  let recordLen := 15 in
  match NewDatabaseFixedParams (mul64 (pt_l pt) (pt_m pt)) recordLen
          (pt_vals pt) (pt_params pt) with
  | None => Panic BackendPanic
  | Some db =>
      if negb (Info_L db =? pt_l pt) then Panic InfoLMismatch
      else Ok (db, pt_indexMap pt)
  end.

End Builder.

(** ** writeResults *)

Record VectorScore : Type := mkVectorScore {
  ClusterID : Z;
  IDWithinCluster : Z;
  Score : Z
}.

(** A [csv.Writer]: the records written so far, and whether the underlying
    file refuses writes. *)
Record csvWriter : Type := mkWriter {
  records : list (list string);
  broken : bool
}.

(** [writer.Write(line)]: [None] is the error return. *)
Definition csvWrite (w : csvWriter) (line : list string) : option csvWriter :=
  if broken w then None
  else Some (mkWriter (records w ++ [line]) (broken w)).

(** [fmt.Sprintf("%d", n)] *)
Definition sprintf_d (n : Z) : string :=
  DecimalString.NilZero.string_of_int (Z.to_int n).

(** The loop [for i := 0; i < numRes; i++] that fills [line]; [fuel] is
    [numRes - i]. *)
Fixpoint lineLoop (fuel : nat) (i : Z) (scores : list VectorScore)
    (line : list string) : result (list string) :=
  match fuel with
  | O => Ok line
  | S fuel' =>
      s ← sliceGet scores i;
      line ← sliceSet line (wrapInt (i * 2)) (sprintf_d (ClusterID s));
      s ← sliceGet scores i;
      line ← sliceSet line (wrapInt (wrapInt (i * 2) + 1))
               (sprintf_d (IDWithinCluster s));
      lineLoop fuel' (i + 1) scores line
  end.

(** [make([]string, n)] *)
Definition makeLine (n : Z) : result (list string) :=
  if n <? 0 then Panic MakeSliceLenOutOfRange
  else Ok (replicate (Z.to_nat n) EmptyString).

(** [writeResults]: the two writers are threaded through, so that what has
    been written is known also when the function panics.  [perfLine] is the
    formatted performance record. *)
Definition writeResults (writer perfWriter : csvWriter)
    (scores : list VectorScore) (k : Z) (perfLine : list string)
    : result unit * (csvWriter * csvWriter) :=
  if Z.of_nat (length scores) =? 0 then
    (Panic NoScoresToWrite, (writer, perfWriter))
  else
    let numRes := k in
    let numRes :=
      if Z.of_nat (length scores) <? numRes then Z.of_nat (length scores)
      else numRes in
    match line ← makeLine (wrapInt (numRes * 2));
          lineLoop (Z.to_nat numRes) 0 scores line with
    | Panic p => (Panic p, (writer, perfWriter))
    | Ok line =>
        match csvWrite writer line with
        | None => (Panic WriteFailed, (writer, perfWriter))
        | Some writer' =>
            match csvWrite perfWriter perfLine with
            | None => (Panic WriteFailed, (writer', perfWriter))
            | Some perfWriter' => (Ok (), (writer', perfWriter'))
            end
        end
    end.

(** The index in [vals] of lane [j] of row [r] of stripe [c], in a matrix of
    [m] columns whose stripes are [slots] wide. *)
Definition cellIndex (m slots r c j : Z) : Z := r * m + slots * c + j.

(** The number of rows that the clusters with the given ids take. *)
Definition rowsOf (clusters : list Cluster) (ids : list Z) : Z :=
  foldr (λ id acc, sizeAt clusters id + acc) 0 ids.

(** A cluster as the data model has it: [Vectors] holds [NumVectors] vectors
    of [dim] components. *)
Definition wfCluster (dim : Z) (c : Cluster) : Prop :=
  0 ≤ NumVectors c ∧ NumVectors c * dim ≤ Z.of_nat (length (Vectors c)).

(** Ids that are positions of well-formed clusters. *)
Definition idsOk (clusters : list Cluster) (dim : Z) (ids : list Z) : Prop :=
  Forall (λ id, 0 ≤ id ∧ ∃ c, clusters !! Z.to_nat id = Some c ∧ wfCluster dim c)
         ids.

(** The input of [BuildVectorDatabase] as the data model has it and as
    [ReadAllClusters] delivers it: a cluster's id is its position, every
    cluster holds [NumVectors] vectors of [dim] components, and the matrix
    of all vectors, one stripe per cluster, fits in memory. *)
Record wfInput (metadata : Metadata) (clusters : list Cluster) : Prop := {
  wf_nonempty : clusters ≠ [];
  wf_dim : 0 < md_Dim metadata;
  wf_index : ∀ (k : nat) c, clusters !! k = Some c → Index c = Z.of_nat k;
  wf_vectors : Forall (wfCluster (md_Dim metadata)) clusters;
  wf_size :
    (sumNumVectors clusters + 1)
    * (Z.of_nat (length clusters) * md_Dim metadata) < 2 ^ 63
}.

(** A backend for the sample runs: the parameters record what was asked
    for, the database its dimensions and plaintexts. *)
Record sampleParams : Type := mkSampleParams {
  sp_P : Z;
  sp_Logq : Z;
  sp_M : Z
}.
Record sampleDatabase : Type := mkSampleDatabase {
  sd_L : Z;
  sd_M : Z;
  sd_vals : list Z
}.
Definition sampleNewParams (logq m p : Z) : option sampleParams :=
  Some (mkSampleParams p logq m).
Definition sampleNewDatabase (num recordLen : Z) (vals : list Z)
    (p : sampleParams) : option sampleDatabase :=
  Some (mkSampleDatabase (num / sp_M p) (sp_M p) vals).

(** The panics of the parameter check. *)
Definition paramFailure {A} (r : result A) : Prop :=
  r = Panic NilDereference ∨ r = Panic PickParamsFailure.

(** The row at which the [k]-th cluster of a stripe starts. *)
Definition rowBase (clusters : list Cluster) (ids : list Z) (k : nat) : Z :=
  rowsOf clusters (take k ids).

(** What the population loops leave in [vals] and [indexMap], for a layout
    [cols] in a matrix of [l] rows and [m] columns. *)
Record populated (clusters : list Cluster) (dim : Z) (cols : list (list Z))
    (l m : Z) (vals : list Z) (indexMap : gmap Z Z) : Prop := {
  pop_length : Z.of_nat (length vals) = l * m;
  pop_origin :
    ∀ (s k : nat) ids id, cols !! s = Some ids → ids !! k = Some id →
      indexMap !! id
      = Some (cellIndex m dim (rowBase clusters ids k) (Z.of_nat s) 0);
  pop_keys : ∀ id, id ∉ concat cols → indexMap !! id = None;
  pop_cells :
    ∀ (s k : nat) ids id cl i j,
      cols !! s = Some ids → ids !! k = Some id →
      clusters !! Z.to_nat id = Some cl →
      0 ≤ i < NumVectors cl → 0 ≤ j < dim →
      vals !! Z.to_nat (cellIndex m dim (rowBase clusters ids k + i) (Z.of_nat s) j)
      = uint64_of_int8 <$> Vectors cl !! Z.to_nat (i * dim + j);
  pop_rest :
    ∀ x, 0 ≤ x < l * m →
      (∀ (s : nat) ids r j, cols !! s = Some ids →
         0 ≤ r < rowsOf clusters ids → 0 ≤ j < dim →
         x ≠ cellIndex m dim r (Z.of_nat s) j) →
      vals !! Z.to_nat x = Some 0
}.

(** The sum of a list of [uint64]. *)
Definition sum64 (l : list Z) : Z := foldr add64 0 l.

(** ** Sample inputs *)

(** The cluster sizes of scenario S3, with capacity 12. *)
Definition s3_clusters : list Cluster :=
  [mkCluster 0 10 1 3 []; mkCluster 1 9 1 3 []; mkCluster 2 5 1 3 [];
   mkCluster 3 5 1 3 []; mkCluster 4 5 1 3 []].

(** Thirteen clusters: twelve of size 5 and a last one of size 9. *)
Definition thirteen_clusters : list Cluster :=
  [mkCluster 0 5 1 3 []; mkCluster 1 5 1 3 []; mkCluster 2 5 1 3 [];
   mkCluster 3 5 1 3 []; mkCluster 4 5 1 3 []; mkCluster 5 5 1 3 [];
   mkCluster 6 5 1 3 []; mkCluster 7 5 1 3 []; mkCluster 8 5 1 3 [];
   mkCluster 9 5 1 3 []; mkCluster 10 5 1 3 []; mkCluster 11 5 1 3 [];
   mkCluster 12 9 1 3 []].

(** Two clusters of the same size. *)
Definition tie_clusters : list Cluster :=
  [mkCluster 0 5 1 3 []; mkCluster 1 5 1 3 []].

(** A metadata file and two cluster files: two vectors of dimension 2 in
    cluster 0, one in cluster 1. *)
Definition sample_metadata : Metadata := mkMetadata 3 2 2.
Definition sample_files (i : Z) : result (list (list Z)) :=
  if i =? 0 then Ok [[1; -1]; [2; 0]]
  else if i =? 1 then Ok [[-16; 15]]
  else Panic ReadClusterFailed.
Definition sample_clusters : list Cluster :=
  [mkCluster 0 2 2 5 [1; -1; 2; 0]; mkCluster 1 1 2 5 [-16; 15]].

(** ** Further notions for the statements on the layout *)

(** The size of the largest cluster. *)
Definition largestSize (clusters : list Cluster) : Z :=
  foldr (λ c acc, Z.max (NumVectors c) acc) 0 clusters.

(** The capacity [PackClusters] works with after it has raised
    [maxCapacity] to the largest cluster. *)
Definition effectiveCap (clusters : list Cluster) (cap : Z) : Z :=
  Z.max cap (largestSize clusters).

(** The first cluster of stripe [sj] does not fit into stripe [si]. *)
Definition headDoesNotFit (cap : Z) (si sj : list Cluster) : Prop :=
  ∃ c rest, sj = c :: rest ∧ cap ≤ rowCount si + NumVectors c.

(** A stripe's row-count as stored stays within the capacity, strictly so
    when the stripe holds more than one cluster. *)
Definition withinCap (cap : Z) (s : list Cluster) : Prop :=
  wrap64 (rowCount s) ≤ cap
  ∧ ((1 < length s)%nat → wrap64 (rowCount s) < cap).

(** ** main.go: arguments, output files, the query file and the query loop *)

(** The record that [writeResults] writes for the first [k] scores. *)
Definition resultLine (scores : list VectorScore) (k : Z) : list string :=
  flat_map (λ s, [sprintf_d (ClusterID s); sprintf_d (IDWithinCluster s)])
           (take (Z.to_nat k) scores).

(** The panics of [main.go]: its own, the run-time panic of a string
    sliced out of its bounds, a panic inside [runRound], and the panics of
    the functions above. *)
Inductive mainPanic : Type :=
  | PreambleRequired
  | TopkNotPositive
  | QueryNotCsv
  | QueryNotInPreambleDir
  | QueryReadError
  | ColumnCountMismatch (expected got : Z)
  | ClusterIndexConversion
  | QueryConversion
  | SliceBoundsOutOfRange
  | RoundPanic
  | Raised (p : panic).

Definition mainMessage (p : mainPanic) : string :=
  match p with
  | PreambleRequired => "Error: Preamble is required"
  | TopkNotPositive => "Error: topk must be a positive integer"
  | QueryNotCsv => "Error: when specified, query must be a csv file"
  | QueryNotInPreambleDir =>
      "Error: query must be in the same directory as indicated by preamble"
  | QueryReadError => "Error reading query line: "
  | ColumnCountMismatch expected got =>
      String.append "Error: expected "
        (String.append (sprintf_d expected)
           (String.append " columns, got " (sprintf_d got)))
  | ClusterIndexConversion => "Error converting cluster index to uint64: "
  | QueryConversion => "Error converting query to int8: "
  | SliceBoundsOutOfRange => "runtime error: slice bounds out of range"
  | RoundPanic => "panic in the protocol"
  | Raised p => message p
  end.

Inductive outcome (A : Type) : Type :=
  | Return (a : A)
  | Abort (p : mainPanic).
Arguments Return {A} a.
Arguments Abort {A} p.

#[global] Instance outcome_ret : MRet outcome := λ A a, Return a.
#[global] Instance outcome_bind : MBind outcome :=
  λ A B f r, match r with Return a => f a | Abort p => Abort p end.

(** A panic of the functions above, inside [main.go]. *)
Definition raise {A} (r : result A) : outcome A :=
  match r with Ok a => Return a | Panic p => Abort (Raised p) end.

(** [s[:n]] on a string. *)
Definition sliceTo (s : string) (n : Z) : outcome string :=
  if (n <? 0) || (Z.of_nat (String.length s) <? n)
  then Abort SliceBoundsOutOfRange
  else Return (String.substring 0 (Z.to_nat n) s).

Section CommandLine.

(** [filepath.Ext], [filepath.Dir] and [filepath.Join]. *)
Variable Ext : string → string.
Variable Dir : string → string.
Variable Join : string → string → string.

Definition argumentsValidation (preamble : string) (topk : Z) (query : string)
    : outcome unit :=
  if String.eqb preamble EmptyString then Abort PreambleRequired
  else if topk <=? 0 then Abort TopkNotPositive
  else if negb (String.eqb query EmptyString)
          && negb (String.eqb (Ext query) ".csv")
  then Abort QueryNotCsv
  else if negb (String.eqb query EmptyString) then
    let dir := Dir preamble in
    if negb (String.eqb (Dir query) dir) then Abort QueryNotInPreambleDir
    else Return ()
  else Return ().

(** The name of the results file, as [main] computes it. *)
Definition outputFileName (query dir prefix : string) (clusterOnly : bool)
    : outcome string :=
  let outputFileSuffix : string := "_results.csv"%string in
  let outputFileSuffix : string :=
    if clusterOnly then "_results_cluster_only.csv"%string else outputFileSuffix in
  if negb (String.eqb query EmptyString) then
    stem ← sliceTo query (wrapInt (Z.of_nat (String.length query) - 4));
    Return (String.append stem outputFileSuffix)
  else Return (Join dir (String.append prefix outputFileSuffix)).

(** The name of the performance file, as [main] computes it. *)
Definition perfFileName (query dir prefix : string) (clusterOnly : bool)
    : outcome string :=
  let perfFileSuffix : string := "_perf.csv"%string in
  let perfFileSuffix : string :=
    if clusterOnly then "_perf_cluster_only.csv"%string else perfFileSuffix in
  if negb (String.eqb query EmptyString) then
    stem ← sliceTo query (wrapInt (Z.of_nat (String.length query) - 4));
    Return (String.append stem perfFileSuffix)
  else Return (Join dir (String.append prefix perfFileSuffix)).

End CommandLine.

(** The contract of [filepath.Ext]: the extension is a suffix of the
    path. *)
Definition ExtSpec (Ext : string → string) : Prop :=
  ∀ path, ∃ stem, path = String.append stem (Ext path).

(** A [csv.Reader] on the query file: its [FieldsPerRecord] and the
    records still to be read; [None] is a record that the reader cannot
    parse. *)
Record csvReader : Type := mkReader {
  FieldsPerRecord : Z;
  pending : list (option (list string))
}.

(** [csv.NewReader] leaves [FieldsPerRecord] at 0, and [main] does not set
    it. *)
Definition NewReader (records : list (option (list string))) : csvReader :=
  mkReader 0 records.

Inductive readResult : Type :=
  | ReadEOF
  | ReadError
  | ReadRecord (row : list string).

(** [reader.Read()] *)
Definition csvRead (reader : csvReader) : readResult * csvReader :=
  match pending reader with
  | [] => (ReadEOF, reader)
  | None :: rest => (ReadError, mkReader (FieldsPerRecord reader) rest)
  | Some row :: rest =>
      match checkFieldCount (FieldsPerRecord reader) row with
      | None => (ReadError, mkReader (FieldsPerRecord reader) rest)
      | Some fieldsPerRecord => (ReadRecord row, mkReader fieldsPerRecord rest)
      end
  end.

Section Queries.

(** [utils.StringToUint64] ([None] is the error return),
    [strconv.ParseFloat(s, 64)] (the value, and whether the error is
    non-nil) and [utils.QuantizeClamp]. *)
Variable StringToUint64 : string → option Z.
Variable Float : Type.
Variable ParseFloat : string → Float * bool.
Variable QuantizeClamp : Float → Z → Z.

(** The loop [for i := 0; i < int(dim); i++] of [readQueryLine]; [fuel] is
    [int(dim) - i]. *)
Fixpoint fieldLoop (fuel : nat) (i : Z) (row : list string) (precBits : Z)
    (query : list Z) : outcome (list Z) :=
  match fuel with
  | O => Return query
  | S fuel' =>
      s ← raise (sliceGet row (wrapInt (i + 1)));
      let '(u, err) := ParseFloat s in
      query ← raise (sliceSet query i (QuantizeClamp u precBits));
      if err then Abort QueryConversion
      else fieldLoop fuel' (i + 1) row precBits query
  end.

(** [readQueryLine]: the cluster index, the query and [isEnd], and the
    reader as it is left.  The nil slice is the empty list. *)
Definition readQueryLine (reader : csvReader) (dim precBits : Z)
    : outcome (Z * list Z * bool) * csvReader :=
  let '(r, reader') := csvRead reader in
  match r with
  | ReadEOF => (Return (0, [], true), reader')
  | ReadError => (Abort QueryReadError, reader')
  | ReadRecord row =>
      (if negb (Z.of_nat (length row) =? wrapInt (int_of_u64 dim + 1))
       then Abort (ColumnCountMismatch (add64 dim 1) (Z.of_nat (length row)))
       else
         f ← raise (sliceGet row 0);
         match StringToUint64 f with
         | None => Abort ClusterIndexConversion
         | Some clusterIndex =>
             query ← raise (makeSlice dim);
             query ← fieldLoop (Z.to_nat (int_of_u64 dim)) 0 row precBits query;
             Return (clusterIndex, query, false)
         end,
       reader')
  end.

(** The client and the server that [runRound] works on, the performance
    record it returns, [runRound] itself ([None] when it panics) and the
    formatting of the performance record in [writeResults]. *)
Variable Parties : Type.
Variable QueryPerf : Type.
Variable runRound :
  Parties → list Z → Z → bool → option (list VectorScore * QueryPerf * Parties).
Variable perfLineOf : QueryPerf → list string.

(** The loop of [main] over the queries.  It returns [queryCount] and the
    two writers; [None] when the fuel does not suffice. *)
Fixpoint queryLoop (fuel : nat) (reader : csvReader) (parties : Parties)
    (writer perfWriter : csvWriter) (dim precBits topK : Z)
    (clusterOnly : bool) (queryCount : Z)
    : option (outcome Z * (csvWriter * csvWriter)) :=
  match fuel with
  | O => None
  | S fuel' =>
      match readQueryLine reader dim precBits with
      | (Abort p, _) => Some (Abort p, (writer, perfWriter))
      | (Return (clusterIndex, query, isEnd), reader') =>
          if isEnd then Some (Return queryCount, (writer, perfWriter))
          else
            match runRound parties query clusterIndex clusterOnly with
            | None => Some (Abort RoundPanic, (writer, perfWriter))
            | Some (sortedScores, perf, parties') =>
                match writeResults writer perfWriter sortedScores topK
                        (perfLineOf perf) with
                | (Panic p, writers) => Some (Abort (Raised p), writers)
                | (Ok _, (writer', perfWriter')) =>
                    queryLoop fuel' reader' parties' writer' perfWriter' dim
                      precBits topK clusterOnly (wrapInt (queryCount + 1))
                end
            end
      end
  end.

End Queries.

(** A record of the query file that [readQueryLine] accepts for dimension
    [dim]: a cluster index and [dim] numbers. *)
Definition goodRecord (StringToUint64 : string → option Z) {Float : Type}
    (ParseFloat : string → Float * bool) (dim : Z)
    (rec : option (list string)) : Prop :=
  ∃ f fields,
    rec = Some (f :: fields)
    ∧ Z.of_nat (length fields) = dim
    ∧ is_Some (StringToUint64 f)
    ∧ Forall (λ s, (ParseFloat s).2 = false) fields.

(** Sample parsers: a field is a number when it is not empty. *)
Definition sampleToUint64 (s : string) : option Z :=
  if String.eqb s EmptyString then None else Some (Z.of_nat (String.length s)).
Definition sampleParseFloat (s : string) : Z * bool :=
  (Z.of_nat (String.length s), String.eqb s EmptyString).
Definition sampleQuantize (u precBits : Z) : Z := Z.min u (2 ^ (precBits - 1) - 1).
Definition sampleRound (n : nat) (query : list Z) (clusterIndex : Z)
    (clusterOnly : bool) : option (list VectorScore * list string * nat) :=
  Some ([mkVectorScore clusterIndex 0 0], ["0"%string], S n).

(** A query file of two queries of dimension 2. *)
Definition sample_queries : csvReader :=
  NewReader [Some ["7"; "1"; "22"]%string; Some ["8"; "333"; "4"]%string].

(** [filepath.Ext] on Unix paths: the suffix that begins at the last dot
    of the last element of the path, or the empty string. *)
Fixpoint hasSeparator (path : string) : bool :=
  match path with
  | EmptyString => false
  | String c rest => Ascii.eqb c "/"%char || hasSeparator rest
  end.
Fixpoint unixExt (path : string) : string :=
  match path with
  | EmptyString => EmptyString
  | String c rest =>
      if hasSeparator rest then unixExt rest
      else match unixExt rest with
           | EmptyString => if Ascii.eqb c "."%char then path else EmptyString
           | e => e
           end
  end.

(** * Properties *)

(** ** Machine integers *)

Lemma wrap64_small z : 0 ≤ z < 2 ^ 64 → wrap64 z = z.
Proof. intros H. unfold wrap64. by apply Z.mod_small. Qed.

Lemma wrap64_range z : 0 ≤ wrap64 z < 2 ^ 64.
Proof. unfold wrap64. apply Z.mod_pos_bound. lia. Qed.

Lemma wrap64_add_l a b : wrap64 (wrap64 a + b) = wrap64 (a + b).
Proof. unfold wrap64. by rewrite Zplus_mod_idemp_l. Qed.

Lemma add64_small a b : 0 ≤ a → 0 ≤ b → a + b < 2 ^ 64 → add64 a b = a + b.
Proof. intros. unfold add64. apply wrap64_small. lia. Qed.

Lemma mul64_small a b : 0 ≤ a → 0 ≤ b → a * b < 2 ^ 64 → mul64 a b = a * b.
Proof. intros. unfold mul64. apply wrap64_small. nia. Qed.

(** ** Slices *)

Lemma sliceGet_Ok {A} (s : list A) (i : Z) (a : A) :
  0 ≤ i → s !! Z.to_nat i = Some a → sliceGet s i = Ok a.
Proof.
  intros Hi Hs. unfold sliceGet.
  destruct (Z.ltb_spec i 0); [lia|]. by rewrite Hs.
Qed.

Lemma sliceGet_inv {A} (s : list A) (i : Z) (a : A) :
  sliceGet s i = Ok a → 0 ≤ i ∧ s !! Z.to_nat i = Some a.
Proof.
  unfold sliceGet. destruct (Z.ltb_spec i 0); [done|].
  destruct (s !! Z.to_nat i) eqn:E; [|done]. intros [= ->]. done.
Qed.

Lemma sliceGet_panic {A} (s : list A) (i : Z) p :
  sliceGet s i = Panic p → p = IndexOutOfRange.
Proof.
  unfold sliceGet. destruct (i <? 0); [congruence|].
  destruct (s !! Z.to_nat i); congruence.
Qed.

Lemma sliceSet_Ok {A} (s : list A) (i : Z) (v : A) :
  0 ≤ i < Z.of_nat (length s) → sliceSet s i v = Ok (<[Z.to_nat i := v]> s).
Proof.
  intros Hi. unfold sliceSet.
  destruct (Z.ltb_spec i 0); [lia|].
  destruct (Z.ltb_spec i (Z.of_nat (length s))); [done|lia].
Qed.

Lemma sliceSet_panic {A} (s : list A) (i : Z) (v : A) p :
  sliceSet s i v = Panic p → p = IndexOutOfRange.
Proof.
  unfold sliceSet. destruct (i <? 0); [congruence|].
  destruct (i <? Z.of_nat (length s)); congruence.
Qed.

(** ** Sorting *)

Section SortFacts.

Variable less : Z → Z → bool.
Hypothesis Hless : LessOk less.

Let notAfter (a b : Z) : Prop := less b a = false.

Lemma less_asym a b : less a b = true → less b a = false.
Proof.
  intros Hab. destruct (less b a) eqn:Hba; [|done].
  pose proof (less_trans _ Hless _ _ _ Hab Hba) as Haa.
  rewrite (less_irrefl _ Hless) in Haa. done.
Qed.

Lemma insertLast_perm x l : insertLast less x l ≡ₚ x :: l.
Proof.
  induction l as [|y l IH]; simpl; [done|].
  destruct (less x y); [done|].
  rewrite IH. apply Permutation_swap.
Qed.

Lemma insertLast_sorted x l :
  StronglySorted notAfter l → StronglySorted notAfter (insertLast less x l).
Proof.
  induction 1 as [|y l Hs IH Hy]; simpl.
  - repeat constructor.
  - destruct (less x y) eqn:Hxy.
    + constructor; [by constructor|].
      constructor; [by apply less_asym|].
      eapply Forall_impl; [exact Hy|]. intros z Hz. unfold notAfter in *.
      destruct (less z x) eqn:Hzx; [|done].
      pose proof (less_trans _ Hless _ _ _ Hzx Hxy). congruence.
    + constructor; [done|].
      rewrite insertLast_perm. by constructor.
Qed.

Lemma foldl_insert_spec (ins : Z → list Z → list Z) l acc :
  (∀ x s, ins x s ≡ₚ x :: s) →
  (∀ x s, StronglySorted notAfter s → StronglySorted notAfter (ins x s)) →
  StronglySorted notAfter acc →
  foldl (λ a x, ins x a) acc l ≡ₚ acc ++ l
  ∧ StronglySorted notAfter (foldl (λ a x, ins x a) acc l).
Proof.
  intros Hp Hs. revert acc.
  induction l as [|x l IH]; intros acc Hacc; simpl.
  - by rewrite app_nil_r.
  - destruct (IH (ins x acc)) as [IH1 IH2]; [by apply Hs|].
    split; [|done]. rewrite IH1, Hp. simpl. apply Permutation_middle.
Qed.

End SortFacts.

Lemma insertionSort_spec : SortSliceSpec insertionSort.
Proof.
  intros less l Hless. unfold insertionSort.
  destruct (foldl_insert_spec less (insertLast less) l []) as [H1 H2];
    auto using insertLast_perm, insertLast_sorted.
  constructor.
Qed.

Lemma bySizeDesc_LessOk clusters : LessOk (bySizeDesc clusters).
Proof.
  unfold bySizeDesc. split; intros *.
  - apply Z.ltb_irrefl.
  - rewrite !Z.ltb_lt. lia.
  - rewrite !Z.ltb_ge. lia.
Qed.

(** ** The packing order *)

Lemma clustersAt_seqZ_app (pre l : list Cluster) :
  clustersAt (pre ++ l) (seqZ (Z.of_nat (length pre)) (Z.of_nat (length l))) = l.
Proof.
  revert pre. induction l as [|c l IH]; intros pre; [done|].
  rewrite length_cons, Nat2Z.inj_succ, seqZ_cons by lia.
  unfold clustersAt in *. simpl.
  rewrite Nat2Z.id, list_lookup_middle by done. simpl. f_equal.
  replace (Z.succ (Z.of_nat (length pre))) with (Z.of_nat (length (pre ++ [c])))
    by (rewrite length_app; simpl; lia).
  replace (Z.pred (Z.succ (Z.of_nat (length l)))) with (Z.of_nat (length l)) by lia.
  rewrite (cons_middle c pre l), app_assoc. apply IH.
Qed.

Lemma clustersAt_seqZ (l : list Cluster) :
  clustersAt l (seqZ 0 (Z.of_nat (length l))) = l.
Proof. exact (clustersAt_seqZ_app [] l). Qed.

Lemma clustersAt_cons clusters i rest c :
  clusters !! Z.to_nat i = Some c →
  clustersAt clusters (i :: rest) = c :: clustersAt clusters rest.
Proof. intros H. unfold clustersAt. simpl. by rewrite H. Qed.

Lemma StronglySorted_weaken {A} (R1 R2 : A → A → Prop) (l : list A) :
  (∀ a b, R1 a b → R2 a b) → StronglySorted R1 l → StronglySorted R2 l.
Proof.
  intros HR. induction 1 as [|x l Hs IH Hx]; constructor; [done|].
  eapply Forall_impl; [exact Hx|]. auto.
Qed.

Section OrderFacts.

Variable srt : (Z → Z → bool) → list Z → list Z.
Hypothesis Hsrt : SortSliceSpec srt.
Variable clusters : list Cluster.

Lemma packingOrder_perm :
  packingOrder srt clusters ≡ₚ seqZ 0 (Z.of_nat (length clusters)).
Proof. apply Hsrt, bySizeDesc_LessOk. Qed.

Lemma packingOrder_sorted :
  StronglySorted (λ a b, sizeAt clusters b ≤ sizeAt clusters a)
    (packingOrder srt clusters).
Proof.
  destruct (Hsrt (bySizeDesc clusters)
              (seqZ 0 (Z.of_nat (length clusters)))
              (bySizeDesc_LessOk clusters)) as [_ Hs].
  eapply StronglySorted_weaken; [|exact Hs].
  intros a b. unfold bySizeDesc. rewrite Z.ltb_ge. done.
Qed.

Lemma packingOrder_in_range i :
  i ∈ packingOrder srt clusters → 0 ≤ i < Z.of_nat (length clusters).
Proof. rewrite packingOrder_perm, elem_of_seqZ. lia. Qed.

Lemma packingOrder_lookup i :
  i ∈ packingOrder srt clusters → ∃ c, clusters !! Z.to_nat i = Some c.
Proof.
  intros Hi%packingOrder_in_range. apply lookup_lt_is_Some_2. lia.
Qed.

Lemma clustersAt_packingOrder :
  clustersAt clusters (packingOrder srt clusters) ≡ₚ clusters.
Proof.
  unfold clustersAt. rewrite packingOrder_perm.
  apply reflexive_eq, clustersAt_seqZ.
Qed.

End OrderFacts.

Lemma clustersAt_sorted clusters order :
  StronglySorted (λ a b, sizeAt clusters b ≤ sizeAt clusters a) order →
  StronglySorted (λ a b, NumVectors b ≤ NumVectors a) (clustersAt clusters order).
Proof.
  induction 1 as [|i order Hs IH Hi]; [constructor|].
  unfold clustersAt in *. simpl.
  destruct (clusters !! Z.to_nat i) as [c|] eqn:Hc; simpl; [|done].
  constructor; [done|].
  apply Forall_forall. intros c' Hc'.
  apply list_elem_of_omap in Hc' as (k & Hk & Hkc).
  rewrite Forall_forall in Hi. specialize (Hi k Hk).
  unfold sizeAt in Hi. by rewrite Hc, Hkc in Hi.
Qed.

(** ** Stripes *)

Lemma sumNumVectors_app a b :
  sumNumVectors (a ++ b) = sumNumVectors a + sumNumVectors b.
Proof. unfold sumNumVectors. induction a; simpl; lia. Qed.

Lemma sumNumVectors_perm a b : a ≡ₚ b → sumNumVectors a = sumNumVectors b.
Proof. unfold sumNumVectors. induction 1; simpl; lia. Qed.

Lemma sumNumVectors_nonneg a :
  Forall (λ c, 0 ≤ NumVectors c) a → 0 ≤ sumNumVectors a.
Proof. unfold sumNumVectors. induction 1; simpl; lia. Qed.

Lemma sizes_fit_u64 a :
  Forall (λ c, 0 ≤ NumVectors c) a → sumNumVectors a < 2 ^ 64 →
  Forall (λ c, is_u64 (NumVectors c)) a.
Proof.
  induction 1 as [|c a Hc Ha IH]; intros Hsum; constructor.
  - pose proof (sumNumVectors_nonneg _ Ha).
    unfold sumNumVectors in *. simpl in Hsum. unfold is_u64. lia.
  - apply IH. unfold sumNumVectors in *. simpl in Hsum. lia.
Qed.

Lemma sumNumVectors_concat stripes :
  sumNumVectors (concat stripes) = foldr Z.add 0 (rowCountsOf stripes).
Proof.
  induction stripes as [|s stripes IH]; [done|]. simpl.
  rewrite sumNumVectors_app, IH. done.
Qed.

Lemma rowCount_le_concat s stripes :
  Forall (λ c, 0 ≤ NumVectors c) (concat stripes) →
  s ∈ stripes → 0 ≤ rowCount s ≤ sumNumVectors (concat stripes).
Proof.
  intros Hnn Hs. apply list_elem_of_split in Hs as (pre & post & ->).
  rewrite concat_app in *. simpl in *.
  rewrite !Forall_app in Hnn. destruct Hnn as (H1 & H2 & H3).
  rewrite !sumNumVectors_app. unfold rowCount.
  pose proof (sumNumVectors_nonneg _ H1).
  pose proof (sumNumVectors_nonneg _ H2).
  pose proof (sumNumVectors_nonneg _ H3). lia.
Qed.

Lemma placeFirst_ext (f g : list Cluster → bool) c stripes :
  (∀ s, s ∈ stripes → f s = g s) →
  placeFirst f c stripes = placeFirst g c stripes.
Proof.
  induction stripes as [|s stripes IH]; intros H; simpl; [done|].
  rewrite (H s) by left. rewrite IH; [done|].
  intros s' Hs'. apply H. by right.
Qed.

Lemma placeFirst_no_fit (f : list Cluster → bool) c stripes :
  existsb f stripes = false → placeFirst f c stripes = stripes ++ [[c]].
Proof.
  induction stripes as [|s stripes IH]; simpl; [done|].
  intros [-> H]%orb_false_iff. by rewrite IH.
Qed.

Lemma placeFirst_concat (f : list Cluster → bool) c stripes :
  concat (placeFirst f c stripes) ≡ₚ c :: concat stripes.
Proof.
  induction stripes as [|s stripes IH]; simpl; [done|].
  destruct (f s); simpl.
  - rewrite <- app_assoc. simpl. symmetry. apply Permutation_middle.
  - rewrite IH. symmetry. apply Permutation_middle.
Qed.

Lemma placeFirst_head (f : list Cluster → bool) c c0 s0 stripes :
  ∃ s0' stripes', placeFirst f c ((c0 :: s0) :: stripes) = (c0 :: s0') :: stripes'.
Proof. simpl. destruct (f (c0 :: s0)); simpl; eauto. Qed.

Lemma foldl_placeFirst_concat (fits : Cluster → list Cluster → bool) rest stripes :
  concat (foldl (λ st c, placeFirst (fits c) c st) stripes rest)
  ≡ₚ concat stripes ++ rest.
Proof.
  revert stripes. induction rest as [|c rest IH]; intros stripes; simpl.
  - by rewrite app_nil_r.
  - rewrite IH, placeFirst_concat. simpl. apply Permutation_middle.
Qed.

Lemma foldl_placeFirst_head (fits : Cluster → list Cluster → bool) rest c0 s0 stripes :
  ∃ s0' stripes',
    foldl (λ st c, placeFirst (fits c) c st) ((c0 :: s0) :: stripes) rest
    = (c0 :: s0') :: stripes'.
Proof.
  revert s0 stripes. induction rest as [|c rest IH]; intros s0 stripes.
  - simpl. eauto.
  - cbn [foldl].
    destruct (placeFirst_head (fits c) c c0 s0 stripes) as (s1 & st1 & ->).
    apply IH.
Qed.

(** Without overflow the test on 64-bit integers is the test of the spec. *)
Lemma foldl_placeFirst_no_overflow cap rest stripes :
  Forall (λ c, 0 ≤ NumVectors c) (concat stripes ++ rest) →
  sumNumVectors (concat stripes ++ rest) < 2 ^ 64 →
  foldl (λ st c, placeFirst (fitsBelow64 cap c) c st) stripes rest
  = foldl (λ st c, placeFirst (fitsBelow cap c) c st) stripes rest.
Proof.
  revert stripes. induction rest as [|c rest IH]; intros stripes Hnn Hsum;
    [done|].
  cbn [foldl].
  assert (Hstep : placeFirst (fitsBelow64 cap c) c stripes
                  = placeFirst (fitsBelow cap c) c stripes).
  { apply placeFirst_ext. intros s Hs. unfold fitsBelow64, fitsBelow.
    rewrite wrap64_small; [done|].
    rewrite Forall_app, Forall_cons in Hnn. destruct Hnn as (H1 & H2 & H3).
    pose proof (rowCount_le_concat s stripes H1 Hs).
    rewrite sumNumVectors_app in Hsum. change (c :: rest) with ([c] ++ rest) in Hsum.
    rewrite sumNumVectors_app in Hsum.
    pose proof (sumNumVectors_nonneg _ H3).
    unfold sumNumVectors in Hsum at 2. simpl in Hsum. lia. }
  rewrite Hstep.
  assert (Hp : concat (placeFirst (fitsBelow cap c) c stripes) ++ rest
               ≡ₚ concat stripes ++ c :: rest).
  { rewrite placeFirst_concat. simpl. apply Permutation_middle. }
  apply IH.
  - by rewrite Hp.
  - by rewrite (sumNumVectors_perm _ _ Hp).
Qed.

Lemma rowCounts64Of_no_overflow stripes :
  Forall (λ c, 0 ≤ NumVectors c) (concat stripes) →
  sumNumVectors (concat stripes) < 2 ^ 64 →
  rowCounts64Of stripes = rowCountsOf stripes.
Proof.
  intros Hnn Hsum. unfold rowCounts64Of, rowCountsOf.
  apply map_ext_in. intros s Hs%list_elem_of_In.
  pose proof (rowCount_le_concat s stripes Hnn Hs).
  apply wrap64_small. lia.
Qed.

(** ** The loops of [PackClusters] against the stripes *)

Lemma colsOf_app a b : colsOf (a ++ b) = colsOf a ++ colsOf b.
Proof. unfold colsOf. apply map_app. Qed.

Lemma rowCounts64Of_app a b :
  rowCounts64Of (a ++ b) = rowCounts64Of a ++ rowCounts64Of b.
Proof. unfold rowCounts64Of. apply map_app. Qed.

Lemma rowCount_snoc s c : rowCount (s ++ [c]) = rowCount s + NumVectors c.
Proof.
  unfold rowCount. rewrite sumNumVectors_app. unfold sumNumVectors. simpl. lia.
Qed.

Lemma rowCounts64Of_single c :
  is_u64 (NumVectors c) → rowCounts64Of [[c]] = [NumVectors c].
Proof.
  intros Hc. unfold rowCounts64Of, rowCount, sumNumVectors. simpl.
  by rewrite Z.add_0_r, wrap64_small.
Qed.

Lemma fitLoop_placeFirst cap c pre suf :
  fitLoop (length suf) (length pre) (colsOf (pre ++ suf))
    (rowCounts64Of (pre ++ suf)) c cap
  = if existsb (fitsBelow64 cap c) suf
    then Ok (true, colsOf (pre ++ placeFirst (fitsBelow64 cap c) c suf),
             rowCounts64Of (pre ++ placeFirst (fitsBelow64 cap c) c suf))
    else Ok (false, colsOf (pre ++ suf), rowCounts64Of (pre ++ suf)).
Proof.
  revert pre. induction suf as [|s suf IH]; intros pre; [done|].
  cbn [length fitLoop existsb placeFirst].
  assert (Hsz : rowCounts64Of (pre ++ s :: suf) !! length pre
                = Some (wrap64 (rowCount s))).
  { unfold rowCounts64Of. rewrite list_lookup_fmap, list_lookup_middle; done. }
  assert (Hcol : colsOf (pre ++ s :: suf) !! length pre = Some (map Index s)).
  { unfold colsOf. rewrite list_lookup_fmap, list_lookup_middle; done. }
  rewrite (sliceGet_Ok _ _ _ (Nat2Z.is_nonneg _)
             ltac:(rewrite Nat2Z.id; exact Hsz)).
  cbn [mbind result_bind].
  unfold add64 at 1. rewrite wrap64_add_l.
  change (wrap64 (rowCount s + NumVectors c) <? cap)
    with (fitsBelow64 cap c s).
  destruct (fitsBelow64 cap c s) eqn:Hfit; cbn [orb].
  - rewrite (sliceGet_Ok _ _ _ (Nat2Z.is_nonneg _)
               ltac:(rewrite Nat2Z.id; exact Hcol)).
    cbn [mbind result_bind]. do 3 f_equal.
    + unfold colsOf. rewrite !map_app. simpl.
      rewrite <- (Nat.add_0_r (length pre)) at 1.
      rewrite <- (length_map (map Index) pre), insert_app_r. simpl.
      by rewrite map_app.
    + unfold rowCounts64Of. rewrite !map_app. simpl.
      rewrite <- (Nat.add_0_r (length pre)) at 1.
      rewrite <- (length_map (λ s, wrap64 (rowCount s)) pre), insert_app_r.
      simpl. unfold add64. by rewrite wrap64_add_l, rowCount_snoc.
  - specialize (IH (pre ++ [s])).
    rewrite length_app in IH. simpl in IH.
    rewrite Nat.add_1_r, <- !app_assoc in IH. simpl in IH. exact IH.
Qed.

Lemma packLoop_stripes clusters cap rest stripes :
  Forall (λ c, is_u64 (NumVectors c)) clusters →
  Forall (λ i, 0 ≤ i < Z.of_nat (length clusters)) rest →
  packLoop clusters cap rest (colsOf stripes) (rowCounts64Of stripes)
  = let stripes' :=
      foldl (λ st c, placeFirst (fitsBelow64 cap c) c st) stripes
        (clustersAt clusters rest) in
    Ok (colsOf stripes', rowCounts64Of stripes').
Proof.
  intros Hu. revert stripes.
  induction rest as [|ci rest IH]; intros stripes Hr; [done|].
  apply Forall_cons in Hr as [Hci Hr].
  destruct (lookup_lt_is_Some_2 clusters (Z.to_nat ci)) as [c Hc]; [lia|].
  rewrite (clustersAt_cons _ _ _ _ Hc).
  cbn [packLoop foldl]. rewrite (sliceGet_Ok _ _ _ (proj1 Hci) Hc).
  cbn [mbind result_bind].
  replace (length (colsOf stripes)) with (length stripes)
    by (unfold colsOf; by rewrite length_map).
  pose proof (fitLoop_placeFirst cap c [] stripes) as Hfit.
  simpl in Hfit. rewrite Hfit. clear Hfit.
  destruct (existsb (fitsBelow64 cap c) stripes) eqn:Hex.
  - by apply IH.
  - rewrite (placeFirst_no_fit _ _ _ Hex).
    specialize (IH (stripes ++ [[c]]) Hr).
    rewrite colsOf_app, rowCounts64Of_app, rowCounts64Of_single in IH;
      [exact IH|].
    rewrite Forall_forall in Hu. apply Hu.
    by eapply list_elem_of_lookup_2.
Qed.

Section PackFacts.

Variable srt : (Z → Z → bool) → list Z → list Z.
Hypothesis Hsrt : SortSliceSpec srt.

(** [PackClusters] computes first-fit decreasing on 64-bit integers, for
    every non-empty list of clusters. *)
Lemma PackClusters_stripes64 clusters cap :
  clusters ≠ [] →
  Forall (λ c, is_u64 (NumVectors c)) clusters →
  let stripes :=
    firstFitDecreasing64 (clustersAt clusters (packingOrder srt clusters)) cap in
  PackClusters srt clusters cap = Ok (colsOf stripes, rowCounts64Of stripes).
Proof.
  intros Hne Hu. unfold PackClusters.
  destruct (Z.eqb_spec (Z.of_nat (length clusters)) 0) as [H0|H0].
  { destruct clusters; [done|]. simpl in H0. lia. }
  fold (packingOrder srt clusters).
  pose proof (packingOrder_in_range srt Hsrt clusters) as Hrange.
  pose proof (packingOrder_perm srt Hsrt clusters) as Hperm.
  destruct (packingOrder srt clusters) as [|ci0 rest] eqn:Horder.
  { apply Permutation_nil_l in Hperm.
    rewrite seqZ_cons in Hperm by lia. done. }
  assert (Hci0 : 0 ≤ ci0 < Z.of_nat (length clusters))
    by (apply Hrange; left).
  destruct (lookup_lt_is_Some_2 clusters (Z.to_nat ci0)) as [c0 Hc0]; [lia|].
  rewrite (sliceGet_Ok (ci0 :: rest) 0 ci0) by done.
  cbn [mbind result_bind]. rewrite (sliceGet_Ok _ _ _ (proj1 Hci0) Hc0).
  cbn [mbind result_bind drop].
  rewrite (clustersAt_cons _ _ _ _ Hc0). cbn [firstFitDecreasing64].
  fold (raiseCap cap c0).
  pose proof (packLoop_stripes clusters (raiseCap cap c0) rest [[c0]] Hu) as Hp.
  rewrite rowCounts64Of_single in Hp.
  - apply Hp. apply Forall_forall. intros i Hi. apply Hrange. by right.
  - rewrite Forall_forall in Hu. apply Hu. by eapply list_elem_of_lookup_2.
Qed.

Lemma firstFitDecreasing64_concat ordered cap :
  concat (firstFitDecreasing64 ordered cap) ≡ₚ ordered.
Proof.
  destruct ordered as [|c0 rest]; [done|]. unfold firstFitDecreasing64.
  rewrite (foldl_placeFirst_concat (fitsBelow64 (raiseCap cap c0))). done.
Qed.

Lemma firstFitDecreasing_no_overflow ordered cap :
  Forall (λ c, 0 ≤ NumVectors c) ordered →
  sumNumVectors ordered < 2 ^ 64 →
  firstFitDecreasing64 ordered cap = firstFitDecreasing ordered cap.
Proof.
  destruct ordered as [|c0 rest]; [done|]. intros Hnn Hsum.
  unfold firstFitDecreasing64, firstFitDecreasing.
  apply foldl_placeFirst_no_overflow; simpl; by rewrite ?app_nil_r.
Qed.

End PackFacts.

(** ** Claims on [PackClusters] *)

(** The stripes that [PackClusters] builds, on 64-bit integers and, when the
    total size fits a [uint64], on the integers. *)
Lemma PackClusters_stripes srt clusters cap :
  SortSliceSpec srt →
  clusters ≠ [] →
  Forall (λ c, is_u64 (NumVectors c)) clusters →
  let ordered := clustersAt clusters (packingOrder srt clusters) in
  ordered ≡ₚ clusters
  ∧ StronglySorted (λ a b, NumVectors b ≤ NumVectors a) ordered
  ∧ PackClusters srt clusters cap
    = Ok (colsOf (firstFitDecreasing64 ordered cap),
          rowCounts64Of (firstFitDecreasing64 ordered cap))
  ∧ (sumNumVectors clusters < 2 ^ 64 →
     firstFitDecreasing64 ordered cap = firstFitDecreasing ordered cap
     ∧ PackClusters srt clusters cap
       = Ok (colsOf (firstFitDecreasing ordered cap),
             rowCountsOf (firstFitDecreasing ordered cap))).
Proof.
  intros Hsrt Hne Hu ordered.
  assert (Hperm : ordered ≡ₚ clusters) by by apply clustersAt_packingOrder.
  split; [done|]. split.
  { apply clustersAt_sorted. by apply packingOrder_sorted. }
  pose proof (PackClusters_stripes64 srt Hsrt clusters cap Hne Hu) as Hpack.
  fold ordered in Hpack. split; [done|].
  intros Hsum.
  assert (Hnn : Forall (λ c, 0 ≤ NumVectors c) ordered).
  { rewrite Hperm. eapply Forall_impl; [exact Hu|]. by intros c []. }
  assert (Hsum' : sumNumVectors ordered < 2 ^ 64)
    by by rewrite (sumNumVectors_perm _ _ Hperm).
  pose proof (firstFitDecreasing_no_overflow ordered cap Hnn Hsum') as Heq.
  split; [done|]. rewrite Hpack, <- Heq.
  rewrite rowCounts64Of_no_overflow; [done| |].
  - by rewrite firstFitDecreasing64_concat.
  - by rewrite (sumNumVectors_perm _ _ (firstFitDecreasing64_concat ordered cap)).
Qed.

(** C2: for every non-empty cluster list and capacity, [PackClusters] is
    first-fit decreasing: the clusters are taken in an order that is sorted
    by [NumVectors] descending, the capacity is raised to the largest size
    when that exceeds it, the first stripe is opened with the largest
    cluster, and every further cluster goes to the first stripe whose
    row-count plus the cluster's size is strictly below the capacity, or to
    a new stripe of its own.  The sums are those of [uint64]; they are the
    sums of the integers when the total size fits a [uint64]. *)
Theorem PackClusters_first_fit_decreasing srt clusters cap :
  SortSliceSpec srt →
  clusters ≠ [] →
  Forall (λ c, is_u64 (NumVectors c)) clusters →
  let ordered := clustersAt clusters (packingOrder srt clusters) in
  ordered ≡ₚ clusters
  ∧ StronglySorted (λ a b, NumVectors b ≤ NumVectors a) ordered
  ∧ PackClusters srt clusters cap
    = Ok (colsOf (firstFitDecreasing64 ordered cap),
          rowCounts64Of (firstFitDecreasing64 ordered cap))
  ∧ (sumNumVectors clusters < 2 ^ 64 →
     firstFitDecreasing64 ordered cap = firstFitDecreasing ordered cap
     ∧ PackClusters srt clusters cap
       = Ok (colsOf (firstFitDecreasing ordered cap),
             rowCountsOf (firstFitDecreasing ordered cap))).
Proof. apply PackClusters_stripes. Qed.

Lemma PackClusters_first_fit_decreasing_witness :
  PackClusters insertionSort s3_clusters 12
  = Ok ([[0]; [1]; [2; 3]; [4]], [10; 9; 10; 5]).
Proof.
  destruct (PackClusters_first_fit_decreasing insertionSort s3_clusters 12)
    as (_ & _ & _ & H).
  - exact insertionSort_spec.
  - discriminate.
  - unfold s3_clusters, is_u64. repeat constructor; simpl; lia.
  - destruct H as [_ H]; [vm_compute; reflexivity|].
    rewrite H. vm_compute. reflexivity.
Defined.

(** A cluster that would fill a stripe exactly to the capacity does not fit:
    the test is strict. *)
Example exact_fit_opens_new_stripe :
  PackClusters insertionSort
    [mkCluster 0 6 1 3 []; mkCluster 1 6 1 3 []; mkCluster 2 5 1 3 []] 12
  = Ok ([[0; 2]; [1]], [11; 6]).
Proof. reflexivity. Qed.

(** C7, as the code has it: the order in which [PackClusters] takes the
    clusters is a permutation of their positions, sorted by [NumVectors]
    descending; nothing more is fixed about clusters of equal size. *)
Theorem packingOrder_descending srt clusters :
  SortSliceSpec srt →
  packingOrder srt clusters ≡ₚ seqZ 0 (Z.of_nat (length clusters))
  ∧ StronglySorted (λ a b, sizeAt clusters b ≤ sizeAt clusters a)
      (packingOrder srt clusters).
Proof.
  intros Hsrt. split.
  - by apply packingOrder_perm.
  - by apply packingOrder_sorted.
Qed.

Lemma packingOrder_descending_witness :
  packingOrder insertionSort s3_clusters ≡ₚ seqZ 0 5
  ∧ StronglySorted (λ a b, sizeAt s3_clusters b ≤ sizeAt s3_clusters a)
      (packingOrder insertionSort s3_clusters).
Proof.
  exact (packingOrder_descending insertionSort s3_clusters insertionSort_spec).
Defined.

Lemma StronglySorted_lookup_lt {A} (R : A → A → Prop) (l : list A) :
  StronglySorted R l →
  ∀ (i j : nat) a b, (i < j)%nat → l !! i = Some a → l !! j = Some b → R a b.
Proof.
  induction 1 as [|x l Hs IH Hx]; intros i j a b Hij Hi Hj;
    [by rewrite lookup_nil in Hi|].
  destruct j as [|j]; [lia|]. simpl in Hj.
  destruct i as [|i]; simpl in Hi.
  - injection Hi as <-. rewrite Forall_forall in Hx. apply Hx.
    by eapply list_elem_of_lookup_2.
  - apply (IH i j); [lia|done..].
Qed.

Lemma seqZ_StronglySorted m n : StronglySorted Z.lt (seqZ m n).
Proof.
  destruct (decide (0 < n)) as [Hn|Hn]; [|rewrite seqZ_nil by lia; constructor].
  rewrite <- (Z2Nat.id n) by lia. clear Hn. revert m.
  induction (Z.to_nat n) as [|k IH]; intros m; [constructor|].
  rewrite Nat2Z.inj_succ, seqZ_cons by lia. constructor.
  - replace (Z.pred (Z.succ (Z.of_nat k))) with (Z.of_nat k) by lia. apply IH.
  - apply Forall_forall. intros x Hx. apply elem_of_seqZ in Hx. lia.
Qed.

Lemma insertLast_stable clusters x acc :
  StronglySorted (takenBefore clusters) acc →
  Forall (λ a, a < x) acc →
  StronglySorted (takenBefore clusters)
    (insertLast (bySizeDesc clusters) x acc).
Proof.
  induction 1 as [|y acc Hs IH Hy]; intros Hlt; simpl.
  - repeat constructor.
  - apply Forall_cons in Hlt as [Hyx Hlt]. unfold bySizeDesc at 1.
    destruct (Z.ltb_spec (sizeAt clusters y) (sizeAt clusters x)).
    + constructor; [by constructor|]. constructor; [by left|].
      eapply Forall_impl; [exact Hy|]. intros z [Hz|[Hz _]]; left; lia.
    + constructor; [by apply IH|].
      rewrite (insertLast_perm (bySizeDesc clusters) x acc).
      constructor; [|done]. unfold takenBefore. lia.
Qed.

Lemma foldl_insertLast_stable clusters l : ∀ acc,
  StronglySorted Z.lt l →
  Forall (λ a, Forall (λ x, a < x) l) acc →
  StronglySorted (takenBefore clusters) acc →
  StronglySorted (takenBefore clusters)
    (foldl (λ a x, insertLast (bySizeDesc clusters) x a) acc l).
Proof.
  induction l as [|x l IH]; intros acc Hl Hacc Hs; [done|].
  apply StronglySorted_cons in Hl as [Hx Hl]. cbn [foldl]. apply IH; [done| |].
  - rewrite (insertLast_perm (bySizeDesc clusters) x acc).
    constructor; [done|].
    eapply Forall_impl; [exact Hacc|]. by intros a [_ Ha]%Forall_cons.
  - apply insertLast_stable; [done|].
    eapply Forall_impl; [exact Hacc|]. by intros a [Ha _]%Forall_cons.
Qed.

(** With a stable sort the ties are broken by position: the insertion sort
    takes clusters of equal size in the order of their positions. *)
Lemma insertionSort_ties_by_position clusters :
  tiesByPosition clusters (packingOrder insertionSort clusters).
Proof.
  intros i j a b Hij Hi Hj Heq.
  assert (Hs : StronglySorted (takenBefore clusters)
                 (packingOrder insertionSort clusters)).
  { unfold packingOrder, insertionSort. apply foldl_insertLast_stable.
    - apply seqZ_StronglySorted.
    - constructor.
    - constructor. }
  destruct (StronglySorted_lookup_lt _ _ Hs i j a b Hij Hi Hj) as [?|[_ ?]]; lia.
Qed.

(** Up to twelve elements [sort.Slice] sorts by insertion, which keeps
    elements that compare equal in their order. *)
Example Slice_keeps_two_equal_clusters breakPatterns :
  packingOrder (Slice breakPatterns) tie_clusters = [0; 1]
  ∧ PackClusters (Slice breakPatterns) tie_clusters 12 = Ok ([[0; 1]], [10]).
Proof. split; reflexivity. Qed.

(** C7, as the spec has it, fails on the code: on thirteen clusters, twelve
    of size 5 and a last one of size 9, [sort.Slice] leaves the quicksort's
    first partition in place, and [PackClusters] takes the clusters of size
    5 in the order 6, 2, 3, 4, 5, 0, 7, ..., 11, 1 of their positions and
    places them in that order.  The pseudo-random scattering is not
    reached, so this holds whatever it does. *)
Lemma packingOrder_ties_not_by_position :
  (∀ breakPatterns,
     pdqsort_func breakPatterns 14 (bySizeDesc thirteen_clusters)
       (seqZ 0 13) 0 13 (bitsLen 13) true true
     = Some [12; 6; 2; 3; 4; 5; 0; 7; 8; 9; 10; 11; 1])
  ∧ (∀ breakPatterns,
       packingOrder (Slice breakPatterns) thirteen_clusters
       = [12; 6; 2; 3; 4; 5; 0; 7; 8; 9; 10; 11; 1])
  ∧ (∀ breakPatterns,
       ¬ tiesByPosition thirteen_clusters
           (packingOrder (Slice breakPatterns) thirteen_clusters))
  ∧ (∀ breakPatterns,
       PackClusters (Slice breakPatterns) thirteen_clusters 12
       = Ok ([[12]; [6; 2]; [3; 4]; [5; 0]; [7; 8]; [9; 10]; [11; 1]],
             [9; 10; 10; 10; 10; 10; 10])).
Proof.
  assert (Horder : ∀ breakPatterns,
            packingOrder (Slice breakPatterns) thirteen_clusters
            = [12; 6; 2; 3; 4; 5; 0; 7; 8; 9; 10; 11; 1]).
  { intros breakPatterns. vm_compute. reflexivity. }
  split; [intros breakPatterns; vm_compute; reflexivity|].
  split; [exact Horder|]. split.
  - intros breakPatterns Hties. rewrite Horder in Hties.
    specialize (Hties 1%nat 2%nat 6 2).
    assert (6 < 2); [|lia].
    apply Hties; [lia|reflexivity..].
  - intros breakPatterns. vm_compute. reflexivity.
Qed.

(** C10: on an empty cluster list [PackClusters] panics with "No clusters
    given"; on a non-empty one it returns at least one stripe, and the first
    entry of the first stripe is the id of a cluster of maximal
    [NumVectors]. *)
Theorem PackClusters_empty_or_largest_first srt cap :
  SortSliceSpec srt →
  PackClusters srt [] cap = Panic NoClustersGiven
  ∧ ∀ clusters, clusters ≠ [] →
      Forall (λ c, is_u64 (NumVectors c)) clusters →
      ∃ c0 ids cols szs,
        PackClusters srt clusters cap = Ok ((Index c0 :: ids) :: cols, szs)
        ∧ c0 ∈ clusters
        ∧ ∀ c, c ∈ clusters → NumVectors c ≤ NumVectors c0.
Proof.
  intros Hsrt. split; [reflexivity|].
  intros clusters Hne Hu.
  rewrite (PackClusters_stripes64 srt Hsrt clusters cap Hne Hu).
  pose proof (clustersAt_packingOrder srt Hsrt clusters) as Hperm.
  pose proof (clustersAt_sorted clusters _
                (packingOrder_sorted srt Hsrt clusters)) as Hsorted.
  destruct (clustersAt clusters (packingOrder srt clusters))
    as [|c0 rest] eqn:Hord.
  { apply Permutation_nil_l in Hperm. done. }
  unfold firstFitDecreasing64.
  destruct (foldl_placeFirst_head (fitsBelow64 (raiseCap cap c0)) rest c0 [] [])
    as (s0 & stripes & ->).
  exists c0, (map Index s0), (colsOf stripes),
    (rowCounts64Of ((c0 :: s0) :: stripes)).
  split; [done|]. split.
  - rewrite <- Hperm. left.
  - intros c Hc. rewrite <- Hperm in Hc.
    apply StronglySorted_cons in Hsorted as [Hall _].
    apply elem_of_cons in Hc as [->|Hc]; [lia|].
    rewrite Forall_forall in Hall. by apply Hall.
Qed.

Lemma PackClusters_empty_or_largest_first_witness :
  PackClusters insertionSort [] 12 = Panic NoClustersGiven
  ∧ ∃ c0 ids cols szs,
      PackClusters insertionSort s3_clusters 12
      = Ok ((Index c0 :: ids) :: cols, szs)
      ∧ c0 ∈ s3_clusters
      ∧ ∀ c, c ∈ s3_clusters → NumVectors c ≤ NumVectors c0.
Proof.
  destruct (PackClusters_empty_or_largest_first insertionSort 12
              insertionSort_spec) as [H1 H2].
  split; [exact H1|].
  apply H2.
  - discriminate.
  - unfold s3_clusters, is_u64. repeat constructor; simpl; lia.
Defined.

(** ** ReadAllClusters *)

Lemma ReadClusterFromCsv_inv file index dim precBits c :
  ReadClusterFromCsv file index dim precBits = Ok c →
  Index c = index ∧ is_u64 (NumVectors c) ∧ Dim c = dim ∧ PrecBits c = precBits.
Proof.
  unfold ReadClusterFromCsv. destruct file as [rows|]; [|done].
  cbn [mbind result_bind].
  destruct (readRows dim _ rows [] 0) as [[vectors numVec]|]; [|done].
  cbn [mbind result_bind]. case_bool_decide; [|done].
  intros [= <-]. simpl. repeat split; apply wrap64_range.
Qed.

Lemma sumNumVectors_snoc a c :
  sumNumVectors (a ++ [c]) = sumNumVectors a + NumVectors c.
Proof. rewrite sumNumVectors_app. unfold sumNumVectors. simpl. lia. Qed.

Lemma readLoop_inv files fuel i dim precBits acc v clusters v' :
  readLoop files fuel i dim precBits acc v = Ok (clusters, v') →
  v = wrap64 (sumNumVectors acc) →
  Forall (λ c, is_u64 (NumVectors c)) acc →
  i = Z.of_nat (length acc) →
  (∀ (k : nat) c, acc !! k = Some c → Index c = Z.of_nat k) →
  v' = wrap64 (sumNumVectors clusters)
  ∧ Forall (λ c, is_u64 (NumVectors c)) clusters
  ∧ length clusters = (length acc + fuel)%nat
  ∧ (∀ (k : nat) c, clusters !! k = Some c → Index c = Z.of_nat k).
Proof.
  revert i acc v. induction fuel as [|fuel IH]; intros i acc v Hrun Hv Hu Hi Hidx.
  - simpl in Hrun. injection Hrun as <- <-. rewrite Nat.add_0_r. done.
  - cbn [readLoop] in Hrun.
    destruct (ReadClusterFromCsv (files i) i dim precBits) as [c|] eqn:Hc;
      [|done].
    cbn [mbind result_bind] in Hrun.
    destruct (negb (Dim c =? dim)); [done|].
    destruct (negb (PrecBits c =? precBits)); [done|].
    apply ReadClusterFromCsv_inv in Hc as (Hci & Hcu & _ & _).
    apply IH in Hrun as (H1 & H2 & H3 & H4).
    + repeat split; try done. rewrite H3, length_app. simpl. lia.
    + rewrite sumNumVectors_snoc, Hv. unfold add64. by rewrite wrap64_add_l.
    + apply Forall_app. split; [done|]. by constructor.
    + rewrite length_app. simpl. lia.
    + intros k c' Hk. apply lookup_app_Some in Hk as [Hk|[Hlen Hk]]; [by apply Hidx|].
      apply list_lookup_singleton_Some in Hk as [Hk ->]. lia.
Qed.

(** A successful [ReadAllClusters] has decoded the metadata, allocated
    its two slices and run its loop to the end. *)
Lemma ReadAllClusters_Ok_inv files metadataFile precBits metadata clusters :
  ReadAllClusters files metadataFile precBits = Ok (metadata, clusters) →
  metadataFile = Ok metadata
  ∧ makeFits 8 (md_NumClusters metadata) = true
  ∧ ∃ v,
      readLoop files (Z.to_nat (md_NumClusters metadata)) 0 (md_Dim metadata)
        precBits [] 0 = Ok (clusters, v)
      ∧ v = md_NumVectors metadata.
Proof.
  unfold ReadAllClusters. destruct metadataFile as [md|]; [|done].
  cbn [mbind result_bind].
  destruct (makeFits 8 (md_NumClusters md)) eqn:Hfits; cbn [negb]; [|done].
  destruct (readLoop files (Z.to_nat (md_NumClusters md)) 0 (md_Dim md)
              precBits [] 0) as [[cs v]|] eqn:Hloop; [|done].
  cbn [mbind result_bind].
  destruct (Z.eqb_spec v (md_NumVectors md)) as [Hv|]; [|done].
  intros [= <- <-]. split; [done|]. split; [done|]. by exists v.
Qed.

Lemma ReadAllClusters_inv files metadataFile precBits metadata clusters :
  ReadAllClusters files metadataFile precBits = Ok (metadata, clusters) →
  wrap64 (sumNumVectors clusters) = md_NumVectors metadata
  ∧ Forall (λ c, is_u64 (NumVectors c)) clusters
  ∧ length clusters = Z.to_nat (md_NumClusters metadata)
  ∧ (∀ (k : nat) c, clusters !! k = Some c → Index c = Z.of_nat k).
Proof.
  intros Hread.
  apply ReadAllClusters_Ok_inv in Hread as (_ & _ & v & Hloop & Hv).
  apply readLoop_inv in Hloop as (H1 & H2 & H3 & H4); try done.
  by rewrite <- Hv, H1.
Qed.

Lemma readFields_length fuel : ∀ j row fields,
  readFields fuel j row = Ok fields → length fields = fuel.
Proof.
  induction fuel as [|fuel IH]; intros j row fields; cbn [readFields].
  - by intros [= <-].
  - destruct (sliceGet row j) as [u|]; cbn [mbind result_bind]; [|done].
    destruct (readFields fuel (j + 1) row) as [rest|] eqn:Hrest;
      cbn [mbind result_bind]; [|done].
    intros [= <-]. simpl. by rewrite (IH _ _ _ Hrest).
Qed.

Lemma readRows_length dim rows : ∀ fpr vectors numVec vectors' numVec',
  readRows dim fpr rows vectors numVec = Ok (vectors', numVec') →
  numVec' = numVec + Z.of_nat (length rows)
  ∧ Z.of_nat (length vectors')
    = Z.of_nat (length vectors)
      + Z.of_nat (length rows) * Z.of_nat (Z.to_nat (int_of_u64 dim)).
Proof.
  induction rows as [|row rows IH]; intros fpr vectors numVec vectors' numVec';
    cbn [readRows].
  - intros [= <- <-]. simpl. lia.
  - destruct (checkFieldCount fpr row) as [fpr'|]; [|done].
    destruct (readFields _ 0 row) as [fields|] eqn:Hf; cbn [mbind result_bind];
      [|done].
    intros Hrun. apply IH in Hrun as [-> ->].
    rewrite length_app, (readFields_length _ _ _ _ Hf). simpl length. lia.
Qed.

Lemma int_of_u64_small z : 0 ≤ z < 2 ^ 63 → int_of_u64 z = z.
Proof.
  intros Hz. unfold int_of_u64, wrapInt. rewrite Z.mod_small; lia.
Qed.

(** What [ReadClusterFromCsv] returns holds as many components as its
    [NumVectors] and [dim] say. *)
Lemma ReadClusterFromCsv_wfCluster file index dim precBits c :
  0 ≤ dim < 2 ^ 63 →
  ReadClusterFromCsv file index dim precBits = Ok c → wfCluster dim c.
Proof.
  intros Hdim. unfold ReadClusterFromCsv. destruct file as [rows|]; [|done].
  cbn [mbind result_bind].
  destruct (readRows dim _ rows [] 0) as [[vectors numVec]|] eqn:Hrows; [|done].
  cbn [mbind result_bind]. case_bool_decide; [|done].
  intros [= <-]. unfold wfCluster. cbn [NumVectors Vectors].
  apply readRows_length in Hrows as [-> Hlen].
  rewrite int_of_u64_small, Z2Nat.id in Hlen by lia.
  rewrite Z.add_0_l in *. change (Z.of_nat (length [])) with 0 in Hlen.
  split; [apply wrap64_range|]. rewrite Hlen.
  assert (wrap64 (Z.of_nat (length rows)) ≤ Z.of_nat (length rows)); [|nia].
  unfold wrap64. apply Z.mod_le; lia.
Qed.

Lemma readLoop_wfCluster files fuel : ∀ i dim precBits acc v clusters v',
  0 ≤ dim < 2 ^ 63 →
  readLoop files fuel i dim precBits acc v = Ok (clusters, v') →
  Forall (wfCluster dim) acc → Forall (wfCluster dim) clusters.
Proof.
  induction fuel as [|fuel IH]; intros i dim precBits acc v clusters v' Hdim.
  - simpl. by intros [= <- <-].
  - cbn [readLoop].
    destruct (ReadClusterFromCsv (files i) i dim precBits) as [c|] eqn:Hc;
      [|done].
    cbn [mbind result_bind].
    destruct (negb (Dim c =? dim)); [done|].
    destruct (negb (PrecBits c =? precBits)); [done|].
    intros Hrun Hacc. eapply IH; [done|exact Hrun|].
    apply Forall_app. split; [done|]. constructor; [|done].
    by eapply ReadClusterFromCsv_wfCluster.
Qed.

(** The clusters that [ReadAllClusters] returns are an input of the data
    model, as long as the matrix fits in memory. *)
Lemma ReadAllClusters_wfInput files metadataFile precBits metadata clusters :
  ReadAllClusters files metadataFile precBits = Ok (metadata, clusters) →
  0 < md_NumClusters metadata →
  0 < md_Dim metadata →
  (sumNumVectors clusters + 1)
  * (Z.of_nat (length clusters) * md_Dim metadata) < 2 ^ 63 →
  wfInput metadata clusters.
Proof.
  intros Hread Hn Hdim Hsize.
  pose proof (ReadAllClusters_inv _ _ _ _ _ Hread) as (_ & Hu & Hlen & Hidx).
  assert (Hpos : 0 < Z.of_nat (length clusters)) by (rewrite Hlen; lia).
  assert (Hdim63 : md_Dim metadata < 2 ^ 63).
  { assert (0 ≤ sumNumVectors clusters); [|nia].
    apply sumNumVectors_nonneg. eapply Forall_impl; [exact Hu|]. by intros c []. }
  split; try done.
  - intros ->. simpl in Hpos. lia.
  - apply ReadAllClusters_Ok_inv in Hread as (_ & _ & v & Hloop & _).
    eapply readLoop_wfCluster; [|exact Hloop|constructor]. lia.
Qed.

Lemma sum64_wrap l : sum64 l = wrap64 (foldr Z.add 0 l).
Proof.
  induction l as [|x l IH]; [done|]. simpl. rewrite IH.
  unfold add64, wrap64. by rewrite Zplus_mod_idemp_r.
Qed.

Lemma rowCounts64Of_sum stripes :
  sum64 (rowCounts64Of stripes) = wrap64 (sumNumVectors (concat stripes)).
Proof.
  rewrite sum64_wrap, sumNumVectors_concat.
  induction stripes as [|s stripes IH]; [done|]. simpl.
  unfold wrap64 in *. rewrite Zplus_mod, IH, <- Zplus_mod.
  by rewrite Zplus_mod_idemp_l.
Qed.

(** C3: packing conserves the number of vectors.  For every non-empty
    cluster list the result of [PackClusters] is a list of stripes of the
    given clusters: [cols] lists their ids, [colRowCounts] the sum of their
    sizes, every cluster is in the stripes once, and the row-counts add up
    to the sum of all cluster sizes.  After [ReadAllClusters] has succeeded
    that sum is [metadata.NumVectors].  The sums are those of [uint64]; they
    are the sums of the integers when the total size fits a [uint64]. *)
Theorem packing_conservation srt :
  SortSliceSpec srt →
  (∀ clusters cap, clusters ≠ [] →
     Forall (λ c, is_u64 (NumVectors c)) clusters →
     ∃ stripes,
       PackClusters srt clusters cap = Ok (colsOf stripes, rowCounts64Of stripes)
       ∧ (∀ (c : nat) s, stripes !! c = Some s →
            colsOf stripes !! c = Some (map Index s)
            ∧ rowCounts64Of stripes !! c = Some (wrap64 (sumNumVectors s)))
       ∧ concat stripes ≡ₚ clusters
       ∧ sum64 (rowCounts64Of stripes) = wrap64 (sumNumVectors clusters)
       ∧ (sumNumVectors clusters < 2 ^ 64 →
          rowCounts64Of stripes = rowCountsOf stripes
          ∧ foldr Z.add 0 (rowCountsOf stripes) = sumNumVectors clusters))
  ∧ (∀ files metadataFile precBits metadata clusters,
       ReadAllClusters files metadataFile precBits = Ok (metadata, clusters) →
       Forall (λ c, is_u64 (NumVectors c)) clusters
       ∧ wrap64 (sumNumVectors clusters) = md_NumVectors metadata
       ∧ (sumNumVectors clusters < 2 ^ 64 →
          sumNumVectors clusters = md_NumVectors metadata)).
Proof.
  intros Hsrt. split.
  - intros clusters cap Hne Hu.
    set (ordered := clustersAt clusters (packingOrder srt clusters)).
    exists (firstFitDecreasing64 ordered cap).
    assert (Hperm : concat (firstFitDecreasing64 ordered cap) ≡ₚ clusters).
    { rewrite firstFitDecreasing64_concat. by apply clustersAt_packingOrder. }
    split; [by apply PackClusters_stripes64|]. split.
    { intros c s Hs. unfold colsOf, rowCounts64Of, rowCount.
      rewrite !list_lookup_fmap, Hs. done. }
    split; [done|]. split.
    { by rewrite rowCounts64Of_sum, (sumNumVectors_perm _ _ Hperm). }
    intros Hsum.
    assert (Hnn : Forall (λ c, 0 ≤ NumVectors c)
                    (concat (firstFitDecreasing64 ordered cap))).
    { rewrite Hperm. eapply Forall_impl; [exact Hu|]. by intros c []. }
    split.
    + apply rowCounts64Of_no_overflow; [done|].
      by rewrite (sumNumVectors_perm _ _ Hperm).
    + by rewrite <- sumNumVectors_concat, (sumNumVectors_perm _ _ Hperm).
  - intros files metadataFile precBits metadata clusters Hread.
    apply ReadAllClusters_inv in Hread as (Hsum & Hu & _ & _).
    split; [done|]. split; [done|].
    intros Hlt. rewrite <- Hsum. symmetry. apply wrap64_small.
    split; [|done]. apply sumNumVectors_nonneg.
    eapply Forall_impl; [exact Hu|]. by intros c [].
Qed.

Lemma packing_conservation_witness :
  ReadAllClusters sample_files (Ok sample_metadata) 5
  = Ok (sample_metadata, sample_clusters)
  ∧ sumNumVectors sample_clusters = md_NumVectors sample_metadata
  ∧ ∃ stripes,
      PackClusters insertionSort sample_clusters 3
      = Ok (colsOf stripes, rowCounts64Of stripes)
      ∧ concat stripes ≡ₚ sample_clusters
      ∧ foldr Z.add 0 (rowCountsOf stripes) = sumNumVectors sample_clusters.
Proof.
  destruct (packing_conservation insertionSort insertionSort_spec) as [Hp Hr].
  assert (Hread : ReadAllClusters sample_files (Ok sample_metadata) 5
                  = Ok (sample_metadata, sample_clusters))
    by (vm_compute; reflexivity).
  split; [exact Hread|].
  destruct (Hr _ _ _ _ _ Hread) as (Hu & _ & Hsum).
  split; [apply Hsum; vm_compute; reflexivity|].
  destruct (Hp sample_clusters 3 ltac:(discriminate) Hu)
    as (stripes & H1 & _ & H2 & _ & H4).
  exists stripes. split; [exact H1|]. split; [exact H2|].
  apply H4. vm_compute. reflexivity.
Defined.

(** ** Populating the plaintext matrix *)

Lemma cell_inj slots m r c j r' c' j' :
  0 ≤ j < slots → 0 ≤ j' < slots → 0 ≤ c → 0 ≤ c' →
  slots * c + slots ≤ m → slots * c' + slots ≤ m →
  r * m + slots * c + j = r' * m + slots * c' + j' →
  r = r' ∧ c = c' ∧ j = j'.
Proof.
  intros Hj Hj' Hc Hc' Hcm Hcm' Heq.
  destruct (Z.div_mod_unique m r r' (slots * c + j) (slots * c' + j'))
    as [-> Hcol]; [left; nia|left; nia|lia|].
  destruct (Z.div_mod_unique slots c c' j j') as [-> ->]; auto.
Qed.

Section Populate.

Variables (slots m l : Z).
Hypothesis Hslots : 0 ≤ slots.
Hypothesis Hm : 0 ≤ m.
Hypothesis Hl : 0 ≤ l < 2 ^ 64.
Hypothesis Hbound : (l + 1) * m < 2 ^ 63.

Local Abbreviation cell := (cellIndex m slots).

Lemma DBIndex_cell r c j :
  0 ≤ r ≤ l → 0 ≤ c → 0 ≤ j → slots * c + j < m →
  DBIndex r (add64 (mul64 slots c) j) m = cell r c j.
Proof.
  intros Hr Hc Hj Hcm. unfold DBIndex, cellIndex.
  rewrite (mul64_small slots c), (add64_small (slots * c) j),
    (mul64_small r m), add64_small; nia.
Qed.

Lemma DBIndex_origin r c :
  0 ≤ r ≤ l → 0 ≤ c → slots * c + slots ≤ m →
  DBIndex r (mul64 slots c) m = cell r c 0.
Proof.
  intros Hr Hc Hcm. unfold DBIndex, cellIndex.
  rewrite (mul64_small slots c), (mul64_small r m), add64_small; nia.
Qed.

Lemma laneLoop_spec fuel : ∀ j vals vectors r c start,
  0 ≤ j → j + Z.of_nat fuel = slots →
  0 ≤ r < l → 0 ≤ c → slots * c + slots ≤ m →
  Z.of_nat (length vals) = l * m →
  0 ≤ start → start + slots ≤ Z.of_nat (length vectors) →
  start + slots < 2 ^ 64 →
  ∃ vals',
    laneLoop fuel j vals vectors r c start slots m = Ok vals'
    ∧ length vals' = length vals
    ∧ (∀ j', j ≤ j' < slots →
         vals' !! Z.to_nat (cell r c j')
         = uint64_of_int8 <$> vectors !! Z.to_nat (start + j'))
    ∧ (∀ x, 0 ≤ x → (∀ j', j ≤ j' < slots → x ≠ cell r c j') →
         vals' !! Z.to_nat x = vals !! Z.to_nat x).
Proof.
  induction fuel as [|fuel IH];
    intros j vals vectors r c start Hj Hfuel Hr Hc Hcm Hlen Hstart Hvec Hs64.
  { exists vals. split; [done|]. split; [done|].
    split; [intros j' Hj'; lia|done]. }
  cbn [laneLoop].
  rewrite (add64_small start j) by lia.
  destruct (lookup_lt_is_Some_2 vectors (Z.to_nat (start + j))) as [v Hv];
    [lia|].
  rewrite (sliceGet_Ok vectors (start + j) v) by (done || lia).
  cbn [mbind result_bind].
  rewrite DBIndex_cell by nia.
  assert (Hin : 0 ≤ cell r c j < Z.of_nat (length vals)) by (unfold cellIndex; nia).
  rewrite sliceSet_Ok by done. cbn [mbind result_bind].
  destruct (IH (j + 1) (<[Z.to_nat (cell r c j) := uint64_of_int8 v]> vals)
              vectors r c start) as (vals' & Hrun & Hlen' & Heff & Hfr);
    try done; try lia.
  { by rewrite length_insert. }
  exists vals'. split; [done|]. rewrite length_insert in Hlen'.
  split; [done|]. split.
  - intros j' Hj'. destruct (decide (j' = j)) as [->|Hne].
    + rewrite Hfr; [|lia|intros j'' Hj''; unfold cellIndex; lia].
      rewrite list_lookup_insert_eq by lia. by rewrite Hv.
    + apply Heff. lia.
  - intros x Hx Hout. rewrite Hfr; [|done|intros j' Hj'; apply Hout; lia].
    apply list_lookup_insert_ne. specialize (Hout j ltac:(lia)). lia.
Qed.

Lemma rowLoop_spec fuel : ∀ vals vectors r c start,
  0 ≤ r → r + Z.of_nat fuel ≤ l →
  0 ≤ c → slots * c + slots ≤ m →
  Z.of_nat (length vals) = l * m →
  0 ≤ start →
  start + Z.of_nat fuel * slots ≤ Z.of_nat (length vectors) →
  start + Z.of_nat fuel * slots < 2 ^ 64 →
  ∃ vals',
    rowLoop fuel vals vectors r c start slots m l
    = Ok (vals', r + Z.of_nat fuel)
    ∧ length vals' = length vals
    ∧ (∀ i j, 0 ≤ i < Z.of_nat fuel → 0 ≤ j < slots →
         vals' !! Z.to_nat (cell (r + i) c j)
         = uint64_of_int8 <$> vectors !! Z.to_nat (start + i * slots + j))
    ∧ (∀ x, 0 ≤ x →
         (∀ i j, 0 ≤ i < Z.of_nat fuel → 0 ≤ j < slots → x ≠ cell (r + i) c j) →
         vals' !! Z.to_nat x = vals !! Z.to_nat x).
Proof.
  induction fuel as [|fuel IH];
    intros vals vectors r c start Hr Hfuel Hc Hcm Hlen Hstart Hvec Hs64.
  { exists vals. rewrite Z.add_0_r. split; [done|]. split; [done|].
    split; [intros i j Hi; lia|done]. }
  cbn [rowLoop]. rewrite Nat2Z.inj_succ in Hfuel, Hvec, Hs64.
  destruct (laneLoop_spec (Z.to_nat slots) 0 vals vectors r c start)
    as (vals1 & Hrun1 & Hlen1 & Heff1 & Hfr1); try done; try nia.
  rewrite Hrun1. cbn [mbind result_bind].
  rewrite (add64_small r 1), (add64_small start slots) by nia.
  destruct (Z.ltb_spec l (r + 1)); [lia|].
  destruct (IH vals1 vectors (r + 1) c (start + slots))
    as (vals' & Hrun & Hlen' & Heff & Hfr); try done; try nia.
  exists vals'. rewrite Hrun. split; [f_equal; f_equal; lia|].
  split; [congruence|]. split.
  - intros i j Hi Hj. destruct (decide (i = 0)) as [->|Hne].
    + rewrite Hfr.
      * rewrite Z.add_0_r. rewrite Heff1 by lia. do 2 f_equal. lia.
      * unfold cellIndex. nia.
      * intros i' j' Hi' Hj' Heq. unfold cellIndex in Heq.
        apply cell_inj in Heq; try done. lia.
    + specialize (Heff (i - 1) j ltac:(lia) Hj).
      replace (r + 1 + (i - 1)) with (r + i) in Heff by lia.
      rewrite Heff. do 2 f_equal. lia.
  - intros x Hx Hout. rewrite Hfr; [|done|].
    + apply Hfr1; [done|]. intros j Hj.
      specialize (Hout 0 j ltac:(lia) Hj). by rewrite Z.add_0_r in Hout.
    + intros i j Hi Hj. specialize (Hout (i + 1) j ltac:(lia) Hj).
      by replace (r + (i + 1)) with (r + 1 + i) in Hout by lia.
Qed.

Variable clusters : list Cluster.

Lemma rowsOf_cons id ids :
  rowsOf clusters (id :: ids) = sizeAt clusters id + rowsOf clusters ids.
Proof. done. Qed.

Lemma rowsOf_nonneg ids :
  idsOk clusters slots ids → 0 ≤ rowsOf clusters ids.
Proof.
  induction 1 as [|id ids (_ & c & Hc & Hn & _) _ IH]; [done|].
  rewrite rowsOf_cons. unfold sizeAt. rewrite Hc. lia.
Qed.

Lemma stripeLoop_spec ids : ∀ vals (indexMap : gmap Z Z) r0 c,
  idsOk clusters slots ids →
  0 ≤ r0 → r0 + rowsOf clusters ids ≤ l →
  0 ≤ c → slots * c + slots ≤ m →
  Z.of_nat (length vals) = l * m →
  NoDup ids → (∀ id, id ∈ ids → indexMap !! id = None) →
  ∃ vals' (indexMap' : gmap Z Z),
    stripeLoop clusters ids c slots m l vals indexMap r0 = Ok (vals', indexMap')
    ∧ length vals' = length vals
    ∧ (∀ (k : nat) id, ids !! k = Some id →
         indexMap' !! id = Some (cell (r0 + rowsOf clusters (take k ids)) c 0))
    ∧ (∀ id, id ∉ ids → indexMap' !! id = indexMap !! id)
    ∧ (∀ (k : nat) id cl i j,
         ids !! k = Some id → clusters !! Z.to_nat id = Some cl →
         0 ≤ i < NumVectors cl → 0 ≤ j < slots →
         vals' !! Z.to_nat (cell (r0 + rowsOf clusters (take k ids) + i) c j)
         = uint64_of_int8 <$> Vectors cl !! Z.to_nat (i * slots + j))
    ∧ (∀ x, 0 ≤ x →
         (∀ r j, r0 ≤ r < r0 + rowsOf clusters ids → 0 ≤ j < slots →
                 x ≠ cell r c j) →
         vals' !! Z.to_nat x = vals !! Z.to_nat x).
Proof.
  induction ids as [|id ids IH];
    intros vals indexMap r0 c Hok Hr0 Hrows Hc Hcm Hlen Hnd Hfresh.
  { exists vals, indexMap. split; [done|]. split; [done|].
    split; [intros k id Hk; by rewrite lookup_nil in Hk|].
    split; [done|].
    split; [intros k id cl i j Hk; by rewrite lookup_nil in Hk|done]. }
  apply Forall_cons in Hok as [(Hid & cl & Hcl & Hn & Hvec) Hok].
  apply NoDup_cons in Hnd as [Hnotin Hnd].
  pose proof (rowsOf_nonneg ids Hok) as Hnn.
  rewrite rowsOf_cons in Hrows. unfold sizeAt in Hrows. rewrite Hcl in Hrows.
  cbn [stripeLoop]. rewrite (Hfresh id) by left.
  rewrite (sliceGet_Ok clusters id cl) by done. cbn [mbind result_bind].
  destruct (rowLoop_spec (Z.to_nat (NumVectors cl)) vals (Vectors cl) r0 c 0)
    as (vals1 & Hrun1 & Hlen1 & Heff1 & Hfr1); try done; try nia.
  rewrite Hrun1. cbn [mbind result_bind]. rewrite Z2Nat.id by done.
  destruct (IH vals1
              (<[id := DBIndex r0 (mul64 slots c) m]> indexMap)
              (r0 + NumVectors cl) c)
    as (vals' & indexMap' & Hrun & Hlen' & Hmap & Hmfr & Heff & Hfr);
    try done; try lia.
  { intros id' Hid'. rewrite lookup_insert_ne; [apply Hfresh; by right|].
    intros ->. done. }
  exists vals', indexMap'. split; [done|]. split; [congruence|].
  rewrite Z2Nat.id in Heff1, Hfr1 by done.
  split; [|split; [|split]].
  - intros [|k] id' Hk; simpl in Hk.
    + injection Hk as <-. rewrite Hmfr by done.
      rewrite lookup_insert_eq. rewrite DBIndex_origin by (done || lia).
      simpl. unfold rowsOf. simpl. by rewrite Z.add_0_r.
    + rewrite (Hmap _ _ Hk). cbn [take]. rewrite rowsOf_cons.
      unfold sizeAt. rewrite Hcl. do 2 f_equal; unfold cellIndex; lia.
  - intros id' Hid'. apply not_elem_of_cons in Hid' as [Hne Hid'].
    rewrite Hmfr by done. by rewrite lookup_insert_ne.
  - intros [|k] id' cl' i j Hk Hcl' Hi Hj; simpl in Hk.
    + injection Hk as <-. rewrite Hcl in Hcl'. injection Hcl' as <-.
      cbn [take]. unfold rowsOf at 1. simpl. rewrite Z.add_0_r.
      rewrite Hfr.
      * rewrite Heff1 by done. do 2 f_equal.
      * unfold cellIndex. nia.
      * intros r j' Hr Hj' Heq. unfold cellIndex in Heq.
        apply cell_inj in Heq; try done. lia.
    + rewrite <- (Heff _ _ _ _ _ Hk Hcl' Hi Hj). cbn [take].
      rewrite rowsOf_cons. unfold sizeAt. rewrite Hcl. do 2 f_equal; unfold cellIndex; lia.
  - intros x Hx Hout. rewrite Hfr; [|done|].
    + apply Hfr1; [done|]. intros i j Hi Hj. apply Hout; [|done].
      rewrite rowsOf_cons. unfold sizeAt. rewrite Hcl. lia.
    + intros r j Hr Hj. apply Hout; [|done].
      rewrite rowsOf_cons. unfold sizeAt. rewrite Hcl. lia.
Qed.

Lemma colsLoop_spec cols : ∀ vals (indexMap : gmap Z Z) c0,
  Forall (idsOk clusters slots) cols →
  Forall (λ ids, rowsOf clusters ids ≤ l) cols →
  0 ≤ c0 → slots * (c0 + Z.of_nat (length cols)) ≤ m →
  Z.of_nat (length vals) = l * m →
  NoDup (concat cols) → (∀ id, id ∈ concat cols → indexMap !! id = None) →
  ∃ vals' (indexMap' : gmap Z Z),
    colsLoop clusters cols c0 slots m l vals indexMap = Ok (vals', indexMap')
    ∧ length vals' = length vals
    ∧ (∀ (s k : nat) ids id, cols !! s = Some ids → ids !! k = Some id →
         indexMap' !! id
         = Some (cell (rowsOf clusters (take k ids)) (c0 + Z.of_nat s) 0))
    ∧ (∀ id, id ∉ concat cols → indexMap' !! id = indexMap !! id)
    ∧ (∀ (s k : nat) ids id cl i j,
         cols !! s = Some ids → ids !! k = Some id →
         clusters !! Z.to_nat id = Some cl →
         0 ≤ i < NumVectors cl → 0 ≤ j < slots →
         vals' !! Z.to_nat (cell (rowsOf clusters (take k ids) + i)
                                 (c0 + Z.of_nat s) j)
         = uint64_of_int8 <$> Vectors cl !! Z.to_nat (i * slots + j))
    ∧ (∀ x, 0 ≤ x →
         (∀ (s : nat) ids r j, cols !! s = Some ids →
            0 ≤ r < rowsOf clusters ids → 0 ≤ j < slots →
            x ≠ cell r (c0 + Z.of_nat s) j) →
         vals' !! Z.to_nat x = vals !! Z.to_nat x).
Proof.
  induction cols as [|ids cols IH];
    intros vals indexMap c0 Hok Hrows Hc0 Hcm Hlen Hnd Hfresh.
  { exists vals, indexMap. split; [done|]. split; [done|].
    split; [intros s k ids id Hs; by rewrite lookup_nil in Hs|].
    split; [done|].
    split; [intros s k ids id cl i j Hs; by rewrite lookup_nil in Hs|done]. }
  apply Forall_cons in Hok as [Hok1 Hok].
  apply Forall_cons in Hrows as [Hrows1 Hrows].
  cbn [concat] in Hnd, Hfresh. apply NoDup_app in Hnd as (Hnd1 & Hdisj & Hnd).
  rewrite length_cons, Nat2Z.inj_succ in Hcm.
  cbn [colsLoop].
  destruct (stripeLoop_spec ids vals indexMap 0 c0)
    as (vals1 & indexMap1 & Hrun1 & Hlen1 & Hmap1 & Hmfr1 & Heff1 & Hfr1);
    try done; try nia.
  { intros id Hid. apply Hfresh, elem_of_app. by left. }
  rewrite Hrun1. cbn [mbind result_bind].
  destruct (IH vals1 indexMap1 (c0 + 1))
    as (vals' & indexMap' & Hrun & Hlen' & Hmap & Hmfr & Heff & Hfr);
    try done; try nia.
  { intros id Hid. rewrite Hmfr1.
    - apply Hfresh, elem_of_app. by right.
    - intros Hin. by apply (Hdisj id). }
  exists vals', indexMap'. split; [done|]. split; [congruence|].
  split; [|split; [|split]].
  - intros [|s] k ids' id Hs Hk; simpl in Hs.
    + injection Hs as <-. rewrite Hmfr.
      * rewrite (Hmap1 _ _ Hk). do 2 f_equal; unfold cellIndex; lia.
      * apply Hdisj. by eapply list_elem_of_lookup_2.
    + rewrite (Hmap _ _ _ _ Hs Hk). do 2 f_equal; unfold cellIndex; lia.
  - intros id Hid. apply not_elem_of_app in Hid as [Hid1 Hid2].
    rewrite Hmfr by done. by apply Hmfr1.
  - intros [|s] k ids' id cl i j Hs Hk Hcl Hi Hj; simpl in Hs.
    + injection Hs as <-. rewrite Hfr.
      * rewrite <- (Heff1 _ _ _ _ _ Hk Hcl Hi Hj). do 2 f_equal; unfold cellIndex; lia.
      * unfold cellIndex.
        pose proof (rowsOf_nonneg (take k ids)
                      ltac:(by apply Forall_take)). nia.
      * intros s' ids'' r j' Hs' Hr Hj' Heq. unfold cellIndex in Heq.
        apply lookup_lt_Some in Hs'.
        apply cell_inj in Heq; try done; try nia.
    + rewrite <- (Heff _ _ _ _ _ _ _ Hs Hk Hcl Hi Hj). do 2 f_equal; unfold cellIndex; lia.
  - intros x Hx Hout. rewrite Hfr; [|done|].
    + apply Hfr1; [done|]. intros r j Hr Hj.
      specialize (Hout 0%nat ids r j eq_refl ltac:(lia) Hj).
      by rewrite Z.add_0_r in Hout.
    + intros s ids' r j Hs Hr Hj.
      specialize (Hout (S s) ids' r j Hs Hr Hj).
      by replace (c0 + Z.of_nat (S s)) with (c0 + 1 + Z.of_nat s) in Hout by lia.
Qed.

End Populate.

(** ** The panics of the population loops *)

Lemma laneLoop_panic fuel : ∀ j vals vectors r c start slots m p,
  laneLoop fuel j vals vectors r c start slots m = Panic p →
  p = IndexOutOfRange.
Proof.
  induction fuel as [|fuel IH]; intros j vals vectors r c start slots m p;
    [done|].
  cbn [laneLoop].
  destruct (sliceGet vectors (add64 start j)) as [v|q] eqn:Hget;
    cbn [mbind result_bind].
  - destruct (sliceSet vals _ (uint64_of_int8 v)) as [vals'|q] eqn:Hset;
      cbn [mbind result_bind].
    + apply IH.
    + intros [= <-]. by eapply sliceSet_panic.
  - intros [= <-]. by eapply sliceGet_panic.
Qed.

Lemma rowLoop_panic fuel : ∀ vals vectors r c start slots m l p,
  rowLoop fuel vals vectors r c start slots m l = Panic p →
  p = IndexOutOfRange ∨ p = RowOverflow.
Proof.
  induction fuel as [|fuel IH]; intros vals vectors r c start slots m l p;
    [done|].
  cbn [rowLoop].
  destruct (laneLoop (Z.to_nat slots) 0 vals vectors r c start slots m)
    as [vals'|q] eqn:Hlane; cbn [mbind result_bind].
  - destruct (l <? add64 r 1); [intros [= <-]; by right|]. apply IH.
  - intros [= <-]. left. by eapply laneLoop_panic.
Qed.

Lemma stripeLoop_no_duplicate clusters ids : ∀ c slots m l vals (indexMap : gmap Z Z) r0,
  NoDup ids → (∀ id, id ∈ ids → indexMap !! id = None) →
  match stripeLoop clusters ids c slots m l vals indexMap r0 with
  | Ok (_, indexMap') => ∀ id, id ∉ ids → indexMap' !! id = indexMap !! id
  | Panic p => p = IndexOutOfRange ∨ p = RowOverflow
  end.
Proof.
  induction ids as [|id ids IH]; intros c slots m l vals indexMap r0 Hnd Hfresh;
    [done|].
  apply NoDup_cons in Hnd as [Hnotin Hnd].
  cbn [stripeLoop]. rewrite (Hfresh id) by left.
  destruct (sliceGet clusters id) as [cl|q] eqn:Hget; cbn [mbind result_bind];
    [|left; by eapply sliceGet_panic].
  destruct (rowLoop (Z.to_nat (NumVectors cl)) vals (Vectors cl) r0 c 0 slots m l)
    as [[vals' r']|q] eqn:Hrow; cbn [mbind result_bind];
    [|by eapply rowLoop_panic].
  specialize (IH c slots m l vals'
                (<[id := DBIndex r0 (mul64 slots c) m]> indexMap) r' Hnd).
  destruct (stripeLoop clusters ids c slots m l vals' _ r') as [[v im]|q].
  - intros id' [Hne Hid']%not_elem_of_cons.
    rewrite IH; [by rewrite lookup_insert_ne| |done].
    intros id'' Hid''. rewrite lookup_insert_ne; [apply Hfresh; by right|].
    intros ->. done.
  - apply IH. intros id'' Hid''.
    rewrite lookup_insert_ne; [apply Hfresh; by right|]. intros ->. done.
Qed.

Lemma colsLoop_no_duplicate clusters cols : ∀ c0 slots m l vals (indexMap : gmap Z Z),
  NoDup (concat cols) → (∀ id, id ∈ concat cols → indexMap !! id = None) →
  match colsLoop clusters cols c0 slots m l vals indexMap with
  | Ok (_, indexMap') => ∀ id, id ∉ concat cols → indexMap' !! id = indexMap !! id
  | Panic p => p = IndexOutOfRange ∨ p = RowOverflow
  end.
Proof.
  induction cols as [|ids cols IH]; intros c0 slots m l vals indexMap Hnd Hfresh;
    [done|].
  cbn [concat] in Hnd, Hfresh. apply NoDup_app in Hnd as (Hnd1 & Hdisj & Hnd).
  cbn [colsLoop].
  pose proof (stripeLoop_no_duplicate clusters ids c0 slots m l vals indexMap 0
                Hnd1) as Hs.
  destruct (stripeLoop clusters ids c0 slots m l vals indexMap 0)
    as [[vals1 indexMap1]|q]; cbn [mbind result_bind].
  - assert (Hfr1 : ∀ id, id ∉ ids → indexMap1 !! id = indexMap !! id).
    { apply Hs. intros id Hid. apply Hfresh, elem_of_app. by left. }
    assert (Hfresh1 : ∀ id, id ∈ concat cols → indexMap1 !! id = None).
    { intros id Hid. rewrite Hfr1.
      - apply Hfresh, elem_of_app. by right.
      - intros Hin. by apply (Hdisj id). }
    specialize (IH (c0 + 1) slots m l vals1 indexMap1 Hnd Hfresh1).
    destruct (colsLoop clusters cols (c0 + 1) slots m l vals1 indexMap1)
      as [[v im]|q]; [|done].
    intros id [Hid1 Hid2]%not_elem_of_app. rewrite IH by done. by apply Hfr1.
  - apply Hs. intros id Hid. apply Hfresh, elem_of_app. by left.
Qed.

(** ** From the packing to the matrix *)

Lemma placeFirst_nonempty (f : list Cluster → bool) c stripes :
  Forall (λ s, s ≠ []) stripes → Forall (λ s, s ≠ []) (placeFirst f c stripes).
Proof.
  induction 1 as [|s stripes Hs Hall IH]; simpl.
  - by repeat constructor.
  - destruct (f s); constructor; try done. by destruct s.
Qed.

Lemma firstFitDecreasing64_nonempty ordered cap :
  Forall (λ s, s ≠ []) (firstFitDecreasing64 ordered cap).
Proof.
  destruct ordered as [|c0 rest]; [constructor|]. unfold firstFitDecreasing64.
  assert (H0 : Forall (λ s : list Cluster, s ≠ []) [[c0]])
    by by repeat constructor.
  revert H0. generalize [[c0]]. generalize (raiseCap cap c0).
  induction rest as [|c rest IH]; intros cap' stripes Hst; [done|].
  cbn [foldl]. apply IH. by apply placeFirst_nonempty.
Qed.

Lemma length_le_concat {A} (ls : list (list A)) :
  Forall (λ s, s ≠ []) ls → (length ls ≤ length (concat ls))%nat.
Proof.
  induction 1 as [|s ls Hs Hall IH]; simpl; [done|].
  rewrite length_app. destruct s; [done|]. simpl. lia.
Qed.

Lemma elem_of_concat {A} (x : A) (ls : list (list A)) :
  x ∈ concat ls ↔ ∃ l, l ∈ ls ∧ x ∈ l.
Proof.
  induction ls as [|l ls IH]; simpl.
  - split; [by intros ?%elem_of_nil|]. by intros (l & ?%elem_of_nil & _).
  - rewrite elem_of_app, IH. split.
    + intros [Hx|(l' & Hl' & Hx)]; [exists l; split; [left|done]|].
      exists l'. split; [by right|done].
    + intros (l' & [->|Hl']%elem_of_cons & Hx); [by left|]. right. eauto.
Qed.

Lemma concat_colsOf stripes : concat (colsOf stripes) = map Index (concat stripes).
Proof.
  unfold colsOf. induction stripes as [|s stripes IH]; [done|].
  simpl. by rewrite IH, map_app.
Qed.

Lemma Max_nonneg l : 0 ≤ Max l.
Proof. unfold Max. induction l; simpl; lia. Qed.

Lemma Max_ge l x : x ∈ l → x ≤ Max l.
Proof.
  unfold Max. induction 1 as [x l|x y l Hx IH]; simpl; lia.
Qed.

Lemma Max_le l b : 0 ≤ b → Forall (λ x, x ≤ b) l → Max l ≤ b.
Proof. intros Hb. unfold Max. induction 1; simpl; lia. Qed.

Lemma lookup_by_Index (clusters : list Cluster) c :
  (∀ (k : nat) c, clusters !! k = Some c → Index c = Z.of_nat k) →
  c ∈ clusters → 0 ≤ Index c ∧ clusters !! Z.to_nat (Index c) = Some c.
Proof.
  intros Hidx [k Hk]%list_elem_of_lookup.
  rewrite (Hidx k c Hk), Nat2Z.id. split; [lia|done].
Qed.

Lemma NoDup_Index (clusters : list Cluster) :
  (∀ (k : nat) c, clusters !! k = Some c → Index c = Z.of_nat k) →
  NoDup (map Index clusters).
Proof.
  intros Hidx. apply NoDup_alt. intros i j x Hi Hj.
  apply list_lookup_fmap_Some in Hi as (ci & -> & Hci).
  apply list_lookup_fmap_Some in Hj as (cj & Heq & Hcj).
  rewrite (Hidx i ci Hci), (Hidx j cj Hcj) in Heq. lia.
Qed.

Lemma rowsOf_Index (clusters : list Cluster) (s : list Cluster) :
  (∀ c, c ∈ s → clusters !! Z.to_nat (Index c) = Some c) →
  rowsOf clusters (map Index s) = rowCount s.
Proof.
  unfold rowsOf, rowCount, sumNumVectors.
  induction s as [|c s IH]; intros H; [done|]. simpl.
  rewrite IH by (intros c' Hc'; apply H; by right).
  unfold sizeAt. by rewrite (H c) by left.
Qed.

Lemma rowsOf_app clusters a b :
  rowsOf clusters (a ++ b) = rowsOf clusters a + rowsOf clusters b.
Proof. unfold rowsOf. induction a; simpl; lia. Qed.

Lemma rowsOf_take_le clusters dim ids (k : nat) id :
  idsOk clusters dim ids → ids !! k = Some id →
  0 ≤ rowsOf clusters (take k ids)
  ∧ rowsOf clusters (take k ids) + sizeAt clusters id ≤ rowsOf clusters ids.
Proof.
  intros Hok Hk.
  rewrite <- (take_drop_middle ids k id Hk) at 3.
  rewrite <- (take_drop_middle ids k id Hk) in Hok.
  apply Forall_app in Hok as [H1 H2]. apply Forall_cons in H2 as [_ H2].
  rewrite rowsOf_app, rowsOf_cons.
  pose proof (rowsOf_nonneg dim clusters _ H1).
  pose proof (rowsOf_nonneg dim clusters _ H2). lia.
Qed.

(** Every row below the row-count of a stripe belongs to one of its
    clusters. *)
Lemma rowsOf_cover clusters dim ids r :
  idsOk clusters dim ids → 0 ≤ r < rowsOf clusters ids →
  ∃ (k : nat) id i,
    ids !! k = Some id ∧ 0 ≤ i < sizeAt clusters id
    ∧ r = rowsOf clusters (take k ids) + i.
Proof.
  intros Hok. revert r. induction Hok as [|id ids Hid Hok IH]; intros r Hr.
  { unfold rowsOf in Hr. simpl in Hr. lia. }
  rewrite rowsOf_cons in Hr.
  destruct (decide (r < sizeAt clusters id)) as [Hlt|Hge].
  - exists 0%nat, id, r. split; [done|]. split; [lia|].
    unfold rowsOf. simpl. lia.
  - destruct (IH (r - sizeAt clusters id)) as (k & id' & i & Hk & Hi & Heq);
      [lia|].
    exists (S k), id', i. split; [done|]. split; [done|].
    cbn [take]. rewrite rowsOf_cons. lia.
Qed.

Section BuildFacts.

Variable srt : (Z → Z → bool) → list Z → list Z.
Hypothesis Hsrt : SortSliceSpec srt.
Variable Params : Type.
Variable P : Params → Z.
Variable Logq : Params → Z.
Variable NewParamsFixedP : Z → Z → Z → option Params.

(** On an input of the data model, [BuildVectorDatabase] reaches the
    backend's database constructor unless the parameter check fails, and
    the matrix it hands over is [populated]. *)
Lemma buildPlaintexts_run metadata clusters hintSz precBits :
  wfInput metadata clusters →
  ∃ stripes,
    PackClusters srt clusters (mul64 hintSz 125)
    = Ok (colsOf stripes, rowCountsOf stripes)
    ∧ concat stripes ≡ₚ clusters
    ∧ Forall (idsOk clusters (md_Dim metadata)) (colsOf stripes)
    ∧ Forall (λ ids, rowsOf clusters ids ≤ Max (rowCountsOf stripes))
             (colsOf stripes)
    ∧ 0 < Z.of_nat (length (colsOf stripes)) * md_Dim metadata
    ∧ (Max (rowCountsOf stripes) + 1)
      * (Z.of_nat (length (colsOf stripes)) * md_Dim metadata) < 2 ^ 63
    ∧ match pickParams Params P Logq NewParamsFixedP
              (Z.of_nat (length (colsOf stripes)) * md_Dim metadata) precBits
      with
      | Panic e =>
          buildPlaintexts srt Params P Logq NewParamsFixedP metadata clusters
            hintSz precBits = Panic e
      | Ok p =>
          ∃ vals indexMap,
            buildPlaintexts srt Params P Logq NewParamsFixedP metadata
              clusters hintSz precBits
            = Ok (mkPlaintexts (colsOf stripes) (rowCountsOf stripes)
                    (Max (rowCountsOf stripes))
                    (Z.of_nat (length (colsOf stripes)) * md_Dim metadata)
                    p vals indexMap)
            ∧ populated clusters (md_Dim metadata) (colsOf stripes)
                (Max (rowCountsOf stripes))
                (Z.of_nat (length (colsOf stripes)) * md_Dim metadata)
                vals indexMap
      end.
Proof.
  intros [Hne Hdim Hidx Hvec Hsize].
  set (dim := md_Dim metadata) in *.
  set (n := Z.of_nat (length clusters)) in *.
  assert (Hn : 1 ≤ n) by (destruct clusters; [done|]; subst n; simpl; lia).
  assert (Hnn : Forall (λ c, 0 ≤ NumVectors c) clusters).
  { eapply Forall_impl; [exact Hvec|]. by intros c []. }
  pose proof (sumNumVectors_nonneg _ Hnn) as Hsum0.
  assert (Hsum : sumNumVectors clusters < 2 ^ 64) by nia.
  pose proof (sizes_fit_u64 _ Hnn Hsum) as Hu.
  destruct (PackClusters_stripes srt clusters (mul64 hintSz 125)
              Hsrt Hne Hu) as (Hperm & _ & _ & Hexact).
  destruct (Hexact Hsum) as [Heq Hpack]. clear Hexact.
  set (ordered := clustersAt clusters (packingOrder srt clusters)) in *.
  pose proof (firstFitDecreasing64_concat ordered (mul64 hintSz 125)) as Hcat.
  pose proof (firstFitDecreasing64_nonempty ordered (mul64 hintSz 125)) as Hst.
  rewrite Heq in Hcat, Hst.
  set (stripes := firstFitDecreasing ordered (mul64 hintSz 125)) in *.
  assert (Hcatp : concat stripes ≡ₚ clusters) by by rewrite Hcat.
  assert (Hin : ∀ s c, s ∈ stripes → c ∈ s → c ∈ clusters).
  { intros s c Hs Hc. rewrite <- Hcatp. apply elem_of_concat. eauto. }
  assert (Hrows : ∀ s, s ∈ stripes →
            rowsOf clusters (map Index s) = rowCount s).
  { intros s Hs. apply rowsOf_Index. intros c Hc.
    by apply lookup_by_Index, (Hin s). }
  assert (Hlen : length (colsOf stripes) = length stripes)
    by (unfold colsOf; apply length_map).
  assert (Hcols : Z.of_nat (length (colsOf stripes)) ≤ n).
  { rewrite Hlen. subst n. rewrite <- (Permutation_length Hcatp).
    apply inj_le. by apply length_le_concat. }
  assert (Hcols1 : 1 ≤ Z.of_nat (length (colsOf stripes))).
  { rewrite Hlen. destruct stripes; [|simpl; lia].
    apply Permutation_nil_l in Hcatp. done. }
  exists stripes. split; [done|]. split; [done|].
  assert (Hok : Forall (idsOk clusters dim) (colsOf stripes)).
  { apply Forall_forall. intros ids Hids.
    apply list_elem_of_fmap in Hids as (s & -> & Hs).
    apply Forall_forall. intros id Hid.
    apply list_elem_of_fmap in Hid as (c & -> & Hc).
    pose proof (Hin s c Hs Hc) as Hcl.
    destruct (lookup_by_Index clusters c Hidx Hcl) as [H0 Hlk].
    split; [done|]. exists c. split; [done|].
    rewrite Forall_forall in Hvec. by apply Hvec. }
  split; [done|].
  assert (HrowsMax : Forall (λ ids, rowsOf clusters ids
                                    ≤ Max (rowCountsOf stripes))
                       (colsOf stripes)).
  { apply Forall_forall. intros ids Hids.
    apply list_elem_of_fmap in Hids as (s & -> & Hs).
    rewrite (Hrows s Hs). apply Max_ge.
    unfold rowCountsOf. apply list_elem_of_fmap. eauto. }
  split; [done|].
  assert (HMax : 0 ≤ Max (rowCountsOf stripes) ≤ sumNumVectors clusters).
  { split; [apply Max_nonneg|]. apply Max_le; [done|].
    apply Forall_forall. intros x Hx.
    apply list_elem_of_fmap in Hx as (s & -> & Hs).
    rewrite <- (sumNumVectors_perm _ _ Hcatp).
    apply rowCount_le_concat; [by rewrite Hcatp|done]. }
  set (l := Max (rowCountsOf stripes)) in *.
  set (m := Z.of_nat (length (colsOf stripes)) * dim) in *.
  assert (Hm : 0 < m) by (subst m; nia).
  assert (Hbound : (l + 1) * m < 2 ^ 63) by (subst m; nia).
  split; [done|]. split; [done|].
  unfold buildPlaintexts. rewrite Hpack. cbn [mbind result_bind].
  fold dim. rewrite (mul64_small _ dim) by (fold m; nia). fold m l.
  destruct (pickParams Params P Logq NewParamsFixedP m precBits) as [p|e];
    cbn [mbind result_bind]; [|done].
  rewrite (mul64_small l m) by nia.
  unfold makeSlice. destruct (Z.leb_spec (2 ^ 63) (l * m)); [nia|].
  cbn [mbind result_bind].
  destruct (colsLoop_spec dim m l ltac:(lia) ltac:(lia) ltac:(lia) Hbound
              clusters (colsOf stripes)
              (replicate (Z.to_nat (l * m)) 0) ∅ 0)
    as (vals & indexMap & Hrun & Hlenv & Hmap & Hmfr & Heff & Hfr);
    try done.
  { subst m. lia. }
  { rewrite length_replicate. nia. }
  { rewrite concat_colsOf, Hcatp. by apply NoDup_Index. }
  rewrite Hrun. cbn [mbind result_bind].
  exists vals, indexMap. split; [done|].
  rewrite length_replicate in Hlenv.
  split.
  - rewrite Hlenv. nia.
  - intros s k ids id Hs Hk. by rewrite (Hmap s k ids id Hs Hk).
  - intros id Hid. by rewrite Hmfr.
  - intros s k ids id cl i j Hs Hk Hcl Hi Hj.
    by rewrite <- (Heff s k ids id cl i j Hs Hk Hcl Hi Hj).
  - intros x Hx Hout. rewrite Hfr; [|lia|].
    + apply lookup_replicate_2. lia.
    + intros s ids r j Hs Hr Hj. rewrite Z.add_0_l. by eapply Hout.
Qed.

End BuildFacts.

Lemma stripeLoop_panic clusters ids : ∀ c slots m l vals (indexMap : gmap Z Z) r0 p,
  stripeLoop clusters ids c slots m l vals indexMap r0 = Panic p →
  p = IndexOutOfRange ∨ p = RowOverflow ∨ p = KeyShouldNotYetExist.
Proof.
  induction ids as [|id ids IH]; intros c slots m l vals indexMap r0 p; [done|].
  cbn [stripeLoop]. destruct (indexMap !! id); [intros [= <-]; auto|].
  destruct (sliceGet clusters id) as [cl|q] eqn:Hget; cbn [mbind result_bind].
  - destruct (rowLoop (Z.to_nat (NumVectors cl)) vals (Vectors cl) r0 c 0 slots m l)
      as [[vals' r']|q] eqn:Hrow; cbn [mbind result_bind]; [apply IH|].
    intros [= <-]. apply rowLoop_panic in Hrow. tauto.
  - intros [= <-]. left. by eapply sliceGet_panic.
Qed.

Lemma colsLoop_panic clusters cols : ∀ c0 slots m l vals (indexMap : gmap Z Z) p,
  colsLoop clusters cols c0 slots m l vals indexMap = Panic p →
  p = IndexOutOfRange ∨ p = RowOverflow ∨ p = KeyShouldNotYetExist.
Proof.
  induction cols as [|ids cols IH]; intros c0 slots m l vals indexMap p; [done|].
  cbn [colsLoop].
  destruct (stripeLoop clusters ids c0 slots m l vals indexMap 0)
    as [[vals1 indexMap1]|q] eqn:Hs; cbn [mbind result_bind]; [apply IH|].
  intros [= <-]. by eapply stripeLoop_panic.
Qed.

Section BackendFacts.

Variable srt : (Z → Z → bool) → list Z → list Z.
Variable Params : Type.
Variable P : Params → Z.
Variable Logq : Params → Z.
Variable NewParamsFixedP : Z → Z → Z → option Params.
Variable Database : Type.
Variable NewDatabaseFixedParams : Z → Z → list Z → Params → option Database.
Variable Info_L : Database → Z.

Local Abbreviation pick := (pickParams Params P Logq NewParamsFixedP).
Local Abbreviation plain := (buildPlaintexts srt Params P Logq NewParamsFixedP).
Local Abbreviation build :=
  (BuildVectorDatabase srt Params P Logq NewParamsFixedP Database
     NewDatabaseFixedParams Info_L).

Lemma pickParams_panic m precBits e :
  pick m precBits = Panic e → e = NilDereference ∨ e = PickParamsFailure.
Proof.
  unfold pickParams. destruct (NewParamsFixedP _ _ _) as [p|]; [|intros [= <-]; auto].
  destruct (_ || _); intros [= <-]. auto.
Qed.

Lemma pickParams_Ok m precBits p :
  pick m precBits = Ok p ↔
  NewParamsFixedP 64 m 32768 = Some p
  ∧ wrap64 (2 ^ precBits) ≤ P p ∧ Logq p = 64.
Proof.
  unfold pickParams. change (wrap64 (Z.shiftl 1 15)) with 32768.
  rewrite Z.shiftl_1_l.
  destruct (NewParamsFixedP 64 m 32768) as [p'|]; [|split; [done|by intros []]].
  destruct (Z.ltb_spec (P p') (wrap64 (2 ^ precBits)));
    destruct (Z.eqb_spec (Logq p') 64); cbn [orb negb]; split;
    try (intros [= ->]; done);
    try (intros ([= ->] & ? & ?); first [lia | done]).
Qed.

Lemma pickParams_fails m precBits :
  paramFailure (pick m precBits) ↔
  NewParamsFixedP 64 m 32768 = None
  ∨ ∃ p, NewParamsFixedP 64 m 32768 = Some p
         ∧ (P p < wrap64 (2 ^ precBits) ∨ Logq p ≠ 64).
Proof.
  destruct (pick m precBits) as [p|e] eqn:Hpick.
  - apply pickParams_Ok in Hpick as (Hp & HP & HL). split.
    + by intros [|].
    + intros [Hn|(p' & Hp' & Hbad)]; [congruence|].
      assert (p' = p) as -> by congruence. lia.
  - split; [intros _|intros _; destruct (pickParams_panic _ _ _ Hpick) as [->| ->];
                       [by left|by right]].
    destruct (NewParamsFixedP 64 m 32768) as [p|] eqn:Hp; [|by left].
    right. exists p. split; [done|].
    destruct (Z.ltb_spec (P p) (wrap64 (2 ^ precBits))); [by left|].
    destruct (Z.eqb_spec (Logq p) 64); [|by right].
    assert (pick m precBits = Ok p) by (apply pickParams_Ok; done).
    congruence.
Qed.

(** [BuildVectorDatabase] is [buildPlaintexts] followed by the backend. *)
Lemma BuildVectorDatabase_Ok_inv metadata clusters hintSz precBits db indexMap :
  build metadata clusters hintSz precBits = Ok (db, indexMap) →
  ∃ pt, plain metadata clusters hintSz precBits = Ok pt
        ∧ NewDatabaseFixedParams (mul64 (pt_l pt) (pt_m pt)) 15 (pt_vals pt)
            (pt_params pt) = Some db
        ∧ Info_L db = pt_l pt
        ∧ indexMap = pt_indexMap pt.
Proof.
  unfold BuildVectorDatabase.
  destruct (plain metadata clusters hintSz precBits) as [pt|e]; [|done].
  cbn [mbind result_bind].
  destruct (NewDatabaseFixedParams _ _ _ _) as [db'|] eqn:Hdb; [|done].
  destruct (Z.eqb_spec (Info_L db') (pt_l pt)); [|done].
  cbn [negb]. intros [= -> <-]. exists pt. done.
Qed.

Lemma BuildVectorDatabase_panic_inv metadata clusters hintSz precBits e :
  build metadata clusters hintSz precBits = Panic e →
  plain metadata clusters hintSz precBits = Panic e
  ∨ e = BackendPanic ∨ e = InfoLMismatch.
Proof.
  unfold BuildVectorDatabase.
  destruct (plain metadata clusters hintSz precBits) as [pt|e'];
    cbn [mbind result_bind]; [|intros [= <-]; by left].
  destruct (NewDatabaseFixedParams _ _ _ _) as [db'|];
    [|intros [= <-]; right; by left].
  destruct (negb _); [intros [= <-]; right; by right|done].
Qed.

(** After a successful packing, [buildPlaintexts] panics in the parameter
    check or in the population of the matrix. *)
Lemma buildPlaintexts_after_packing metadata clusters hintSz precBits cols colSzs :
  PackClusters srt clusters (mul64 hintSz 125) = Ok (cols, colSzs) →
  match pick (mul64 (Z.of_nat (length cols)) (md_Dim metadata)) precBits with
  | Panic e => plain metadata clusters hintSz precBits = Panic e
  | Ok p =>
      match plain metadata clusters hintSz precBits with
      | Ok pt => pt_params pt = p ∧ pt_cols pt = cols
      | Panic e =>
          e = MakeSliceLenOutOfRange ∨ e = IndexOutOfRange
          ∨ e = RowOverflow ∨ e = KeyShouldNotYetExist
      end
  end.
Proof.
  intros Hpack. unfold buildPlaintexts. rewrite Hpack.
  cbn [mbind result_bind].
  destruct (pick _ precBits) as [p|e]; cbn [mbind result_bind]; [|done].
  unfold makeSlice. destruct (2 ^ 63 <=? _); cbn [mbind result_bind];
    [by left|].
  destruct (colsLoop clusters cols 0 _ _ _ _ ∅) as [[vals im]|e] eqn:Hloop;
    cbn [mbind result_bind]; [done|].
  right. by eapply colsLoop_panic.
Qed.

End BackendFacts.

(** ** Claims on [BuildVectorDatabase] *)

Lemma origin_decode m dim rb s :
  0 < dim → 0 ≤ rb → 0 ≤ s → dim * s + dim ≤ m →
  (cellIndex m dim rb s 0 mod m) / dim = s ∧ cellIndex m dim rb s 0 / m = rb.
Proof.
  intros Hdim Hrb Hs Hm. unfold cellIndex.
  assert (Hmod : (rb * m + dim * s + 0) mod m = dim * s).
  { symmetry. apply (Z.mod_unique _ _ rb); [left; nia|lia]. }
  rewrite Hmod. split.
  - rewrite Z.mul_comm. apply Z.div_mul. lia.
  - symmetry. apply (Z.div_unique _ _ _ (dim * s)); [left; nia|lia].
Qed.

Lemma sample_wf : wfInput sample_metadata sample_clusters.
Proof.
  split.
  - discriminate.
  - reflexivity.
  - intros [|[|k]] c; simpl; intros [= <-]; reflexivity.
  - unfold wfCluster. repeat constructor; simpl; lia.
  - vm_compute. reflexivity.
Qed.

(** C5: on an input of the data model the row-overflow panic of
    [BuildVectorDatabase] never fires, and in every database it builds,
    with [L = max(colRowCounts)] and [M = len(cols) * dim], every cluster
    [c] has an entry in [indexMap] with [(indexMap[c] mod M) / dim] the
    index of the stripe that holds [c] and
    [indexMap[c] / M + NumVectors ≤ L]. *)
Theorem indexMap_consistent srt Params P Logq NewParamsFixedP Database
    NewDatabaseFixedParams Info_L metadata clusters hintSz precBits :
  SortSliceSpec srt →
  wfInput metadata clusters →
  BuildVectorDatabase srt Params P Logq NewParamsFixedP Database
    NewDatabaseFixedParams Info_L metadata clusters hintSz precBits
  ≠ Panic RowOverflow
  ∧ ∀ db (indexMap : gmap Z Z),
      BuildVectorDatabase srt Params P Logq NewParamsFixedP Database
        NewDatabaseFixedParams Info_L metadata clusters hintSz precBits
      = Ok (db, indexMap) →
      ∃ cols colSzs,
        PackClusters srt clusters (mul64 hintSz 125) = Ok (cols, colSzs)
        ∧ Info_L db = Max colSzs
        ∧ ∀ (c : nat) cl, clusters !! c = Some cl →
            ∃ (s : nat) ids off,
              cols !! s = Some ids ∧ Z.of_nat c ∈ ids
              ∧ indexMap !! Z.of_nat c = Some off
              ∧ (off mod (Z.of_nat (length cols) * md_Dim metadata))
                / md_Dim metadata = Z.of_nat s
              ∧ off / (Z.of_nat (length cols) * md_Dim metadata)
                + NumVectors cl ≤ Max colSzs.
Proof.
  intros Hsrt Hwf.
  destruct (buildPlaintexts_run srt Hsrt Params P Logq NewParamsFixedP
              metadata clusters hintSz precBits Hwf)
    as (stripes & Hpack & Hperm & Hok & Hrows & Hm & Hbound & Hrun).
  split.
  - intros Hpanic. apply BuildVectorDatabase_panic_inv in Hpanic
      as [Hplain|[?|?]]; [|done..].
    destruct (pickParams _ _ _ _ _ _) as [p|e] eqn:Hpick.
    + destruct Hrun as (vals & im & Hrun & _). congruence.
    + rewrite Hrun in Hplain. injection Hplain as ->.
      by destruct (pickParams_panic _ _ _ _ _ _ _ Hpick).
  - intros db indexMap Hbuild.
    apply BuildVectorDatabase_Ok_inv in Hbuild as (pt & Hplain & _ & HL & ->).
    destruct (pickParams _ _ _ _ _ _) as [p|e]; [|congruence].
    destruct Hrun as (vals & im & Hrun & Hpop).
    rewrite Hrun in Hplain. injection Hplain as <-. simpl in *.
    exists (colsOf stripes), (rowCountsOf stripes).
    split; [done|]. split; [done|].
    intros c cl Hc.
    assert (Hidx : Index cl = Z.of_nat c) by by eapply wf_index.
    assert (Hin : Z.of_nat c ∈ concat (colsOf stripes)).
    { rewrite concat_colsOf, Hperm, <- Hidx. apply list_elem_of_fmap_2.
      by eapply list_elem_of_lookup_2. }
    apply elem_of_concat in Hin as (ids & Hids & Hcin).
    apply list_elem_of_lookup in Hids as [s Hs].
    apply list_elem_of_lookup in Hcin as [k Hk].
    exists s, ids, (cellIndex (Z.of_nat (length (colsOf stripes)) * md_Dim metadata)
                      (md_Dim metadata) (rowBase clusters ids k) (Z.of_nat s) 0).
    split; [done|]. split; [by eapply list_elem_of_lookup_2|].
    split; [by eapply pop_origin|].
    assert (Hidsok : idsOk clusters (md_Dim metadata) ids).
    { rewrite Forall_forall in Hok. apply Hok. by eapply list_elem_of_lookup_2. }
    destruct (rowsOf_take_le clusters _ ids k _ Hidsok Hk) as [Hrb Hle].
    assert (Hrl : rowsOf clusters ids ≤ Max (rowCountsOf stripes)).
    { rewrite Forall_forall in Hrows. apply Hrows.
      by eapply list_elem_of_lookup_2. }
    apply lookup_lt_Some in Hs.
    pose proof (wf_dim _ _ Hwf) as Hdim.
    destruct (origin_decode (Z.of_nat (length (colsOf stripes)) * md_Dim metadata)
                (md_Dim metadata) (rowBase clusters ids k) (Z.of_nat s))
      as [Hd1 Hd2]; [done|done|lia|nia|].
    rewrite Hd1, Hd2. split; [done|].
    unfold sizeAt in Hle. rewrite Nat2Z.id, Hc in Hle. unfold rowBase. lia.
Qed.

Lemma indexMap_consistent_witness :
  ∃ db (indexMap : gmap Z Z),
    BuildVectorDatabase insertionSort sampleParams sp_P sp_Logq sampleNewParams
      sampleDatabase sampleNewDatabase sd_L sample_metadata sample_clusters 0 5
    = Ok (db, indexMap)
    ∧ ∃ cols colSzs,
        PackClusters insertionSort sample_clusters (mul64 0 125) = Ok (cols, colSzs)
        ∧ sd_L db = Max colSzs
        ∧ ∀ (c : nat) cl, sample_clusters !! c = Some cl →
            ∃ (s : nat) ids off,
              cols !! s = Some ids ∧ Z.of_nat c ∈ ids
              ∧ indexMap !! Z.of_nat c = Some off
              ∧ (off mod (Z.of_nat (length cols) * md_Dim sample_metadata))
                / md_Dim sample_metadata = Z.of_nat s
              ∧ off / (Z.of_nat (length cols) * md_Dim sample_metadata)
                + NumVectors cl ≤ Max colSzs.
Proof.
  destruct (indexMap_consistent insertionSort sampleParams sp_P sp_Logq
              sampleNewParams sampleDatabase sampleNewDatabase sd_L
              sample_metadata sample_clusters 0 5 insertionSort_spec sample_wf)
    as [_ H].
  destruct (BuildVectorDatabase insertionSort sampleParams sp_P sp_Logq
              sampleNewParams sampleDatabase sampleNewDatabase sd_L
              sample_metadata sample_clusters 0 5) as [[db im]|e] eqn:Hb.
  - exists db, im. split; [reflexivity|]. apply H. reflexivity.
  - vm_compute in Hb. discriminate Hb.
Defined.

Lemma uint64_of_int8_value v :
  is_int8 v → uint64_of_int8 v = if decide (0 ≤ v) then v else 2 ^ 64 + v.
Proof.
  unfold is_int8, uint64_of_int8, wrap64. intros Hv.
  destruct (decide (0 ≤ v)).
  - apply Z.mod_small. lia.
  - symmetry. apply (Z.mod_unique _ _ (-1)); [left; lia|lia].
Qed.

(** C1, as the code has it: in the matrix that [BuildVectorDatabase] hands
    to the backend, the cell of lane [j] of vector [i] of the cluster [cid]
    placed at row [rowBase] of stripe [s] holds Go's [uint64(v)] of the
    [int8] component [v]: the sign-extended value modulo [2^64], which is
    [v] when [v] is non-negative and [2^64 + v] when it is negative. *)
Theorem vals_hold_sign_extended_components srt Params P Logq NewParamsFixedP
    Database NewDatabaseFixedParams Info_L metadata clusters hintSz precBits
    db (indexMap : gmap Z Z) :
  SortSliceSpec srt →
  wfInput metadata clusters →
  BuildVectorDatabase srt Params P Logq NewParamsFixedP Database
    NewDatabaseFixedParams Info_L metadata clusters hintSz precBits
  = Ok (db, indexMap) →
  ∃ pt,
    buildPlaintexts srt Params P Logq NewParamsFixedP metadata clusters
      hintSz precBits = Ok pt
    ∧ NewDatabaseFixedParams (mul64 (pt_l pt) (pt_m pt)) 15 (pt_vals pt)
        (pt_params pt) = Some db
    ∧ pt_m pt = Z.of_nat (length (pt_cols pt)) * md_Dim metadata
    ∧ ∀ (s k : nat) ids cid cl i j,
        pt_cols pt !! s = Some ids → ids !! k = Some cid →
        clusters !! Z.to_nat cid = Some cl →
        0 ≤ i < NumVectors cl → 0 ≤ j < md_Dim metadata →
        ∃ v,
          Vectors cl !! Z.to_nat (i * md_Dim metadata + j) = Some v
          ∧ pt_vals pt
            !! Z.to_nat ((rowBase clusters ids k + i) * pt_m pt
                         + Z.of_nat s * md_Dim metadata + j)
            = Some (uint64_of_int8 v)
          ∧ (is_int8 v →
             uint64_of_int8 v = if decide (0 ≤ v) then v else 2 ^ 64 + v).
Proof.
  intros Hsrt Hwf Hbuild.
  apply BuildVectorDatabase_Ok_inv in Hbuild as (pt & Hplain & Hdb & _ & _).
  exists pt. split; [done|]. split; [done|].
  destruct (buildPlaintexts_run srt Hsrt Params P Logq NewParamsFixedP
              metadata clusters hintSz precBits Hwf)
    as (stripes & Hpack & Hperm & Hok & Hrows & Hm & Hbound & Hrun).
  destruct (pickParams _ _ _ _ _ _) as [p|e]; [|congruence].
  destruct Hrun as (vals & im & Hrun & Hpop).
  rewrite Hrun in Hplain. injection Hplain as <-. simpl.
  split; [done|].
  intros s k ids cid cl i j Hs Hk Hcl Hi Hj.
  pose proof (pop_cells _ _ _ _ _ _ _ Hpop s k ids cid cl i j Hs Hk Hcl Hi Hj)
    as Hcell.
  assert (Hwfcl : wfCluster (md_Dim metadata) cl).
  { pose proof (wf_vectors _ _ Hwf) as Hv. rewrite Forall_forall in Hv.
    apply Hv. by eapply list_elem_of_lookup_2. }
  destruct Hwfcl as [_ Hlen].
  destruct (lookup_lt_is_Some_2 (Vectors cl)
              (Z.to_nat (i * md_Dim metadata + j))) as [v Hv]; [nia|].
  exists v. split; [done|]. split; [|apply uint64_of_int8_value].
  rewrite Hv in Hcell. simpl in Hcell. rewrite <- Hcell.
  unfold cellIndex. do 2 f_equal. lia.
Qed.

Lemma vals_hold_sign_extended_components_witness :
  ∃ db (indexMap : gmap Z Z) pt,
    BuildVectorDatabase insertionSort sampleParams sp_P sp_Logq sampleNewParams
      sampleDatabase sampleNewDatabase sd_L sample_metadata sample_clusters 0 5
    = Ok (db, indexMap)
    ∧ buildPlaintexts insertionSort sampleParams sp_P sp_Logq sampleNewParams
        sample_metadata sample_clusters 0 5 = Ok pt
    ∧ ∀ (s k : nat) ids cid cl i j,
        pt_cols pt !! s = Some ids → ids !! k = Some cid →
        sample_clusters !! Z.to_nat cid = Some cl →
        0 ≤ i < NumVectors cl → 0 ≤ j < md_Dim sample_metadata →
        ∃ v,
          Vectors cl !! Z.to_nat (i * md_Dim sample_metadata + j) = Some v
          ∧ pt_vals pt
            !! Z.to_nat ((rowBase sample_clusters ids k + i) * pt_m pt
                         + Z.of_nat s * md_Dim sample_metadata + j)
            = Some (uint64_of_int8 v)
          ∧ (is_int8 v →
             uint64_of_int8 v = if decide (0 ≤ v) then v else 2 ^ 64 + v).
Proof.
  destruct (BuildVectorDatabase insertionSort sampleParams sp_P sp_Logq
              sampleNewParams sampleDatabase sampleNewDatabase sd_L
              sample_metadata sample_clusters 0 5) as [[db im]|e] eqn:Hb.
  - destruct (vals_hold_sign_extended_components insertionSort sampleParams
                sp_P sp_Logq sampleNewParams sampleDatabase sampleNewDatabase
                sd_L sample_metadata sample_clusters 0 5 db im
                insertionSort_spec sample_wf Hb) as (pt & H1 & _ & _ & H2).
    exists db, im, pt. split; [reflexivity|]. split; [exact H1|exact H2].
  - vm_compute in Hb. discriminate Hb.
Defined.

(** C1, as the spec has it, fails: the component [-1] is stored as
    [2^64 - 1], not as the zero-extended [uint8] value 255. *)
Lemma vals_not_zero_extended_uint8 :
  ∃ pt,
    buildPlaintexts insertionSort sampleParams sp_P sp_Logq sampleNewParams
      sample_metadata sample_clusters 900 5 = Ok pt
    ∧ pt_cols pt = [[0; 1]]
    ∧ pt_m pt = 2
    ∧ Vectors <$> sample_clusters !! 0%nat = Some [1; -1; 2; 0]
    ∧ pt_vals pt !! Z.to_nat ((0 + 0) * pt_m pt + 0 * 2 + 1)
      = Some 18446744073709551615
    ∧ uint64_of_uint8_of_int8 (-1) = 255
    ∧ pt_vals pt !! Z.to_nat ((0 + 0) * pt_m pt + 0 * 2 + 1)
      ≠ Some (uint64_of_uint8_of_int8 (-1)).
Proof.
  eexists. split; [vm_compute; reflexivity|]. simpl.
  repeat split; discriminate.
Qed.

(** C8: in the matrix that [BuildVectorDatabase] hands to the backend,
    every slot outside the ranges of the clusters holds 0; in particular
    all rows of a stripe from its row-count up to [L]. *)
Theorem unused_slots_are_zero srt Params P Logq NewParamsFixedP
    Database NewDatabaseFixedParams Info_L metadata clusters hintSz precBits
    db (indexMap : gmap Z Z) :
  SortSliceSpec srt →
  wfInput metadata clusters →
  BuildVectorDatabase srt Params P Logq NewParamsFixedP Database
    NewDatabaseFixedParams Info_L metadata clusters hintSz precBits
  = Ok (db, indexMap) →
  ∃ pt,
    buildPlaintexts srt Params P Logq NewParamsFixedP metadata clusters
      hintSz precBits = Ok pt
    ∧ NewDatabaseFixedParams (mul64 (pt_l pt) (pt_m pt)) 15 (pt_vals pt)
        (pt_params pt) = Some db
    ∧ pt_l pt = Max (pt_colSzs pt)
    ∧ pt_m pt = Z.of_nat (length (pt_cols pt)) * md_Dim metadata
    ∧ Z.of_nat (length (pt_vals pt)) = pt_l pt * pt_m pt
    ∧ (∀ x, 0 ≤ x < pt_l pt * pt_m pt →
         (∀ (s k : nat) ids cid cl i j,
            pt_cols pt !! s = Some ids → ids !! k = Some cid →
            clusters !! Z.to_nat cid = Some cl →
            0 ≤ i < NumVectors cl → 0 ≤ j < md_Dim metadata →
            x ≠ (rowBase clusters ids k + i) * pt_m pt
                + Z.of_nat s * md_Dim metadata + j) →
         pt_vals pt !! Z.to_nat x = Some 0)
    ∧ (∀ (s : nat) ids r j,
         pt_cols pt !! s = Some ids →
         rowsOf clusters ids ≤ r < pt_l pt → 0 ≤ j < md_Dim metadata →
         pt_vals pt !! Z.to_nat (r * pt_m pt + Z.of_nat s * md_Dim metadata + j)
         = Some 0).
Proof.
  intros Hsrt Hwf Hbuild.
  apply BuildVectorDatabase_Ok_inv in Hbuild as (pt & Hplain & Hdb & _ & _).
  exists pt. split; [done|]. split; [done|].
  destruct (buildPlaintexts_run srt Hsrt Params P Logq NewParamsFixedP
              metadata clusters hintSz precBits Hwf)
    as (stripes & Hpack & Hperm & Hok & Hrows & Hm & Hbound & Hrun).
  destruct (pickParams _ _ _ _ _ _) as [p|e]; [|congruence].
  destruct Hrun as (vals & im & Hrun & Hpop).
  rewrite Hrun in Hplain. injection Hplain as <-. simpl.
  pose proof (wf_dim _ _ Hwf) as Hdim.
  set (dim := md_Dim metadata) in *.
  set (m := Z.of_nat (length (colsOf stripes)) * dim) in *.
  set (l := Max (rowCountsOf stripes)) in *.
  split; [done|]. split; [done|]. split; [by eapply pop_length|]. split.
  - intros x Hx Hout. eapply pop_rest; [exact Hpop|done|].
    intros s ids r j Hs Hr Hj Heq.
    assert (Hidsok : idsOk clusters dim ids).
    { rewrite Forall_forall in Hok. apply Hok. by eapply list_elem_of_lookup_2. }
    destruct (rowsOf_cover clusters dim ids r Hidsok Hr)
      as (k & cid & i & Hk & Hi & ->).
    pose proof Hidsok as Hcid. unfold idsOk in Hcid.
    rewrite Forall_forall in Hcid.
    destruct (Hcid cid ltac:(by eapply list_elem_of_lookup_2))
      as (_ & cl & Hcl & _).
    unfold sizeAt in Hi. rewrite Hcl in Hi.
    apply (Hout s k ids cid cl i j Hs Hk Hcl Hi Hj).
    rewrite Heq. unfold cellIndex, rowBase. lia.
  - intros s ids r j Hs Hr Hj.
    assert (Hidsok : idsOk clusters dim ids).
    { rewrite Forall_forall in Hok. apply Hok. by eapply list_elem_of_lookup_2. }
    pose proof (rowsOf_nonneg dim clusters ids Hidsok) as Hnn.
    pose proof (lookup_lt_Some _ _ _ Hs) as Hslt.
    replace (r * m + Z.of_nat s * dim + j) with (cellIndex m dim r (Z.of_nat s) j)
      by (unfold cellIndex; lia).
    eapply pop_rest; [exact Hpop|unfold cellIndex; subst m; nia|].
    intros s' ids' r' j' Hs' Hr' Hj' Heq.
    pose proof (lookup_lt_Some _ _ _ Hs') as Hslt'.
    unfold cellIndex in Heq.
    apply cell_inj in Heq as (-> & Hss & _); try done; try (subst m; nia).
    apply Nat2Z.inj in Hss as ->.
    rewrite Hs in Hs'. injection Hs' as <-. lia.
Qed.

Lemma unused_slots_are_zero_witness :
  ∃ db (indexMap : gmap Z Z) pt,
    BuildVectorDatabase insertionSort sampleParams sp_P sp_Logq sampleNewParams
      sampleDatabase sampleNewDatabase sd_L sample_metadata sample_clusters 0 5
    = Ok (db, indexMap)
    ∧ buildPlaintexts insertionSort sampleParams sp_P sp_Logq sampleNewParams
        sample_metadata sample_clusters 0 5 = Ok pt
    ∧ pt_cols pt = [[0]; [1]]
    ∧ pt_vals pt !! Z.to_nat (1 * pt_m pt + Z.of_nat 1 * md_Dim sample_metadata + 0)
      = Some 0.
Proof.
  destruct (BuildVectorDatabase insertionSort sampleParams sp_P sp_Logq
              sampleNewParams sampleDatabase sampleNewDatabase sd_L
              sample_metadata sample_clusters 0 5) as [[db im]|e] eqn:Hb.
  - destruct (unused_slots_are_zero insertionSort sampleParams
                sp_P sp_Logq sampleNewParams sampleDatabase sampleNewDatabase
                sd_L sample_metadata sample_clusters 0 5 db im
                insertionSort_spec sample_wf Hb)
      as (pt & H1 & _ & Hl & _ & _ & _ & H2).
    exists db, im, pt. split; [reflexivity|]. split; [exact H1|].
    assert (Hcols : match buildPlaintexts insertionSort sampleParams sp_P
                            sp_Logq sampleNewParams sample_metadata
                            sample_clusters 0 5 with
                    | Ok pt' => pt_cols pt' = [[0]; [1]] ∧ pt_l pt' = 2
                    | Panic _ => False
                    end) by (vm_compute; split; reflexivity).
    rewrite H1 in Hcols. destruct Hcols as [Hcols Hl2].
    split; [exact Hcols|].
    apply (H2 1%nat [1]).
    + rewrite Hcols. reflexivity.
    + rewrite Hl2. vm_compute. split; [discriminate|reflexivity].
    + vm_compute. split; [discriminate|reflexivity].
  - vm_compute in Hb. discriminate Hb.
Defined.

Lemma NoDup_concat_unique {A} (ls : list (list A)) :
  NoDup (concat ls) →
  ∀ (s s' k k' : nat) a a' x,
    ls !! s = Some a → a !! k = Some x →
    ls !! s' = Some a' → a' !! k' = Some x →
    s = s' ∧ k = k'.
Proof.
  induction ls as [|l ls IH]; intros Hnd s s' k k' a a' x Hs Hk Hs' Hk';
    [by rewrite lookup_nil in Hs|].
  cbn [concat] in Hnd. apply NoDup_app in Hnd as (Hl & Hdisj & Hls).
  destruct s as [|s], s' as [|s']; simpl in Hs, Hs'.
  - injection Hs as <-. injection Hs' as <-. split; [done|].
    exact (NoDup_lookup _ _ _ _ Hl Hk Hk').
  - injection Hs as <-. exfalso. apply (Hdisj x).
    + by eapply list_elem_of_lookup_2.
    + apply elem_of_concat. exists a'.
      split; by eapply list_elem_of_lookup_2.
  - injection Hs' as <-. exfalso. apply (Hdisj x).
    + by eapply list_elem_of_lookup_2.
    + apply elem_of_concat. exists a.
      split; by eapply list_elem_of_lookup_2.
  - destruct (IH Hls s s' k k' a a' x Hs Hk Hs' Hk') as [-> ->]. done.
Qed.

Lemma buildPlaintexts_no_duplicate_key srt Params P Logq NewParamsFixedP
    metadata clusters hintSz precBits :
  SortSliceSpec srt →
  Forall (λ c, is_u64 (NumVectors c)) clusters →
  NoDup (map Index clusters) →
  buildPlaintexts srt Params P Logq NewParamsFixedP metadata clusters
    hintSz precBits ≠ Panic KeyShouldNotYetExist.
Proof.
  intros Hsrt Hu Hnd. destruct (decide (clusters = [])) as [->|Hne]; [done|].
  pose proof (PackClusters_stripes64 srt Hsrt clusters (mul64 hintSz 125) Hne Hu)
    as Hpack. cbv zeta in Hpack.
  set (stripes := firstFitDecreasing64 _ _) in Hpack.
  assert (Hcols : NoDup (concat (colsOf stripes))).
  { rewrite concat_colsOf. subst stripes.
    rewrite firstFitDecreasing64_concat, clustersAt_packingOrder; done. }
  unfold buildPlaintexts. rewrite Hpack. cbn [mbind result_bind].
  destruct (pickParams _ _ _ _ _ _) as [p|e] eqn:Hpick; cbn [mbind result_bind].
  - unfold makeSlice. destruct (2 ^ 63 <=? _); cbn [mbind result_bind]; [done|].
    match goal with
    | |- context [colsLoop ?cl ?cols ?c0 ?sl ?m ?l ?vals ∅] =>
        pose proof (colsLoop_no_duplicate cl cols c0 sl m l vals ∅ Hcols
                      (λ id _, lookup_empty id)) as Hloop;
        destruct (colsLoop cl cols c0 sl m l vals ∅) as [[vals' im]|e]
    end; cbn [mbind result_bind]; [done|].
    intros [= ->]. by destruct Hloop.
  - intros [= ->]. by destruct (pickParams_panic _ _ _ _ _ _ _ Hpick).
Qed.

(** C4: for a non-empty cluster list with distinct cluster ids, every
    cluster id is in exactly one stripe of the [cols] that [PackClusters]
    returns, exactly once, and the panic "Key should not yet exist" of
    [BuildVectorDatabase] is unreachable. *)
Theorem every_cluster_in_one_stripe srt clusters cap :
  SortSliceSpec srt →
  clusters ≠ [] →
  Forall (λ c, is_u64 (NumVectors c)) clusters →
  NoDup (map Index clusters) →
  (∃ cols colSzs,
     PackClusters srt clusters cap = Ok (cols, colSzs)
     ∧ concat cols ≡ₚ map Index clusters
     ∧ NoDup (concat cols)
     ∧ ∀ c, c ∈ clusters →
         ∃ (s k : nat) ids,
           cols !! s = Some ids ∧ ids !! k = Some (Index c)
           ∧ ∀ (s' k' : nat) ids',
               cols !! s' = Some ids' → ids' !! k' = Some (Index c) →
               s' = s ∧ k' = k)
  ∧ ∀ Params P Logq NewParamsFixedP Database NewDatabaseFixedParams Info_L
      metadata hintSz precBits,
      BuildVectorDatabase srt Params P Logq NewParamsFixedP Database
        NewDatabaseFixedParams Info_L metadata clusters hintSz precBits
      ≠ Panic KeyShouldNotYetExist.
Proof.
  intros Hsrt Hne Hu Hnd. split.
  - pose proof (PackClusters_stripes64 srt Hsrt clusters cap Hne Hu) as Hpack.
    cbv zeta in Hpack. set (stripes := firstFitDecreasing64 _ _) in Hpack.
    assert (Hperm : concat (colsOf stripes) ≡ₚ map Index clusters).
    { rewrite concat_colsOf. subst stripes.
      rewrite firstFitDecreasing64_concat, clustersAt_packingOrder; done. }
    assert (Hcols : NoDup (concat (colsOf stripes))) by by rewrite Hperm.
    exists (colsOf stripes), (rowCounts64Of stripes).
    split; [done|]. split; [done|]. split; [done|].
    intros c Hc.
    assert (Hin : Index c ∈ concat (colsOf stripes)).
    { rewrite Hperm. by apply list_elem_of_fmap_2. }
    apply elem_of_concat in Hin as (ids & Hids & Hcin).
    apply list_elem_of_lookup in Hids as [s Hs].
    apply list_elem_of_lookup in Hcin as [k Hk].
    exists s, k, ids. split; [done|]. split; [done|].
    intros s' k' ids' Hs' Hk'.
    by eapply (NoDup_concat_unique _ Hcols s' s k' k).
  - intros Params P Logq NewParamsFixedP Database NewDatabaseFixedParams Info_L
      metadata hintSz precBits Hpanic.
    apply BuildVectorDatabase_panic_inv in Hpanic as [Hplain|[?|?]]; [|done..].
    by eapply buildPlaintexts_no_duplicate_key.
Qed.

Lemma every_cluster_in_one_stripe_witness :
  (∃ cols colSzs,
     PackClusters insertionSort s3_clusters 12 = Ok (cols, colSzs)
     ∧ concat cols ≡ₚ map Index s3_clusters
     ∧ NoDup (concat cols)
     ∧ ∀ c, c ∈ s3_clusters →
         ∃ (s k : nat) ids,
           cols !! s = Some ids ∧ ids !! k = Some (Index c)
           ∧ ∀ (s' k' : nat) ids',
               cols !! s' = Some ids' → ids' !! k' = Some (Index c) →
               s' = s ∧ k' = k)
  ∧ BuildVectorDatabase insertionSort sampleParams sp_P sp_Logq sampleNewParams
      sampleDatabase sampleNewDatabase sd_L sample_metadata s3_clusters 900 5
    ≠ Panic KeyShouldNotYetExist.
Proof.
  destruct (every_cluster_in_one_stripe insertionSort s3_clusters 12) as [H1 H2].
  - exact insertionSort_spec.
  - discriminate.
  - unfold s3_clusters, is_u64. repeat constructor; simpl; lia.
  - apply (bool_decide_unpack _). vm_compute. exact I.
  - split; [exact H1|apply H2].
Defined.

(** The parameter check as the code has it (for [precBits] below 64 this is
    what C6 says of it): after a successful packing, the parameter
    check makes [BuildVectorDatabase] fail exactly when the backend returns
    no parameters, or its [P] is below [2^precBits] taken as a [uint64], or
    its [Logq] is not 64; otherwise the returned parameters are the ones
    handed on, unchanged, and on an input of the data model the matrix is
    built. *)
Theorem parameter_check srt Params P Logq NewParamsFixedP Database
    NewDatabaseFixedParams Info_L metadata clusters hintSz precBits cols colSzs :
  PackClusters srt clusters (mul64 hintSz 125) = Ok (cols, colSzs) →
  let m := mul64 (Z.of_nat (length cols)) (md_Dim metadata) in
  (paramFailure
     (BuildVectorDatabase srt Params P Logq NewParamsFixedP Database
        NewDatabaseFixedParams Info_L metadata clusters hintSz precBits)
   ↔ NewParamsFixedP 64 m 32768 = None
     ∨ ∃ p, NewParamsFixedP 64 m 32768 = Some p
            ∧ (P p < wrap64 (2 ^ precBits) ∨ Logq p ≠ 64))
  ∧ (0 ≤ precBits < 64 → wrap64 (2 ^ precBits) = 2 ^ precBits)
  ∧ ∀ p, NewParamsFixedP 64 m 32768 = Some p →
      wrap64 (2 ^ precBits) ≤ P p → Logq p = 64 →
      (∀ pt, buildPlaintexts srt Params P Logq NewParamsFixedP metadata
               clusters hintSz precBits = Ok pt → pt_params pt = p)
      ∧ (SortSliceSpec srt → wfInput metadata clusters →
         is_Ok (buildPlaintexts srt Params P Logq NewParamsFixedP metadata
                  clusters hintSz precBits)).
Proof.
  intros Hpack m.
  pose proof (buildPlaintexts_after_packing srt Params P Logq NewParamsFixedP
                metadata clusters hintSz precBits cols colSzs Hpack) as Hafter.
  fold m in Hafter. split; [|split].
  - rewrite <- pickParams_fails. split.
    + intros [Hb|Hb];
        apply BuildVectorDatabase_panic_inv in Hb as [Hplain|[?|?]];
        try done;
        (destruct (pickParams _ _ _ _ m precBits) as [p|e];
         [rewrite Hplain in Hafter; by destruct Hafter as [?|[?|[?|?]]]|]);
        rewrite Hafter in Hplain; injection Hplain as ->;
        [by left|by right].
    + intros Hfail.
      assert (∃ e, pickParams Params P Logq NewParamsFixedP m precBits = Panic e
                   ∧ (e = NilDereference ∨ e = PickParamsFailure))
        as (e & He & Hkind).
      { destruct Hfail as [H|H]; rewrite H; eauto. }
      rewrite He in Hafter. unfold BuildVectorDatabase. rewrite Hafter.
      destruct Hkind as [-> | ->]; [by left|by right].
  - intros Hprec. apply wrap64_small. split; [lia|].
    apply Z.pow_lt_mono_r; lia.
  - intros p Hp HP HL.
    assert (Hpick : pickParams Params P Logq NewParamsFixedP m precBits = Ok p)
      by by apply pickParams_Ok.
    rewrite Hpick in Hafter. split.
    + intros pt Hpt. rewrite Hpt in Hafter. by destruct Hafter.
    + intros Hsrt Hwf.
      destruct (buildPlaintexts_run srt Hsrt Params P Logq NewParamsFixedP
                  metadata clusters hintSz precBits Hwf)
        as (stripes & Hpack' & _ & _ & _ & Hm & Hbound & Hrun).
      rewrite Hpack in Hpack'. injection Hpack' as -> ->.
      assert (Hmeq : m = Z.of_nat (length (colsOf stripes)) * md_Dim metadata).
      { subst m. apply mul64_small; [lia| |].
        - pose proof (wf_dim _ _ Hwf). lia.
        - pose proof (Max_nonneg (rowCountsOf stripes)). nia. }
      rewrite <- Hmeq, Hpick in Hrun.
      destruct Hrun as (vals & im & Hrun & _). eexists. exact Hrun.
Qed.

Lemma parameter_check_witness :
  PackClusters insertionSort sample_clusters (mul64 900 125) = Ok ([[0; 1]], [3])
  ∧ ¬ paramFailure
        (BuildVectorDatabase insertionSort sampleParams sp_P sp_Logq
           sampleNewParams sampleDatabase sampleNewDatabase sd_L
           sample_metadata sample_clusters 900 5)
  ∧ paramFailure
      (BuildVectorDatabase insertionSort sampleParams sp_P sp_Logq
         sampleNewParams sampleDatabase sampleNewDatabase sd_L
         sample_metadata sample_clusters 900 20).
Proof.
  assert (Hpack : PackClusters insertionSort sample_clusters (mul64 900 125)
                  = Ok ([[0; 1]], [3])) by (vm_compute; reflexivity).
  split; [exact Hpack|]. split.
  - destruct (parameter_check insertionSort sampleParams sp_P sp_Logq
                sampleNewParams sampleDatabase sampleNewDatabase sd_L
                sample_metadata sample_clusters 900 5 _ _ Hpack)
      as (Hiff & _ & _).
    intros Hfail. apply Hiff in Hfail as [Hn|(p & Hp & Hbad)].
    + discriminate Hn.
    + injection Hp as <-. vm_compute in Hbad.
      destruct Hbad as [Hbad|Hbad]; [discriminate Hbad|by apply Hbad].
  - destruct (parameter_check insertionSort sampleParams sp_P sp_Logq
                sampleNewParams sampleDatabase sampleNewDatabase sd_L
                sample_metadata sample_clusters 900 20 _ _ Hpack)
      as (Hiff & _ & _).
    apply Hiff. right. eexists. split; [reflexivity|].
    left. vm_compute. reflexivity.
Defined.

(** C6 at the failing input [precBits = 64]: the code computes the bound of
    the check as [uint64(1 << precBits)], which is 0 from 64 bits on, so the
    check of [P] rejects nothing.  With the backend's parameters of
    [P = 32768 < 2^64] and [Logq = 64] the parameter check passes and the
    database is built, where the claim has [BuildVectorDatabase] fail. *)
Theorem parameter_check_precBits_64 :
  wrap64 (Z.shiftl 1 64) = 0
  ∧ PackClusters insertionSort sample_clusters (mul64 900 125)
    = Ok ([[0; 1]], [3])
  ∧ (∃ p, sampleNewParams 64 (mul64 1 2) 32768 = Some p
          ∧ sp_P p = 32768 ∧ sp_P p < 2 ^ 64 ∧ sp_Logq p = 64
          ∧ pickParams sampleParams sp_P sp_Logq sampleNewParams (mul64 1 2) 64
            = Ok p)
  ∧ is_Ok (BuildVectorDatabase insertionSort sampleParams sp_P sp_Logq
             sampleNewParams sampleDatabase sampleNewDatabase sd_L
             sample_metadata sample_clusters 900 64).
Proof.
  split; [reflexivity|]. split; [vm_compute; reflexivity|]. split.
  - eexists. split; [reflexivity|]. simpl. repeat split; lia.
  - eexists. vm_compute. reflexivity.
Qed.

(** ** Claims on [writeResults] *)

Lemma lineLoop_panic fuel : ∀ i scores line p,
  lineLoop fuel i scores line = Panic p → p = IndexOutOfRange.
Proof.
  induction fuel as [|fuel IH]; intros i scores line p; [done|].
  cbn [lineLoop].
  destruct (sliceGet scores i) as [s|q] eqn:Hget; cbn [mbind result_bind];
    [|intros [= <-]; by eapply sliceGet_panic].
  destruct (sliceSet line (wrapInt (i * 2)) _) as [line1|q] eqn:Hset1;
    cbn [mbind result_bind]; [|intros [= <-]; by eapply sliceSet_panic].
  destruct (sliceSet line1 (wrapInt (wrapInt (i * 2) + 1)) _) as [line2|q] eqn:Hset2;
    cbn [mbind result_bind]; [|intros [= <-]; by eapply sliceSet_panic].
  apply IH.
Qed.

Example writeResults_two_scores :
  writeResults (mkWriter [] false) (mkWriter [] false)
    [mkVectorScore 0 1 4; mkVectorScore 0 0 2] 10 ["0.5"%string]
  = (Ok (), (mkWriter [["0"; "1"; "0"; "0"]%string] false,
             mkWriter [["0.5"%string]] false)).
Proof. reflexivity. Qed.

(** C9: [writeResults] panics with "No scores to write" exactly when the
    score list is empty, and it has then written nothing to either
    writer. *)
Theorem writeResults_fails_on_empty_scores writer perfWriter scores k perfLine :
  ((writeResults writer perfWriter scores k perfLine).1 = Panic NoScoresToWrite
   ↔ scores = [])
  ∧ (scores = [] →
     (writeResults writer perfWriter scores k perfLine).2 = (writer, perfWriter)).
Proof.
  unfold writeResults. destruct scores as [|s scores].
  { simpl. done. }
  destruct (Z.eqb_spec (Z.of_nat (length (s :: scores))) 0) as [H0|_].
  { simpl in H0. lia. }
  split; [|done]. split; [|done].
  set (numRes := if _ <? k then _ else k).
  destruct (makeLine (wrapInt (numRes * 2))) as [line|q] eqn:Hmake;
    cbn [mbind result_bind].
  - destruct (lineLoop (Z.to_nat numRes) 0 (s :: scores) line) as [line'|q] eqn:Hloop.
    + destruct (csvWrite writer line'); [|done].
      destruct (csvWrite perfWriter perfLine); done.
    + simpl. intros [= ->]. by apply lineLoop_panic in Hloop.
  - simpl. intros [= ->]. unfold makeLine in Hmake.
    destruct (_ <? 0); done.
Qed.

Lemma writeResults_fails_on_empty_scores_witness :
  (writeResults (mkWriter [] false) (mkWriter [] false) [] 10 []).1
  = Panic NoScoresToWrite
  ∧ (writeResults (mkWriter [] false) (mkWriter [] false) [] 10 []).2
    = (mkWriter [] false, mkWriter [] false).
Proof.
  destruct (writeResults_fails_on_empty_scores (mkWriter [] false)
              (mkWriter [] false) [] 10 []) as [[_ H1] H2].
  split; [apply H1; reflexivity|apply H2; reflexivity].
Defined.

(** * Further properties of the code *)

(** ** [PackClusters]: shape and quality of the layout *)

Lemma largestSize_ge clusters c : c ∈ clusters → NumVectors c ≤ largestSize clusters.
Proof. unfold largestSize. induction 1; simpl; lia. Qed.

Lemma largestSize_head c0 rest :
  0 ≤ NumVectors c0 →
  Forall (λ c, NumVectors c ≤ NumVectors c0) rest →
  largestSize (c0 :: rest) = NumVectors c0.
Proof.
  intros H0 Hall. unfold largestSize. simpl.
  assert (foldr (λ c acc, Z.max (NumVectors c) acc) 0 rest ≤ NumVectors c0); [|lia].
  induction Hall; simpl; lia.
Qed.

Lemma largestSize_perm a b : a ≡ₚ b → largestSize a = largestSize b.
Proof. unfold largestSize. induction 1; simpl; lia. Qed.

(** The stripes of [PackClusters] with what is known about their order. *)
Lemma PackClusters_ordered_stripes srt clusters cap :
  SortSliceSpec srt →
  clusters ≠ [] →
  Forall (λ c, is_u64 (NumVectors c)) clusters →
  ∃ c0 rest stripes,
    clustersAt clusters (packingOrder srt clusters) = c0 :: rest
    ∧ c0 :: rest ≡ₚ clusters
    ∧ StronglySorted (λ a b, NumVectors b ≤ NumVectors a) (c0 :: rest)
    ∧ raiseCap cap c0 = effectiveCap clusters cap
    ∧ stripes
      = foldl (λ st c, placeFirst (fitsBelow64 (effectiveCap clusters cap) c) c st)
          [[c0]] rest
    ∧ PackClusters srt clusters cap
      = Ok (colsOf stripes, rowCounts64Of stripes).
Proof.
  intros Hsrt Hne Hu.
  destruct (PackClusters_stripes srt clusters cap Hsrt Hne Hu)
    as (Hperm & Hsorted & Hpack & _).
  destruct (clustersAt clusters (packingOrder srt clusters)) as [|c0 rest] eqn:Ho.
  { apply Permutation_nil_l in Hperm. done. }
  assert (Hcap : raiseCap cap c0 = effectiveCap clusters cap); last first.
  { exists c0, rest, (firstFitDecreasing64 (c0 :: rest) cap).
    split; [done|]. split; [done|]. split; [done|]. split; [done|].
    split; [|done]. unfold firstFitDecreasing64. by rewrite Hcap. }
  unfold raiseCap, effectiveCap.
  rewrite <- (largestSize_perm _ _ Hperm), largestSize_head.
  - destruct (Z.ltb_spec cap (NumVectors c0)); lia.
  - assert (c0 ∈ clusters) as Hc0 by (rewrite <- Hperm; left).
    rewrite Forall_forall in Hu. by destruct (Hu c0 Hc0).
  - by apply StronglySorted_cons in Hsorted as [? _].
Qed.

Lemma foldl_placeFirst_nonempty (fits : Cluster → list Cluster → bool) rest :
  ∀ stripes, Forall (λ s, s ≠ []) stripes →
    Forall (λ s, s ≠ [])
      (foldl (λ st c, placeFirst (fits c) c st) stripes rest).
Proof.
  induction rest as [|c rest IH]; intros stripes Hst; [done|].
  cbn [foldl]. apply IH. by apply placeFirst_nonempty.
Qed.

(** X1: the layout of [PackClusters] has as many row-counts as stripes, at
    least one stripe and at most one per cluster, and no stripe is empty. *)
Theorem PackClusters_layout_shape srt clusters cap cols colSzs :
  SortSliceSpec srt →
  Forall (λ c, is_u64 (NumVectors c)) clusters →
  PackClusters srt clusters cap = Ok (cols, colSzs) →
  length cols = length colSzs
  ∧ (1 ≤ length cols ≤ length clusters)%nat
  ∧ Forall (λ ids, ids ≠ []) cols.
Proof.
  intros Hsrt Hu Hpack.
  destruct (decide (clusters = [])) as [->|Hne]; [done|].
  destruct (PackClusters_ordered_stripes srt clusters cap Hsrt Hne Hu)
    as (c0 & rest & stripes & _ & Hperm & _ & _ & Hst & Hrun).
  rewrite Hrun in Hpack. injection Hpack as <- <-.
  assert (Hcat : concat stripes ≡ₚ c0 :: rest).
  { rewrite Hst, foldl_placeFirst_concat. done. }
  assert (Hne' : Forall (λ s : list Cluster, s ≠ []) stripes).
  { rewrite Hst. apply foldl_placeFirst_nonempty. by repeat constructor. }
  clear Hst. rename Hne' into Hst.
  unfold colsOf, rowCounts64Of. rewrite !length_map.
  split; [done|]. split.
  - split.
    + destruct stripes as [|s stripes]; [|simpl; lia].
      apply Permutation_nil_l in Hcat. done.
    + rewrite <- (Permutation_length Hperm), <- (Permutation_length Hcat).
      by apply length_le_concat.
  - apply Forall_forall. intros ids Hids.
    apply list_elem_of_fmap in Hids as (s & -> & Hs).
    rewrite Forall_forall in Hst. specialize (Hst s Hs). by destruct s.
Qed.

Lemma PackClusters_layout_shape_witness :
  length ([[0]; [1]; [2; 3]; [4]] : list (list Z)) = length [10; 9; 10; 5]
  ∧ (1 ≤ length ([[0]; [1]; [2; 3]; [4]]%Z : list (list Z))
     ≤ length s3_clusters)%nat
  ∧ Forall (λ ids : list Z, ids ≠ []) [[0]; [1]; [2; 3]; [4]].
Proof.
  apply (PackClusters_layout_shape insertionSort s3_clusters 12).
  - exact insertionSort_spec.
  - unfold s3_clusters, is_u64. repeat constructor; simpl; lia.
  - vm_compute. reflexivity.
Defined.

Lemma placeFirst_withinCap cap c stripes :
  is_u64 (NumVectors c) → NumVectors c ≤ cap →
  Forall (withinCap cap) stripes →
  Forall (withinCap cap) (placeFirst (fitsBelow64 cap c) c stripes).
Proof.
  intros Hc Hle. induction 1 as [|s stripes Hs Hall IH]; simpl.
  - constructor; [|constructor]. unfold withinCap, rowCount, sumNumVectors.
    simpl. rewrite Z.add_0_r, wrap64_small by done. split; lia.
  - destruct (fitsBelow64 cap c s) eqn:Hfit; constructor; try done.
    unfold fitsBelow64 in Hfit. apply Z.ltb_lt in Hfit.
    unfold withinCap. rewrite rowCount_snoc. split; lia.
Qed.

Lemma foldl_placeFirst_withinCap cap rest : ∀ stripes,
  Forall (λ c, is_u64 (NumVectors c) ∧ NumVectors c ≤ cap) rest →
  Forall (withinCap cap) stripes →
  Forall (withinCap cap)
    (foldl (λ st c, placeFirst (fitsBelow64 cap c) c st) stripes rest).
Proof.
  induction rest as [|c rest IH]; intros stripes Hrest Hst; [done|].
  apply Forall_cons in Hrest as [[Hc Hle] Hrest]. cbn [foldl].
  apply IH; [done|]. by apply placeFirst_withinCap.
Qed.

(** X2: no row-count that [PackClusters] returns exceeds the effective
    capacity, the larger of [maxCapacity] and the largest cluster; a stripe
    that holds more than one cluster stays strictly below it. *)
Theorem PackClusters_row_counts_within_capacity srt clusters cap cols colSzs :
  SortSliceSpec srt →
  Forall (λ c, is_u64 (NumVectors c)) clusters →
  PackClusters srt clusters cap = Ok (cols, colSzs) →
  ∀ (j : nat) ids sz, cols !! j = Some ids → colSzs !! j = Some sz →
    sz ≤ effectiveCap clusters cap
    ∧ ((1 < length ids)%nat → sz < effectiveCap clusters cap).
Proof.
  intros Hsrt Hu Hpack j ids sz Hids Hsz.
  destruct (decide (clusters = [])) as [->|Hne]; [done|].
  destruct (PackClusters_ordered_stripes srt clusters cap Hsrt Hne Hu)
    as (c0 & rest & stripes & _ & Hperm & Hsorted & Hcap & Hst & Hrun).
  rewrite Hrun in Hpack. injection Hpack as <- <-.
  assert (Hu' : Forall (λ c, is_u64 (NumVectors c)) (c0 :: rest))
    by by rewrite Hperm.
  apply Forall_cons in Hu' as [Hu0 Hurest].
  apply StronglySorted_cons in Hsorted as [Hmax _].
  assert (Hc0 : NumVectors c0 ≤ effectiveCap clusters cap).
  { rewrite <- Hcap. unfold raiseCap.
    destruct (Z.ltb_spec cap (NumVectors c0)); lia. }
  assert (Hall : Forall (withinCap (effectiveCap clusters cap)) stripes).
  { rewrite Hst. apply foldl_placeFirst_withinCap.
    - apply Forall_forall. intros c Hc. rewrite Forall_forall in Hurest, Hmax.
      split; [by apply Hurest|]. specialize (Hmax c Hc). lia.
    - constructor; [|constructor]. unfold withinCap, rowCount, sumNumVectors.
      simpl. rewrite Z.add_0_r, wrap64_small by done. split; lia. }
  clear Hst. unfold colsOf in Hids. unfold rowCounts64Of in Hsz.
  rewrite list_lookup_fmap in Hids. rewrite list_lookup_fmap in Hsz.
  destruct (stripes !! j) as [s|] eqn:Hs; [|done].
  simpl in Hids, Hsz. injection Hids as <-. injection Hsz as <-.
  rewrite Forall_forall in Hall.
  destruct (Hall s ltac:(by eapply list_elem_of_lookup_2)) as [H1 H2].
  split; [done|]. rewrite length_map. exact H2.
Qed.

Lemma PackClusters_row_counts_within_capacity_witness :
  10 ≤ effectiveCap s3_clusters 12
  ∧ ((1 < length ([2; 3]%Z : list Z))%nat → 10 < effectiveCap s3_clusters 12).
Proof.
  apply (PackClusters_row_counts_within_capacity insertionSort s3_clusters 12
           [[0]; [1]; [2; 3]; [4]] [10; 9; 10; 5]) with (j := 2%nat).
  - exact insertionSort_spec.
  - unfold s3_clusters, is_u64. repeat constructor; simpl; lia.
  - vm_compute. reflexivity.
  - reflexivity.
  - reflexivity.
Defined.

Lemma placeFirst_descending (f : list Cluster → bool) c stripes :
  Forall (StronglySorted (λ a b, NumVectors b ≤ NumVectors a)) stripes →
  Forall (λ a, NumVectors c ≤ NumVectors a) (concat stripes) →
  Forall (StronglySorted (λ a b, NumVectors b ≤ NumVectors a))
    (placeFirst f c stripes).
Proof.
  induction 1 as [|s stripes Hs Hall IH]; intros Hge; simpl.
  - repeat constructor.
  - simpl in Hge. apply Forall_app in Hge as [Hge1 Hge2].
    destruct (f s); constructor; auto.
    apply StronglySorted_app_2; [|done|repeat constructor].
    intros a b Ha Hb. apply list_elem_of_singleton in Hb as ->.
    rewrite Forall_forall in Hge1. by apply Hge1.
Qed.

Lemma foldl_placeFirst_descending (fits : Cluster → list Cluster → bool) rest :
  ∀ stripes,
    StronglySorted (λ a b, NumVectors b ≤ NumVectors a) rest →
    Forall (StronglySorted (λ a b, NumVectors b ≤ NumVectors a)) stripes →
    Forall (λ a, Forall (λ c, NumVectors c ≤ NumVectors a) rest) (concat stripes) →
    Forall (StronglySorted (λ a b, NumVectors b ≤ NumVectors a))
      (foldl (λ st c, placeFirst (fits c) c st) stripes rest).
Proof.
  induction rest as [|c rest IH]; intros stripes Hrest Hst Hge; [done|].
  apply StronglySorted_cons in Hrest as [Hc Hrest]. cbn [foldl].
  apply IH; [done| |].
  - apply placeFirst_descending; [done|].
    eapply Forall_impl; [exact Hge|]. by intros a [Ha _]%Forall_cons.
  - rewrite placeFirst_concat. constructor; [done|].
    eapply Forall_impl; [exact Hge|]. by intros a [_ Ha]%Forall_cons.
Qed.

(** X3: inside every stripe that [PackClusters] builds the clusters stand
    in non-increasing order of size. *)
Theorem PackClusters_stripes_descending srt clusters cap :
  SortSliceSpec srt →
  clusters ≠ [] →
  Forall (λ c, is_u64 (NumVectors c)) clusters →
  ∃ stripes,
    PackClusters srt clusters cap = Ok (colsOf stripes, rowCounts64Of stripes)
    ∧ concat stripes ≡ₚ clusters
    ∧ Forall (StronglySorted (λ a b, NumVectors b ≤ NumVectors a)) stripes.
Proof.
  intros Hsrt Hne Hu.
  destruct (PackClusters_ordered_stripes srt clusters cap Hsrt Hne Hu)
    as (c0 & rest & stripes & _ & Hperm & Hsorted & _ & Hst & Hrun).
  exists stripes. split; [done|]. split.
  { rewrite Hst, foldl_placeFirst_concat. done. }
  rewrite Hst. apply StronglySorted_cons in Hsorted as [Hmax Hsorted].
  apply foldl_placeFirst_descending; [done|by repeat constructor|].
  simpl. by repeat constructor.
Qed.

Lemma PackClusters_stripes_descending_witness :
  ∃ stripes,
    PackClusters insertionSort s3_clusters 12
    = Ok (colsOf stripes, rowCounts64Of stripes)
    ∧ concat stripes ≡ₚ s3_clusters
    ∧ Forall (StronglySorted (λ a b, NumVectors b ≤ NumVectors a)) stripes.
Proof.
  apply (PackClusters_stripes_descending insertionSort s3_clusters 12).
  - exact insertionSort_spec.
  - discriminate.
  - unfold s3_clusters, is_u64. repeat constructor; simpl; lia.
Defined.

Lemma foldl_placeFirst_all_fit cap rest : ∀ s,
  Forall (λ c, 0 ≤ NumVectors c) (s ++ rest) →
  sumNumVectors (s ++ rest) < cap →
  sumNumVectors (s ++ rest) < 2 ^ 64 →
  foldl (λ st c, placeFirst (fitsBelow64 cap c) c st) [s] rest = [s ++ rest].
Proof.
  induction rest as [|c rest IH]; intros s Hnn Hcap H64.
  { by rewrite app_nil_r. }
  cbn [foldl placeFirst].
  assert (Hfit : fitsBelow64 cap c s = true).
  { unfold fitsBelow64, rowCount. apply Z.ltb_lt.
    rewrite (cons_middle c s rest), app_assoc in Hnn, Hcap, H64.
    apply Forall_app in Hnn as [Hnn1 Hnn2].
    rewrite sumNumVectors_app, sumNumVectors_snoc in Hcap, H64.
    pose proof (sumNumVectors_nonneg _ Hnn2).
    pose proof (sumNumVectors_nonneg _ Hnn1) as Hs.
    rewrite sumNumVectors_snoc in Hs.
    rewrite wrap64_small; lia. }
  rewrite Hfit, (cons_middle c s rest), app_assoc. apply IH;
    by rewrite <- app_assoc.
Qed.

(** X4: when the capacity exceeds the total number of vectors,
    [PackClusters] puts all clusters into one stripe, in packing order, and
    the stripe's row-count is that total. *)
Theorem PackClusters_one_stripe_when_all_fit srt clusters cap :
  SortSliceSpec srt →
  clusters ≠ [] →
  Forall (λ c, 0 ≤ NumVectors c) clusters →
  sumNumVectors clusters < cap →
  cap ≤ 2 ^ 64 →
  PackClusters srt clusters cap
  = Ok ([map Index (clustersAt clusters (packingOrder srt clusters))],
        [sumNumVectors clusters]).
Proof.
  intros Hsrt Hne Hnn Hcap H64.
  assert (Hu : Forall (λ c, is_u64 (NumVectors c)) clusters)
    by (apply sizes_fit_u64; [done|lia]).
  destruct (PackClusters_ordered_stripes srt clusters cap Hsrt Hne Hu)
    as (c0 & rest & stripes & Ho & Hperm & _ & _ & Hst & Hrun).
  rewrite Hrun, Hst, Ho.
  rewrite (foldl_placeFirst_all_fit _ rest [c0]).
  - unfold colsOf, rowCounts64Of, rowCount. cbn [app map].
    rewrite (sumNumVectors_perm _ _ Hperm), wrap64_small; [done|].
    split; [by apply sumNumVectors_nonneg|lia].
  - cbn [app]. by rewrite Hperm.
  - cbn [app]. rewrite (sumNumVectors_perm _ _ Hperm). unfold effectiveCap. lia.
  - cbn [app]. rewrite (sumNumVectors_perm _ _ Hperm). lia.
Qed.

Lemma PackClusters_one_stripe_when_all_fit_witness :
  PackClusters insertionSort s3_clusters 35
  = Ok ([[0; 1; 2; 3; 4]], [34]).
Proof.
  rewrite (PackClusters_one_stripe_when_all_fit insertionSort s3_clusters 35).
  - vm_compute. reflexivity.
  - exact insertionSort_spec.
  - discriminate.
  - unfold s3_clusters. repeat constructor; simpl; lia.
  - vm_compute. reflexivity.
  - vm_compute. discriminate.
Defined.

Lemma headDoesNotFit_grow cap s c rest :
  0 ≤ NumVectors c →
  Forall (headDoesNotFit cap s) rest →
  Forall (headDoesNotFit cap (s ++ [c])) rest.
Proof.
  intros Hc Hall. eapply Forall_impl; [exact Hall|].
  intros t (c' & r' & -> & Hle). exists c', r'. split; [done|].
  rewrite rowCount_snoc. lia.
Qed.

Lemma placeFirst_headDoesNotFit_l cap c s rest :
  fitsBelow cap c s = false →
  Forall (headDoesNotFit cap s) rest →
  Forall (headDoesNotFit cap s) (placeFirst (fitsBelow cap c) c rest).
Proof.
  intros Hfit. unfold fitsBelow in Hfit. apply Z.ltb_ge in Hfit.
  induction 1 as [|t rest Ht Hall IH]; simpl.
  - constructor; [|constructor]. by exists c, [].
  - destruct (fitsBelow cap c t); constructor; try done.
    destruct Ht as (c' & r' & -> & Hle). by exists c', (r' ++ [c]).
Qed.

Lemma placeFirst_headDoesNotFit cap c stripes :
  0 ≤ NumVectors c →
  StronglySorted (headDoesNotFit cap) stripes →
  StronglySorted (headDoesNotFit cap) (placeFirst (fitsBelow cap c) c stripes).
Proof.
  intros Hc. induction 1 as [|s stripes Hs IH Hall]; simpl.
  - repeat constructor.
  - destruct (fitsBelow cap c s) eqn:Hfit; constructor; try done.
    + by apply headDoesNotFit_grow.
    + by apply placeFirst_headDoesNotFit_l.
Qed.

Lemma foldl_placeFirst_headDoesNotFit cap rest : ∀ stripes,
  Forall (λ c, 0 ≤ NumVectors c) rest →
  StronglySorted (headDoesNotFit cap) stripes →
  StronglySorted (headDoesNotFit cap)
    (foldl (λ st c, placeFirst (fitsBelow cap c) c st) stripes rest).
Proof.
  induction rest as [|c rest IH]; intros stripes Hnn Hst; [done|].
  apply Forall_cons in Hnn as [Hc Hnn]. cbn [foldl].
  apply IH; [done|]. by apply placeFirst_headDoesNotFit.
Qed.

(** X5: first fit leaves no room behind: when the total number of vectors
    fits a [uint64], the first cluster of every stripe would not have fitted
    into any earlier stripe, not even as that stripe stands at the end. *)
Theorem PackClusters_no_earlier_stripe_fits srt clusters cap :
  SortSliceSpec srt →
  clusters ≠ [] →
  Forall (λ c, 0 ≤ NumVectors c) clusters →
  sumNumVectors clusters < 2 ^ 64 →
  ∃ stripes,
    PackClusters srt clusters cap = Ok (colsOf stripes, rowCountsOf stripes)
    ∧ ∀ (i j : nat) si sj, (i < j)%nat →
        stripes !! i = Some si → stripes !! j = Some sj →
        headDoesNotFit (effectiveCap clusters cap) si sj.
Proof.
  intros Hsrt Hne Hnn Hsum.
  pose proof (sizes_fit_u64 _ Hnn Hsum) as Hu.
  destruct (PackClusters_ordered_stripes srt clusters cap Hsrt Hne Hu)
    as (c0 & rest & stripes & _ & Hperm & _ & _ & Hst & Hrun).
  assert (Hnn' : Forall (λ c, 0 ≤ NumVectors c) (c0 :: rest)) by by rewrite Hperm.
  rewrite (foldl_placeFirst_no_overflow _ rest [[c0]]) in Hst.
  2: { cbn [concat app]. done. }
  2: { cbn [concat app]. by rewrite (sumNumVectors_perm _ _ Hperm). }
  exists stripes. split.
  - rewrite Hrun. f_equal. f_equal. apply rowCounts64Of_no_overflow.
    + rewrite Hst, foldl_placeFirst_concat. cbn [concat app]. done.
    + rewrite Hst.
      rewrite (sumNumVectors_perm _ _ (foldl_placeFirst_concat _ _ _)).
      cbn [concat app]. by rewrite (sumNumVectors_perm _ _ Hperm).
  - apply StronglySorted_lookup_lt. rewrite Hst.
    apply foldl_placeFirst_headDoesNotFit.
    + by apply Forall_cons in Hnn' as [_ ?].
    + repeat constructor.
Qed.

Lemma PackClusters_no_earlier_stripe_fits_witness :
  ∃ stripes,
    PackClusters insertionSort s3_clusters 12
    = Ok (colsOf stripes, rowCountsOf stripes)
    ∧ ∀ (i j : nat) si sj, (i < j)%nat →
        stripes !! i = Some si → stripes !! j = Some sj →
        headDoesNotFit (effectiveCap s3_clusters 12) si sj.
Proof.
  apply (PackClusters_no_earlier_stripe_fits insertionSort s3_clusters 12).
  - exact insertionSort_spec.
  - discriminate.
  - unfold s3_clusters. repeat constructor; simpl; lia.
  - vm_compute. reflexivity.
Defined.

(** ** [ReadClusterFromCsv] and [ReadAllClusters] *)

Lemma readFields_run fuel : ∀ j (row : list Z),
  0 ≤ j → (Z.to_nat j ≤ length row)%nat →
  readFields fuel j row
  = if decide (Z.to_nat j + fuel ≤ length row)%nat
    then Ok (take fuel (drop (Z.to_nat j) row))
    else Panic IndexOutOfRange.
Proof.
  induction fuel as [|fuel IH]; intros j row Hj Hjl; cbn [readFields].
  { rewrite take_0. case_decide; [done|]. lia. }
  unfold sliceGet. destruct (Z.ltb_spec j 0); [lia|].
  destruct (row !! Z.to_nat j) as [u|] eqn:Hu; cbn [mbind result_bind].
  - pose proof (lookup_lt_Some _ _ _ Hu) as Hlt.
    rewrite IH by lia. replace (Z.to_nat (j + 1)) with (S (Z.to_nat j)) by lia.
    repeat case_decide; try lia; cbn [mbind result_bind]; [|done].
    rewrite (drop_S _ _ _ Hu). done.
  - apply lookup_ge_None in Hu. case_decide; [lia|done].
Qed.

(** With a positive [FieldsPerRecord] the reader accepts exactly the
    records of that many fields, and the inner loop copies each of them
    whole. *)
Lemma readRows_run dim rows : ∀ vectors numVec,
  0 < int_of_u64 dim →
  readRows dim (int_of_u64 dim) rows vectors numVec
  = if decide (Forall (λ row : list Z,
                  Z.of_nat (length row) = int_of_u64 dim) rows)
    then Ok (vectors ++ concat rows, numVec + Z.of_nat (length rows))
    else Panic ReadClusterFailed.
Proof.
  intros vectors numVec Hd. revert vectors numVec.
  induction rows as [|row rows IH]; intros vectors numVec; cbn [readRows].
  { rewrite decide_True by constructor. simpl. by rewrite app_nil_r, Z.add_0_r. }
  unfold checkFieldCount. destruct (Z.ltb_spec 0 (int_of_u64 dim)); [|lia].
  destruct (Z.eqb_spec (Z.of_nat (length row)) (int_of_u64 dim)) as [Hrow|Hrow].
  - rewrite readFields_run by (done || (simpl; lia)).
    rewrite decide_True by (simpl; lia). cbn [mbind result_bind].
    change (Z.to_nat 0) with 0%nat. rewrite drop_0, take_ge by lia.
    rewrite IH. destruct (decide (Forall _ rows)) as [Hrows|Hrows].
    + rewrite decide_True by by constructor.
      cbn [concat length]. rewrite <- app_assoc. do 2 f_equal. lia.
    + rewrite decide_False; [done|]. intros HF. by apply Forall_cons in HF as [_ HF].
  - rewrite decide_False; [done|]. intros HF. by apply Forall_cons in HF as [HF _].
Qed.

(** Whatever the dimension, no record is indexed outside its fields: the
    loop over the records panics only on the reader's error. *)
Lemma readRows_panic dim rows : ∀ fpr vectors numVec p,
  int_of_u64 dim ≤ 0 ∨ fpr = int_of_u64 dim →
  readRows dim fpr rows vectors numVec = Panic p → p = ReadClusterFailed.
Proof.
  induction rows as [|row rows IH]; intros fpr vectors numVec p Hfpr;
    cbn [readRows]; [done|].
  destruct (checkFieldCount fpr row) as [fpr'|] eqn:Hcheck;
    [|by intros [= <-]].
  destruct Hfpr as [Hd|Hd].
  - replace (Z.to_nat (int_of_u64 dim)) with 0%nat by lia.
    cbn [readFields mbind result_bind]. apply IH. by left.
  - unfold checkFieldCount in Hcheck.
    destruct (Z.ltb_spec 0 fpr) as [Hpos|Hneg].
    + destruct (Z.eqb_spec (Z.of_nat (length row)) fpr) as [Hrow|]; [|done].
      injection Hcheck as <-.
      rewrite readFields_run by (done || (simpl; lia)).
      rewrite decide_True by (simpl; lia). cbn [mbind result_bind].
      apply IH. by right.
    + replace (Z.to_nat (int_of_u64 dim)) with 0%nat by lia.
      cbn [readFields mbind result_bind]. apply IH. left. lia.
Qed.

Lemma concat_length_uniform (d : Z) (rows : list (list Z)) :
  Forall (λ row : list Z, Z.of_nat (length row) = d) rows →
  Z.of_nat (length (concat rows)) = Z.of_nat (length rows) * d.
Proof.
  induction 1 as [|row rows Hrow _ IH]; [done|].
  cbn [concat]. rewrite length_app, length_cons. lia.
Qed.

Lemma ReadClusterFromCsv_run rows index dim precBits :
  0 < dim < 2 ^ 63 →
  Z.of_nat (length rows) * dim < 2 ^ 63 →
  ReadClusterFromCsv (Ok rows) index dim precBits
  = if decide (Forall (λ row : list Z, Z.of_nat (length row) = dim) rows)
    then Ok (mkCluster index (Z.of_nat (length rows)) dim precBits
               (concat rows))
    else Panic ReadClusterFailed.
Proof.
  intros Hdim Hsize. unfold ReadClusterFromCsv. cbn [mbind result_bind].
  rewrite readRows_run by (rewrite int_of_u64_small; lia).
  rewrite int_of_u64_small by lia.
  case_decide as Hrows; cbn [mbind result_bind app]; [|done].
  rewrite Z.add_0_l.
  rewrite bool_decide_eq_true_2.
  - rewrite wrap64_small by nia. done.
  - rewrite (concat_length_uniform dim) by done.
    unfold wrapInt. rewrite Z.mod_small; lia.
Qed.

Lemma concat_lookup_uniform {A} (d : nat) (chunks : list (list A)) :
  Forall (λ r, length r = d) chunks →
  ∀ (i j : nat) r, chunks !! i = Some r → (j < d)%nat →
    concat chunks !! (i * d + j)%nat = r !! j.
Proof.
  induction 1 as [|c chunks Hc Hall IH]; intros i j r Hi Hj;
    [by rewrite lookup_nil in Hi|].
  destruct i as [|i]; simpl in Hi |- *.
  - injection Hi as <-. rewrite lookup_app_l by lia. done.
  - rewrite lookup_app_r by lia.
    replace (d + i * d + j - length c)%nat with (i * d + j)%nat by lia.
    by apply IH.
Qed.

(** X6: on a file whose records all have exactly [dim] fields
    [ReadClusterFromCsv] returns a cluster that holds the records
    row-major: it has one vector per record, and component [j] of vector
    [i] is field [j] of record [i]. *)
Theorem ReadClusterFromCsv_row_major rows index dim precBits :
  0 < dim < 2 ^ 63 →
  Z.of_nat (length rows) * dim < 2 ^ 63 →
  Forall (λ row : list Z, Z.of_nat (length row) = dim) rows →
  ∃ c,
    ReadClusterFromCsv (Ok rows) index dim precBits = Ok c
    ∧ Index c = index ∧ Dim c = dim ∧ PrecBits c = precBits
    ∧ NumVectors c = Z.of_nat (length rows)
    ∧ Vectors c = concat rows
    ∧ ∀ (i j : nat) row, rows !! i = Some row → Z.of_nat j < dim →
        Vectors c !! (i * Z.to_nat dim + j)%nat = row !! j.
Proof.
  intros Hdim Hsize Hrows. rewrite ReadClusterFromCsv_run by done.
  rewrite decide_True by done. eexists. split; [done|]. cbn.
  repeat split; try done.
  intros i j row Hi Hj.
  apply (concat_lookup_uniform (Z.to_nat dim) rows); [|done|lia].
  eapply Forall_impl; [exact Hrows|]. intros r Hr. simpl in Hr. lia.
Qed.

Lemma ReadClusterFromCsv_row_major_witness :
  ∃ c,
    ReadClusterFromCsv (Ok [[1; -1]; [2; 0]]) 0 2 5 = Ok c
    ∧ NumVectors c = 2
    ∧ Vectors c !! (1 * Z.to_nat 2 + 0)%nat = [2; 0] !! 0%nat.
Proof.
  destruct (ReadClusterFromCsv_row_major [[1; -1]; [2; 0]] 0 2 5)
    as (c & Hc & _ & _ & _ & Hn & _ & Hv).
  - lia.
  - vm_compute. reflexivity.
  - repeat constructor.
  - exists c. split; [exact Hc|]. split; [exact Hn|].
    apply (Hv 1%nat 0%nat [2; 0]); [reflexivity|lia].
Defined.

(** X7: the reader is told to expect [dim] fields per record, so
    [ReadClusterFromCsv] succeeds on the records of a file exactly when
    every record has exactly [dim] fields; on a shorter or a longer record
    it panics with "Error reading CSV file".  It never indexes a record
    outside its fields, and its own check of the length of [vectors] never
    fires. *)
Theorem ReadClusterFromCsv_field_count rows index dim precBits :
  0 < dim < 2 ^ 63 →
  Z.of_nat (length rows) * dim < 2 ^ 63 →
  (is_Ok (ReadClusterFromCsv (Ok rows) index dim precBits)
   ↔ Forall (λ row : list Z, Z.of_nat (length row) = dim) rows)
  ∧ (¬ Forall (λ row : list Z, Z.of_nat (length row) = dim) rows →
     ReadClusterFromCsv (Ok rows) index dim precBits = Panic ReadClusterFailed)
  ∧ ReadClusterFromCsv (Ok rows) index dim precBits ≠ Panic IndexOutOfRange
  ∧ ReadClusterFromCsv (Ok rows) index dim precBits
    ≠ Panic VectorsLengthMismatch.
Proof.
  intros Hdim Hsize. rewrite ReadClusterFromCsv_run by done.
  case_decide as Hrows.
  - split; [|done]. split; [done|]. intros _. by eexists.
  - split; [|done]. split; [|done]. by intros [c Hc].
Qed.

Lemma ReadClusterFromCsv_field_count_witness :
  ReadClusterFromCsv (Ok [[1; -1; 7]; [2; 0]]) 0 2 5 = Panic ReadClusterFailed.
Proof.
  destruct (ReadClusterFromCsv_field_count [[1; -1; 7]; [2; 0]] 0 2 5)
    as (_ & H & _).
  - lia.
  - vm_compute. reflexivity.
  - apply H. intros Hall. apply Forall_cons in Hall as [Hbad _].
    vm_compute in Hbad. discriminate Hbad.
Defined.

Lemma readLoop_clusters files fuel : ∀ i dim precBits acc v clusters v',
  readLoop files fuel i dim precBits acc v = Ok (clusters, v') →
  i = Z.of_nat (length acc) →
  (∀ (k : nat) c, acc !! k = Some c →
     ReadClusterFromCsv (files (Z.of_nat k)) (Z.of_nat k) dim precBits = Ok c) →
  ∀ (k : nat) c, clusters !! k = Some c →
    ReadClusterFromCsv (files (Z.of_nat k)) (Z.of_nat k) dim precBits = Ok c.
Proof.
  induction fuel as [|fuel IH]; intros i dim precBits acc v clusters v' Hrun Hi Hacc.
  - simpl in Hrun. by injection Hrun as <- <-.
  - cbn [readLoop] in Hrun.
    destruct (ReadClusterFromCsv (files i) i dim precBits) as [c|] eqn:Hc;
      [|done].
    cbn [mbind result_bind] in Hrun.
    destruct (negb (Dim c =? dim)); [done|].
    destruct (negb (PrecBits c =? precBits)); [done|].
    eapply IH; [exact Hrun| |].
    + rewrite length_app. simpl. lia.
    + intros k c' Hk. apply lookup_app_Some in Hk as [Hk|[Hlen Hk]]; [by apply Hacc|].
      apply list_lookup_singleton_Some in Hk as [Hk ->].
      replace (Z.of_nat k) with i by lia. done.
Qed.

Lemma readLoop_panic files fuel : ∀ i dim precBits acc v p,
  readLoop files fuel i dim precBits acc v = Panic p →
  ∃ k, ReadClusterFromCsv (files k) k dim precBits = Panic p.
Proof.
  induction fuel as [|fuel IH]; intros i dim precBits acc v p; [done|].
  cbn [readLoop].
  destruct (ReadClusterFromCsv (files i) i dim precBits) as [c|q] eqn:Hc;
    cbn [mbind result_bind].
  - apply ReadClusterFromCsv_inv in Hc as (_ & _ & Hd & Hp).
    rewrite Hd, Hp, !Z.eqb_refl. cbn [negb]. apply IH.
  - intros [= <-]. eauto.
Qed.

Lemma ReadClusterFromCsv_panic file index dim precBits p :
  ReadClusterFromCsv file index dim precBits = Panic p →
  file = Panic p ∨ p = ReadClusterFailed ∨ p = VectorsLengthMismatch.
Proof.
  unfold ReadClusterFromCsv. destruct file as [rows|q]; cbn [mbind result_bind];
    [|intros [= <-]; by left].
  destruct (readRows dim (int_of_u64 dim) rows [] 0) as [[vectors numVec]|q]
    eqn:Hrows; cbn [mbind result_bind].
  - case_bool_decide; [done|]. intros [= <-]. auto.
  - intros [= <-]. apply readRows_panic in Hrows; auto.
Qed.

(** X8: when [ReadAllClusters] succeeds it returns the decoded metadata and
    [NumClusters] clusters; the cluster at position [k] is what
    [ReadClusterFromCsv] made of file [k], so it carries the id [k], the
    metadata's dimension and the given precision; and the [uint64] sum of
    the cluster sizes is the metadata's [NumVectors]. *)
Theorem ReadAllClusters_result_shape files metadataFile precBits metadata clusters :
  ReadAllClusters files metadataFile precBits = Ok (metadata, clusters) →
  metadataFile = Ok metadata
  ∧ length clusters = Z.to_nat (md_NumClusters metadata)
  ∧ wrap64 (sumNumVectors clusters) = md_NumVectors metadata
  ∧ ∀ (k : nat) c, clusters !! k = Some c →
      ReadClusterFromCsv (files (Z.of_nat k)) (Z.of_nat k) (md_Dim metadata)
        precBits = Ok c
      ∧ Index c = Z.of_nat k ∧ Dim c = md_Dim metadata
      ∧ PrecBits c = precBits ∧ is_u64 (NumVectors c).
Proof.
  intros Hread.
  pose proof (ReadAllClusters_inv _ _ _ _ _ Hread) as (Hsum & _ & Hlen & _).
  apply ReadAllClusters_Ok_inv in Hread as (Hmd & _ & v & Hloop & _).
  split; [done|]. split; [done|]. split; [done|].
  intros k c Hk.
  pose proof (readLoop_clusters _ _ _ _ _ _ _ _ _ Hloop eq_refl
                ltac:(intros ? ? H; by rewrite lookup_nil in H) k c Hk) as Hc.
  split; [done|]. by apply ReadClusterFromCsv_inv in Hc as (? & ? & ? & ?).
Qed.

Lemma ReadAllClusters_result_shape_witness :
  length sample_clusters = Z.to_nat (md_NumClusters sample_metadata)
  ∧ wrap64 (sumNumVectors sample_clusters) = md_NumVectors sample_metadata.
Proof.
  destruct (ReadAllClusters_result_shape sample_files (Ok sample_metadata) 5
              sample_metadata sample_clusters) as (_ & H1 & H2 & _).
  - vm_compute. reflexivity.
  - split; [exact H1|exact H2].
Defined.

(** X9: every panic of [ReadAllClusters] is one raised by reading the
    metadata or a cluster file, the run-time panic of a [make] whose length
    is out of range, a panic of [ReadClusterFromCsv] ("Error reading CSV
    file" for a record of the wrong length, or its check of the length of
    [vectors]), or the total-mismatch panic.  The dimension and precision
    checks of its loop never fire, and no index is out of range. *)
Theorem ReadAllClusters_panics files metadataFile precBits p :
  ReadAllClusters files metadataFile precBits = Panic p →
  metadataFile = Panic p
  ∨ (∃ k, files k = Panic p)
  ∨ p = MakeSliceLenOutOfRange
  ∨ p = ReadClusterFailed ∨ p = VectorsLengthMismatch ∨ p = TotalMismatch.
Proof.
  unfold ReadAllClusters. destruct metadataFile as [md|q];
    cbn [mbind result_bind]; [|intros [= <-]; by left].
  destruct (makeFits 8 (md_NumClusters md)); cbn [negb];
    [|intros [= <-]; auto 10].
  destruct (readLoop files _ 0 (md_Dim md) precBits [] 0)
    as [[cs v]|q] eqn:Hloop; cbn [mbind result_bind].
  - destruct (negb (v =? md_NumVectors md)); [|done].
    intros [= <-]. auto 10.
  - intros [= <-]. apply readLoop_panic in Hloop as [k Hk].
    apply ReadClusterFromCsv_panic in Hk as [Hk|[Hk|Hk]]; eauto 10.
Qed.

Lemma ReadAllClusters_panics_witness :
  ReadAllClusters sample_files (Ok (mkMetadata 3 2 (2 ^ 63))) 5
  = Panic MakeSliceLenOutOfRange.
Proof.
  destruct (ReadAllClusters sample_files (Ok (mkMetadata 3 2 (2 ^ 63))) 5)
    as [r|p] eqn:Hrun.
  - vm_compute in Hrun. discriminate Hrun.
  - destruct (ReadAllClusters_panics _ _ _ _ Hrun)
      as [H|[[k H]|[H|[H|[H|H]]]]]; vm_compute in Hrun; congruence.
Defined.

(** ** [BuildVectorDatabase]: the outcomes and the addressing of the matrix *)

Lemma rowBase_lt clusters dim ids (k k' : nat) id id' :
  idsOk clusters dim ids → ids !! k = Some id → ids !! k' = Some id' →
  (k < k')%nat →
  rowBase clusters ids k + sizeAt clusters id ≤ rowBase clusters ids k'.
Proof.
  intros Hok Hk Hk' Hlt. unfold rowBase.
  assert (Hok' : idsOk clusters dim (take k' ids)) by by apply Forall_take.
  assert (Hk2 : take k' ids !! k = Some id) by by rewrite lookup_take_lt.
  destruct (rowsOf_take_le clusters dim _ k id Hok' Hk2) as [_ Hle].
  rewrite take_take in Hle. by replace (k `min` k')%nat with k in Hle by lia.
Qed.

Lemma PackClusters_colSzs_le_cap srt clusters cap cols colSzs :
  SortSliceSpec srt →
  Forall (λ c, is_u64 (NumVectors c)) clusters →
  PackClusters srt clusters cap = Ok (cols, colSzs) →
  Forall (λ sz, sz ≤ effectiveCap clusters cap) colSzs.
Proof.
  intros Hsrt Hu Hpack.
  destruct (decide (clusters = [])) as [->|Hne]; [done|].
  destruct (PackClusters_ordered_stripes srt clusters cap Hsrt Hne Hu)
    as (c0 & rest & stripes & _ & Hperm & Hsorted & Hcap & Hst & Hrun).
  rewrite Hrun in Hpack. injection Hpack as <- <-.
  assert (Hu' : Forall (λ c, is_u64 (NumVectors c)) (c0 :: rest))
    by by rewrite Hperm.
  apply Forall_cons in Hu' as [Hu0 Hurest].
  apply StronglySorted_cons in Hsorted as [Hmax _].
  assert (Hc0 : NumVectors c0 ≤ effectiveCap clusters cap).
  { rewrite <- Hcap. unfold raiseCap.
    destruct (Z.ltb_spec cap (NumVectors c0)); lia. }
  assert (Hall : Forall (withinCap (effectiveCap clusters cap)) stripes).
  { rewrite Hst. apply foldl_placeFirst_withinCap.
    - apply Forall_forall. intros c Hc. rewrite Forall_forall in Hurest, Hmax.
      split; [by apply Hurest|]. specialize (Hmax c Hc). lia.
    - constructor; [|constructor]. unfold withinCap, rowCount, sumNumVectors.
      simpl. rewrite Z.add_0_r, wrap64_small by done. split; lia. }
  unfold rowCounts64Of. apply Forall_fmap.
  eapply Forall_impl; [exact Hall|]. by intros s [].
Qed.

Section LayoutFacts.

Variable srt : (Z → Z → bool) → list Z → list Z.
Hypothesis Hsrt : SortSliceSpec srt.
Variable Params : Type.
Variable P : Params → Z.
Variable Logq : Params → Z.
Variable NewParamsFixedP : Z → Z → Z → option Params.
Variable Database : Type.
Variable NewDatabaseFixedParams : Z → Z → list Z → Params → option Database.
Variable Info_L : Database → Z.
Variable metadata : Metadata.
Variable clusters : list Cluster.
Variables hintSz precBits : Z.
Hypothesis Hwf : wfInput metadata clusters.

Local Abbreviation dim := (md_Dim metadata).
Local Abbreviation plain :=
  (buildPlaintexts srt Params P Logq NewParamsFixedP metadata clusters
     hintSz precBits).
Local Abbreviation build :=
  (BuildVectorDatabase srt Params P Logq NewParamsFixedP Database
     NewDatabaseFixedParams Info_L metadata clusters hintSz precBits).

(** What a successful run has computed. *)
Lemma BuildVectorDatabase_layout db (indexMap : gmap Z Z) :
  build = Ok (db, indexMap) →
  ∃ stripes vals p,
    PackClusters srt clusters (mul64 hintSz 125)
    = Ok (colsOf stripes, rowCountsOf stripes)
    ∧ concat stripes ≡ₚ clusters
    ∧ Forall (idsOk clusters dim) (colsOf stripes)
    ∧ Forall (λ ids, rowsOf clusters ids ≤ Max (rowCountsOf stripes))
             (colsOf stripes)
    ∧ (Max (rowCountsOf stripes) + 1)
      * (Z.of_nat (length (colsOf stripes)) * dim) < 2 ^ 63
    ∧ plain
      = Ok (mkPlaintexts (colsOf stripes) (rowCountsOf stripes)
              (Max (rowCountsOf stripes))
              (Z.of_nat (length (colsOf stripes)) * dim) p vals indexMap)
    ∧ NewDatabaseFixedParams
        (mul64 (Max (rowCountsOf stripes))
           (Z.of_nat (length (colsOf stripes)) * dim)) 15 vals p = Some db
    ∧ Info_L db = Max (rowCountsOf stripes)
    ∧ populated clusters dim (colsOf stripes) (Max (rowCountsOf stripes))
        (Z.of_nat (length (colsOf stripes)) * dim) vals indexMap.
Proof.
  intros Hbuild.
  destruct (buildPlaintexts_run srt Hsrt Params P Logq NewParamsFixedP
              metadata clusters hintSz precBits Hwf)
    as (stripes & Hpack & Hperm & Hok & Hrows & Hm & Hbound & Hrun).
  apply BuildVectorDatabase_Ok_inv in Hbuild as (pt & Hplain & Hdb & HL & ->).
  destruct (pickParams _ _ _ _ _ _) as [p|e]; [|congruence].
  destruct Hrun as (vals & im & Hrun & Hpop).
  rewrite Hrun in Hplain. injection Hplain as <-. simpl in *.
  exists stripes, vals, p. done.
Qed.

(** Every cluster has a place in the layout. *)
Lemma cluster_in_layout stripes (c : nat) cl :
  concat stripes ≡ₚ clusters → clusters !! c = Some cl →
  ∃ (s k : nat) ids,
    colsOf stripes !! s = Some ids ∧ ids !! k = Some (Z.of_nat c).
Proof.
  intros Hperm Hc.
  assert (Hidx : Index cl = Z.of_nat c) by by eapply wf_index.
  assert (Hin : Z.of_nat c ∈ concat (colsOf stripes)).
  { rewrite concat_colsOf, Hperm, <- Hidx. apply list_elem_of_fmap_2.
    by eapply list_elem_of_lookup_2. }
  apply elem_of_concat in Hin as (ids & Hids & Hcin).
  apply list_elem_of_lookup in Hids as [s Hs].
  apply list_elem_of_lookup in Hcin as [k Hk]. eauto.
Qed.

Lemma build_panics e :
  build = Panic e →
  e = NilDereference ∨ e = PickParamsFailure
  ∨ e = BackendPanic ∨ e = InfoLMismatch.
Proof.
  intros Hpanic.
  destruct (buildPlaintexts_run srt Hsrt Params P Logq NewParamsFixedP
              metadata clusters hintSz precBits Hwf)
    as (stripes & _ & _ & _ & _ & _ & _ & Hrun).
  apply BuildVectorDatabase_panic_inv in Hpanic as [Hplain|[?|?]]; [|auto..].
  destruct (pickParams _ _ _ _ _ _) as [p|e'] eqn:Hpick.
  - destruct Hrun as (vals & im & Hrun & _). congruence.
  - rewrite Hrun in Hplain. injection Hplain as ->.
    destruct (pickParams_panic _ _ _ _ _ _ _ Hpick); auto.
Qed.

Lemma stored_at_offset db (indexMap : gmap Z Z) :
  build = Ok (db, indexMap) →
  ∃ pt,
    plain = Ok pt
    ∧ NewDatabaseFixedParams (mul64 (pt_l pt) (pt_m pt)) 15 (pt_vals pt)
        (pt_params pt) = Some db
    ∧ pt_m pt = Z.of_nat (length (pt_cols pt)) * dim
    ∧ ∀ (c : nat) cl i j,
        clusters !! c = Some cl → 0 ≤ i < NumVectors cl → 0 ≤ j < dim →
        ∃ off v,
          indexMap !! Z.of_nat c = Some off
          ∧ Vectors cl !! Z.to_nat (i * dim + j) = Some v
          ∧ pt_vals pt !! Z.to_nat (off + i * pt_m pt + j)
            = Some (uint64_of_int8 v).
Proof.
  intros Hbuild.
  destruct (BuildVectorDatabase_layout _ _ Hbuild)
    as (stripes & vals & p & _ & Hperm & _ & _ & _ & Hplain & Hdb & _ & Hpop).
  eexists. split; [exact Hplain|]. simpl. split; [done|]. split; [done|].
  intros c cl i j Hc Hi Hj.
  destruct (cluster_in_layout stripes c cl Hperm Hc) as (s & k & ids & Hs & Hk).
  assert (Hwfcl : wfCluster dim cl).
  { pose proof (wf_vectors _ _ Hwf) as Hv. rewrite Forall_forall in Hv.
    apply Hv. by eapply list_elem_of_lookup_2. }
  destruct Hwfcl as [_ Hlen].
  destruct (lookup_lt_is_Some_2 (Vectors cl) (Z.to_nat (i * dim + j)))
    as [v Hv]; [nia|].
  eexists _, v. split; [by eapply pop_origin|]. split; [done|].
  pose proof (pop_cells _ _ _ _ _ _ _ Hpop s k ids (Z.of_nat c) cl i j Hs Hk
                ltac:(by rewrite Nat2Z.id) Hi Hj) as Hcell.
  rewrite Hv in Hcell. simpl in Hcell. rewrite <- Hcell.
  f_equal. f_equal. unfold cellIndex. lia.
Qed.

End LayoutFacts.

(** X10: on an input of the data model [BuildVectorDatabase] panics only in
    the parameter check (with the nil dereference or with "Failure in
    picking SimplePIR DB parameters"), inside the backend's database
    constructor, or in the final check of [Info.L]: packing, allocation and
    population never panic. *)
Theorem BuildVectorDatabase_panics srt Params P Logq NewParamsFixedP Database
    NewDatabaseFixedParams Info_L metadata clusters hintSz precBits e :
  SortSliceSpec srt →
  wfInput metadata clusters →
  BuildVectorDatabase srt Params P Logq NewParamsFixedP Database
    NewDatabaseFixedParams Info_L metadata clusters hintSz precBits
  = Panic e →
  e = NilDereference ∨ e = PickParamsFailure
  ∨ e = BackendPanic ∨ e = InfoLMismatch.
Proof. intros Hsrt Hwf. by apply build_panics. Qed.

Lemma BuildVectorDatabase_panics_witness :
  BuildVectorDatabase insertionSort sampleParams sp_P sp_Logq sampleNewParams
    sampleDatabase sampleNewDatabase sd_L sample_metadata sample_clusters 0 16
  = Panic PickParamsFailure.
Proof.
  destruct (BuildVectorDatabase insertionSort sampleParams sp_P sp_Logq
              sampleNewParams sampleDatabase sampleNewDatabase sd_L
              sample_metadata sample_clusters 0 16) as [r|e] eqn:Hb.
  - vm_compute in Hb. discriminate Hb.
  - destruct (BuildVectorDatabase_panics insertionSort sampleParams sp_P
                sp_Logq sampleNewParams sampleDatabase sampleNewDatabase sd_L
                sample_metadata sample_clusters 0 16 e insertionSort_spec
                sample_wf Hb) as [->|[->|[->| ->]]];
      vm_compute in Hb; congruence.
Defined.

(** X11: the keys of the index map that [BuildVectorDatabase] returns are
    exactly the cluster ids [0 .. len(clusters)-1]. *)
Theorem indexMap_keys srt Params P Logq NewParamsFixedP Database
    NewDatabaseFixedParams Info_L metadata clusters hintSz precBits
    db (indexMap : gmap Z Z) :
  SortSliceSpec srt →
  wfInput metadata clusters →
  BuildVectorDatabase srt Params P Logq NewParamsFixedP Database
    NewDatabaseFixedParams Info_L metadata clusters hintSz precBits
  = Ok (db, indexMap) →
  ∀ id, is_Some (indexMap !! id) ↔ 0 ≤ id < Z.of_nat (length clusters).
Proof.
  intros Hsrt Hwf Hbuild id.
  destruct (BuildVectorDatabase_layout srt Hsrt _ _ _ _ _ _ _ _ _ _ _ Hwf _ _
              Hbuild)
    as (stripes & vals & p & _ & Hperm & _ & _ & _ & _ & _ & _ & Hpop).
  split.
  - intros Hsome. destruct (decide (id ∈ concat (colsOf stripes))) as [Hin|Hout].
    + rewrite concat_colsOf, Hperm in Hin.
      apply list_elem_of_fmap in Hin as (cl & -> & Hcl).
      apply list_elem_of_lookup in Hcl as [k Hk].
      rewrite (wf_index _ _ Hwf k cl Hk). apply lookup_lt_Some in Hk. lia.
    + rewrite (pop_keys _ _ _ _ _ _ _ Hpop id Hout) in Hsome.
      by destruct Hsome.
  - intros Hid.
    destruct (lookup_lt_is_Some_2 clusters (Z.to_nat id)) as [cl Hcl]; [lia|].
    destruct (cluster_in_layout metadata clusters Hwf stripes _ cl Hperm Hcl)
      as (s & k & ids & Hs & Hk).
    rewrite Z2Nat.id in Hk by lia.
    rewrite (pop_origin _ _ _ _ _ _ _ Hpop s k ids id Hs Hk). eauto.
Qed.

Lemma indexMap_keys_witness :
  ∃ db (indexMap : gmap Z Z),
    BuildVectorDatabase insertionSort sampleParams sp_P sp_Logq sampleNewParams
      sampleDatabase sampleNewDatabase sd_L sample_metadata sample_clusters 0 5
    = Ok (db, indexMap)
    ∧ ∀ id, is_Some (indexMap !! id) ↔ 0 ≤ id < Z.of_nat (length sample_clusters).
Proof.
  destruct (BuildVectorDatabase insertionSort sampleParams sp_P sp_Logq
              sampleNewParams sampleDatabase sampleNewDatabase sd_L
              sample_metadata sample_clusters 0 5) as [[db im]|e] eqn:Hb.
  - exists db, im. split; [reflexivity|].
    exact (indexMap_keys insertionSort sampleParams sp_P sp_Logq
             sampleNewParams sampleDatabase sampleNewDatabase sd_L
             sample_metadata sample_clusters 0 5 db im insertionSort_spec
             sample_wf Hb).
  - vm_compute in Hb. discriminate Hb.
Defined.

(** X12: the index map addresses the matrix.  In the plaintexts that
    [BuildVectorDatabase] hands to the backend, with [M = len(cols) * dim]
    columns, component [j] of vector [i] of cluster [c] is stored, as Go's
    [uint64] of the [int8], at position [indexMap[c] + i*M + j]. *)
Theorem indexMap_lookup_cell srt Params P Logq NewParamsFixedP Database
    NewDatabaseFixedParams Info_L metadata clusters hintSz precBits
    db (indexMap : gmap Z Z) :
  SortSliceSpec srt →
  wfInput metadata clusters →
  BuildVectorDatabase srt Params P Logq NewParamsFixedP Database
    NewDatabaseFixedParams Info_L metadata clusters hintSz precBits
  = Ok (db, indexMap) →
  ∃ pt,
    buildPlaintexts srt Params P Logq NewParamsFixedP metadata clusters
      hintSz precBits = Ok pt
    ∧ NewDatabaseFixedParams (mul64 (pt_l pt) (pt_m pt)) 15 (pt_vals pt)
        (pt_params pt) = Some db
    ∧ pt_m pt = Z.of_nat (length (pt_cols pt)) * md_Dim metadata
    ∧ ∀ (c : nat) cl i j,
        clusters !! c = Some cl →
        0 ≤ i < NumVectors cl → 0 ≤ j < md_Dim metadata →
        ∃ off v,
          indexMap !! Z.of_nat c = Some off
          ∧ Vectors cl !! Z.to_nat (i * md_Dim metadata + j) = Some v
          ∧ pt_vals pt !! Z.to_nat (off + i * pt_m pt + j)
            = Some (uint64_of_int8 v).
Proof. intros Hsrt Hwf. by apply stored_at_offset. Qed.

Lemma indexMap_lookup_cell_witness :
  ∃ db (indexMap : gmap Z Z) pt,
    BuildVectorDatabase insertionSort sampleParams sp_P sp_Logq sampleNewParams
      sampleDatabase sampleNewDatabase sd_L sample_metadata sample_clusters 0 5
    = Ok (db, indexMap)
    ∧ buildPlaintexts insertionSort sampleParams sp_P sp_Logq sampleNewParams
        sample_metadata sample_clusters 0 5 = Ok pt
    ∧ ∃ off v,
        indexMap !! 0 = Some off
        ∧ Vectors (mkCluster 0 2 2 5 [1; -1; 2; 0]) !! Z.to_nat (1 * 2 + 0)
          = Some v
        ∧ pt_vals pt !! Z.to_nat (off + 1 * pt_m pt + 0)
          = Some (uint64_of_int8 v).
Proof.
  destruct (BuildVectorDatabase insertionSort sampleParams sp_P sp_Logq
              sampleNewParams sampleDatabase sampleNewDatabase sd_L
              sample_metadata sample_clusters 0 5) as [[db im]|e] eqn:Hb.
  - destruct (indexMap_lookup_cell insertionSort sampleParams sp_P sp_Logq
                sampleNewParams sampleDatabase sampleNewDatabase sd_L
                sample_metadata sample_clusters 0 5 db im insertionSort_spec
                sample_wf Hb) as (pt & Hpt & _ & _ & Hcells).
    exists db, im, pt. split; [reflexivity|]. split; [exact Hpt|].
    apply (Hcells 0%nat (mkCluster 0 2 2 5 [1; -1; 2; 0]) 1 0).
    + reflexivity.
    + simpl. lia.
    + simpl. lia.
  - vm_compute in Hb. discriminate Hb.
Defined.

(** X13: no two components share a cell.  With [M = len(cols) * dim], the
    positions [indexMap[c] + i*M + j] of the components of all vectors of
    all clusters are pairwise different. *)
Theorem cluster_cells_disjoint srt Params P Logq NewParamsFixedP Database
    NewDatabaseFixedParams Info_L metadata clusters hintSz precBits
    db (indexMap : gmap Z Z) :
  SortSliceSpec srt →
  wfInput metadata clusters →
  BuildVectorDatabase srt Params P Logq NewParamsFixedP Database
    NewDatabaseFixedParams Info_L metadata clusters hintSz precBits
  = Ok (db, indexMap) →
  ∃ cols colSzs,
    PackClusters srt clusters (mul64 hintSz 125) = Ok (cols, colSzs)
    ∧ ∀ (c c' : nat) cl cl' off off' i j i' j',
        clusters !! c = Some cl → clusters !! c' = Some cl' →
        indexMap !! Z.of_nat c = Some off →
        indexMap !! Z.of_nat c' = Some off' →
        0 ≤ i < NumVectors cl → 0 ≤ j < md_Dim metadata →
        0 ≤ i' < NumVectors cl' → 0 ≤ j' < md_Dim metadata →
        off + i * (Z.of_nat (length cols) * md_Dim metadata) + j
        = off' + i' * (Z.of_nat (length cols) * md_Dim metadata) + j' →
        c = c' ∧ i = i' ∧ j = j'.
Proof.
  intros Hsrt Hwf Hbuild.
  destruct (BuildVectorDatabase_layout srt Hsrt _ _ _ _ _ _ _ _ _ _ _ Hwf _ _
              Hbuild)
    as (stripes & vals & p & Hpack & Hperm & Hok & _ & _ & _ & _ & _ & Hpop).
  exists (colsOf stripes), (rowCountsOf stripes). split; [done|].
  set (M := Z.of_nat (length (colsOf stripes)) * md_Dim metadata) in *.
  intros c c' cl cl' off off' i j i' j' Hc Hc' Hoff Hoff' Hi Hj Hi' Hj' Heq.
  destruct (cluster_in_layout metadata clusters Hwf stripes c cl Hperm Hc)
    as (s & k & ids & Hs & Hk).
  destruct (cluster_in_layout metadata clusters Hwf stripes c' cl' Hperm Hc')
    as (s' & k' & ids' & Hs' & Hk').
  rewrite (pop_origin _ _ _ _ _ _ _ Hpop s k ids _ Hs Hk) in Hoff.
  rewrite (pop_origin _ _ _ _ _ _ _ Hpop s' k' ids' _ Hs' Hk') in Hoff'.
  injection Hoff as <-. injection Hoff' as <-. unfold cellIndex in Heq.
  pose proof (lookup_lt_Some _ _ _ Hs) as Hls.
  pose proof (lookup_lt_Some _ _ _ Hs') as Hls'.
  destruct (cell_inj (md_Dim metadata) M
              (rowBase clusters ids k + i) (Z.of_nat s) j
              (rowBase clusters ids' k' + i') (Z.of_nat s') j')
    as (Hr & Hss & Hjj); [done|done|lia|lia|subst M; nia|subst M; nia|lia|].
  apply Nat2Z.inj in Hss as <-.
  assert (ids' = ids) as -> by congruence.
  assert (Hidsok : idsOk clusters (md_Dim metadata) ids).
  { rewrite Forall_forall in Hok. apply Hok. by eapply list_elem_of_lookup_2. }
  assert (Hsz : sizeAt clusters (Z.of_nat c) = NumVectors cl)
    by (unfold sizeAt; by rewrite Nat2Z.id, Hc).
  assert (Hsz' : sizeAt clusters (Z.of_nat c') = NumVectors cl')
    by (unfold sizeAt; by rewrite Nat2Z.id, Hc').
  destruct (Nat.lt_trichotomy k k') as [Hlt|[<-|Hlt]].
  - pose proof (rowBase_lt _ _ _ _ _ _ _ Hidsok Hk Hk' Hlt). lia.
  - assert (c' = c) as -> by (apply Nat2Z.inj; congruence). lia.
  - pose proof (rowBase_lt _ _ _ _ _ _ _ Hidsok Hk' Hk Hlt). lia.
Qed.

Lemma cluster_cells_disjoint_witness :
  ∃ db (indexMap : gmap Z Z) cols colSzs,
    BuildVectorDatabase insertionSort sampleParams sp_P sp_Logq sampleNewParams
      sampleDatabase sampleNewDatabase sd_L sample_metadata sample_clusters 0 5
    = Ok (db, indexMap)
    ∧ PackClusters insertionSort sample_clusters (mul64 0 125)
      = Ok (cols, colSzs)
    ∧ ∀ (c c' : nat) cl cl' off off' i j i' j',
        sample_clusters !! c = Some cl → sample_clusters !! c' = Some cl' →
        indexMap !! Z.of_nat c = Some off →
        indexMap !! Z.of_nat c' = Some off' →
        0 ≤ i < NumVectors cl → 0 ≤ j < md_Dim sample_metadata →
        0 ≤ i' < NumVectors cl' → 0 ≤ j' < md_Dim sample_metadata →
        off + i * (Z.of_nat (length cols) * md_Dim sample_metadata) + j
        = off' + i' * (Z.of_nat (length cols) * md_Dim sample_metadata) + j' →
        c = c' ∧ i = i' ∧ j = j'.
Proof.
  destruct (BuildVectorDatabase insertionSort sampleParams sp_P sp_Logq
              sampleNewParams sampleDatabase sampleNewDatabase sd_L
              sample_metadata sample_clusters 0 5) as [[db im]|e] eqn:Hb.
  - destruct (cluster_cells_disjoint insertionSort sampleParams sp_P sp_Logq
                sampleNewParams sampleDatabase sampleNewDatabase sd_L
                sample_metadata sample_clusters 0 5 db im insertionSort_spec
                sample_wf Hb) as (cols & colSzs & Hpack & H).
    exists db, im, cols, colSzs. split; [reflexivity|]. split; [exact Hpack|exact H].
  - vm_compute in Hb. discriminate Hb.
Defined.

Lemma largestSize_le clusters b :
  0 ≤ b → Forall (λ c, NumVectors c ≤ b) clusters → largestSize clusters ≤ b.
Proof. intros Hb. unfold largestSize. induction 1; simpl; lia. Qed.

(** X14: the number of rows [L] of the database that [BuildVectorDatabase]
    builds is the largest row-count of the packing; it is at least the size
    of the largest cluster and at most the effective capacity, the larger of
    [hintSz * 125] and the largest cluster. *)
Theorem rows_between_largest_cluster_and_capacity srt Params P Logq
    NewParamsFixedP Database NewDatabaseFixedParams Info_L metadata clusters
    hintSz precBits db (indexMap : gmap Z Z) :
  SortSliceSpec srt →
  wfInput metadata clusters →
  BuildVectorDatabase srt Params P Logq NewParamsFixedP Database
    NewDatabaseFixedParams Info_L metadata clusters hintSz precBits
  = Ok (db, indexMap) →
  ∃ cols colSzs,
    PackClusters srt clusters (mul64 hintSz 125) = Ok (cols, colSzs)
    ∧ Info_L db = Max colSzs
    ∧ largestSize clusters ≤ Info_L db
    ∧ Info_L db ≤ effectiveCap clusters (mul64 hintSz 125).
Proof.
  intros Hsrt Hwf Hbuild.
  destruct (BuildVectorDatabase_layout srt Hsrt _ _ _ _ _ _ _ _ _ _ _ Hwf _ _
              Hbuild)
    as (stripes & vals & p & Hpack & Hperm & Hok & Hrows & _ & _ & _ & HL & _).
  exists (colsOf stripes), (rowCountsOf stripes).
  split; [done|]. split; [done|]. rewrite HL.
  assert (Hnn : Forall (λ c, 0 ≤ NumVectors c) clusters).
  { eapply Forall_impl; [exact (wf_vectors _ _ Hwf)|]. by intros c []. }
  split.
  - apply largestSize_le; [apply Max_nonneg|].
    apply Forall_forall. intros cl Hcl.
    apply list_elem_of_lookup in Hcl as [c Hc].
    destruct (cluster_in_layout metadata clusters Hwf stripes c cl Hperm Hc)
      as (s & k & ids & Hs & Hk).
    rewrite Forall_forall in Hok, Hrows.
    pose proof (list_elem_of_lookup_2 _ _ _ Hs) as Hin.
    destruct (rowsOf_take_le clusters _ ids k _ (Hok _ Hin) Hk) as [H0 Hle].
    specialize (Hrows _ Hin). unfold sizeAt in Hle.
    rewrite Nat2Z.id, Hc in Hle. lia.
  - assert (Hu : Forall (λ c, is_u64 (NumVectors c)) clusters).
    { apply sizes_fit_u64; [done|].
      pose proof (wf_size _ _ Hwf) as Hsz. pose proof (wf_dim _ _ Hwf).
      pose proof (sumNumVectors_nonneg _ Hnn).
      assert (1 ≤ Z.of_nat (length clusters)).
      { pose proof (wf_nonempty _ _ Hwf). destruct clusters; [done|simpl; lia]. }
      nia. }
    apply Max_le.
    + unfold effectiveCap.
      assert (0 ≤ largestSize clusters); [|lia].
      unfold largestSize. clear. induction clusters; simpl; lia.
    + exact (PackClusters_colSzs_le_cap srt clusters _ _ _ Hsrt Hu Hpack).
Qed.

Lemma rows_between_largest_cluster_and_capacity_witness :
  ∃ db (indexMap : gmap Z Z) cols colSzs,
    BuildVectorDatabase insertionSort sampleParams sp_P sp_Logq sampleNewParams
      sampleDatabase sampleNewDatabase sd_L sample_metadata sample_clusters 0 5
    = Ok (db, indexMap)
    ∧ PackClusters insertionSort sample_clusters (mul64 0 125)
      = Ok (cols, colSzs)
    ∧ sd_L db = Max colSzs
    ∧ largestSize sample_clusters ≤ sd_L db
    ∧ sd_L db ≤ effectiveCap sample_clusters (mul64 0 125).
Proof.
  destruct (BuildVectorDatabase insertionSort sampleParams sp_P sp_Logq
              sampleNewParams sampleDatabase sampleNewDatabase sd_L
              sample_metadata sample_clusters 0 5) as [[db im]|e] eqn:Hb.
  - destruct (rows_between_largest_cluster_and_capacity insertionSort
                sampleParams sp_P sp_Logq sampleNewParams sampleDatabase
                sampleNewDatabase sd_L sample_metadata sample_clusters 0 5 db
                im insertionSort_spec sample_wf Hb)
      as (cols & colSzs & H).
    exists db, im, cols, colSzs. split; [reflexivity|exact H].
  - vm_compute in Hb. discriminate Hb.
Defined.

(** X15: [DBIndex] is the row-major index: for a column below [m] and a
    product that fits a [uint64], the row and the column are recovered from
    it by division and remainder. *)
Theorem DBIndex_round_trip row col m :
  0 ≤ row → 0 ≤ col < m → row * m + col < 2 ^ 64 →
  DBIndex row col m = row * m + col
  ∧ DBIndex row col m / m = row
  ∧ DBIndex row col m mod m = col.
Proof.
  intros Hrow Hcol Hfit. unfold DBIndex.
  rewrite mul64_small, add64_small by nia.
  split; [done|]. split.
  - symmetry. apply (Z.div_unique _ _ _ col); [left; lia|lia].
  - symmetry. apply (Z.mod_unique _ _ row); [left; lia|lia].
Qed.

Lemma DBIndex_round_trip_witness :
  DBIndex 3 5 8 = 3 * 8 + 5 ∧ DBIndex 3 5 8 / 8 = 3 ∧ DBIndex 3 5 8 mod 8 = 5.
Proof. apply (DBIndex_round_trip 3 5 8); lia. Defined.

(** ** From the cluster files to the matrix *)

Lemma wrapInt_range z : - 2 ^ 63 ≤ wrapInt z < 2 ^ 63.
Proof.
  unfold wrapInt. pose proof (Z.mod_pos_bound (z + 2 ^ 63) (2 ^ 64)). lia.
Qed.

(** A cluster read from a readable file, for a dimension that is a
    positive [int]. *)
Lemma ReadClusterFromCsv_Ok_rows rows index dim precBits c :
  0 < dim < 2 ^ 63 →
  ReadClusterFromCsv (Ok rows) index dim precBits = Ok c →
  Forall (λ row : list Z, Z.of_nat (length row) = dim) rows
  ∧ c = mkCluster index (Z.of_nat (length rows)) dim precBits (concat rows).
Proof.
  intros Hdim. unfold ReadClusterFromCsv. cbn [mbind result_bind].
  rewrite readRows_run by (rewrite int_of_u64_small; lia).
  rewrite int_of_u64_small by lia.
  case_decide as Hrows; cbn [mbind result_bind app]; [|done].
  rewrite Z.add_0_l.
  case_bool_decide as Hcheck; [|done]. intros [= <-]. split; [done|].
  rewrite (concat_length_uniform dim) in Hcheck by done.
  pose proof (wrapInt_range (Z.of_nat (length rows) * dim)).
  rewrite wrap64_small by nia. done.
Qed.

Lemma ReadAllClusters_lookup files metadataFile precBits metadata clusters :
  ReadAllClusters files metadataFile precBits = Ok (metadata, clusters) →
  length clusters = Z.to_nat (md_NumClusters metadata)
  ∧ ∀ (k : nat) c, clusters !! k = Some c →
      ReadClusterFromCsv (files (Z.of_nat k)) (Z.of_nat k) (md_Dim metadata)
        precBits = Ok c.
Proof.
  intros Hread.
  pose proof (ReadAllClusters_inv _ _ _ _ _ Hread) as (_ & _ & Hlen & _).
  split; [done|].
  apply ReadAllClusters_Ok_inv in Hread as (_ & _ & v & Hloop & _).
  apply (readLoop_clusters _ _ _ _ _ _ _ _ _ Hloop eq_refl).
  intros ? ? H. by rewrite lookup_nil in H.
Qed.

(** X16: from the files to the matrix.  When [ReadAllClusters] has read the
    clusters and [BuildVectorDatabase] has built the database from what it
    returned, field [j] (below [dim]) of record [i] of the file of cluster
    [k] is stored, as Go's [uint64] of the quantized [int8], at position
    [indexMap[k] + i*M + j] of the plaintexts handed to the backend. *)
Theorem file_fields_reach_matrix srt Params P Logq NewParamsFixedP Database
    NewDatabaseFixedParams Info_L files metadataFile metadata clusters
    hintSz precBits db (indexMap : gmap Z Z) :
  SortSliceSpec srt →
  ReadAllClusters files metadataFile precBits = Ok (metadata, clusters) →
  0 < md_NumClusters metadata →
  0 < md_Dim metadata →
  (sumNumVectors clusters + 1)
  * (Z.of_nat (length clusters) * md_Dim metadata) < 2 ^ 63 →
  BuildVectorDatabase srt Params P Logq NewParamsFixedP Database
    NewDatabaseFixedParams Info_L metadata clusters hintSz precBits
  = Ok (db, indexMap) →
  ∃ pt,
    buildPlaintexts srt Params P Logq NewParamsFixedP metadata clusters
      hintSz precBits = Ok pt
    ∧ NewDatabaseFixedParams (mul64 (pt_l pt) (pt_m pt)) 15 (pt_vals pt)
        (pt_params pt) = Some db
    ∧ ∀ (k i j : nat) rows row v,
        Z.of_nat k < md_NumClusters metadata →
        files (Z.of_nat k) = Ok rows →
        rows !! i = Some row → row !! j = Some v →
        Z.of_nat j < md_Dim metadata →
        ∃ off,
          indexMap !! Z.of_nat k = Some off
          ∧ pt_vals pt !! Z.to_nat (off + Z.of_nat i * pt_m pt + Z.of_nat j)
            = Some (uint64_of_int8 v).
Proof.
  intros Hsrt Hread Hn Hdim Hsize Hbuild.
  pose proof (ReadAllClusters_wfInput _ _ _ _ _ Hread Hn Hdim Hsize) as Hwf.
  destruct (stored_at_offset srt Hsrt _ _ _ _ _ _ _ _ _ _ _ Hwf _ _ Hbuild)
    as (pt & Hplain & Hdb & Hm & Hcells).
  exists pt. split; [done|]. split; [done|].
  intros k i j rows row v Hk Hfile Hi Hj Hjd.
  destruct (ReadAllClusters_lookup _ _ _ _ _ Hread) as [Hlen Hlook].
  destruct (lookup_lt_is_Some_2 clusters k) as [cl Hcl]; [lia|].
  specialize (Hlook k cl Hcl). rewrite Hfile in Hlook.
  assert (Hdim63 : md_Dim metadata < 2 ^ 63).
  { pose proof (wf_vectors _ _ Hwf) as Hv.
    assert (0 ≤ sumNumVectors clusters).
    { apply sumNumVectors_nonneg. eapply Forall_impl; [exact Hv|]. by intros c []. }
    nia. }
  apply ReadClusterFromCsv_Ok_rows in Hlook as [Hrows ->]; [|lia].
  pose proof (lookup_lt_Some _ _ _ Hi) as Hilt.
  destruct (Hcells k _ (Z.of_nat i) (Z.of_nat j) Hcl) as (off & v' & Hoff & Hv' & Hval);
    [simpl; lia|lia|].
  exists off. split; [done|]. rewrite Hval. f_equal. f_equal.
  cbn [Vectors] in Hv'.
  assert (Hall : Forall (λ r : list Z, length r = Z.to_nat (md_Dim metadata))
                   rows).
  { eapply Forall_impl; [exact Hrows|]. intros r Hr. simpl in Hr. lia. }
  replace (Z.to_nat (Z.of_nat i * md_Dim metadata + Z.of_nat j))
    with (i * Z.to_nat (md_Dim metadata) + j)%nat in Hv'
    by (rewrite Z2Nat.inj_add, Z2Nat.inj_mul, !Nat2Z.id by lia; done).
  rewrite (concat_lookup_uniform _ _ Hall i j row) in Hv' by (done || lia).
  congruence.
Qed.

Lemma file_fields_reach_matrix_witness :
  ∃ db (indexMap : gmap Z Z) pt off,
    BuildVectorDatabase insertionSort sampleParams sp_P sp_Logq sampleNewParams
      sampleDatabase sampleNewDatabase sd_L sample_metadata sample_clusters 0 5
    = Ok (db, indexMap)
    ∧ buildPlaintexts insertionSort sampleParams sp_P sp_Logq sampleNewParams
        sample_metadata sample_clusters 0 5 = Ok pt
    ∧ indexMap !! Z.of_nat 1 = Some off
    ∧ pt_vals pt !! Z.to_nat (off + Z.of_nat 0 * pt_m pt + Z.of_nat 0)
      = Some (uint64_of_int8 (-16)).
Proof.
  destruct (BuildVectorDatabase insertionSort sampleParams sp_P sp_Logq
              sampleNewParams sampleDatabase sampleNewDatabase sd_L
              sample_metadata sample_clusters 0 5) as [[db im]|e] eqn:Hb.
  - destruct (file_fields_reach_matrix insertionSort sampleParams sp_P sp_Logq
                sampleNewParams sampleDatabase sampleNewDatabase sd_L
                sample_files (Ok sample_metadata) sample_metadata
                sample_clusters 0 5 db im insertionSort_spec)
      as (pt & Hpt & _ & Hcells).
    + vm_compute. reflexivity.
    + vm_compute. reflexivity.
    + vm_compute. reflexivity.
    + vm_compute. reflexivity.
    + exact Hb.
    + destruct (Hcells 1%nat 0%nat 0%nat [[-16; 15]] [-16; 15] (-16))
        as (off & Hoff & Hval); try reflexivity.
      exists db, im, pt, off. split; [reflexivity|]. split; [exact Hpt|].
      split; [exact Hoff|exact Hval].
  - vm_compute in Hb. discriminate Hb.
Defined.

(** ** [writeResults]: what is written *)

Lemma wrapInt_small z : - 2 ^ 63 ≤ z < 2 ^ 63 → wrapInt z = z.
Proof. intros Hz. unfold wrapInt. rewrite Z.mod_small; lia. Qed.

Lemma lineLoop_run scores fuel : ∀ (n : nat) (pre : list string),
  length pre = (2 * n)%nat →
  (n + fuel ≤ length scores)%nat →
  Z.of_nat (n + fuel) * 2 < 2 ^ 63 →
  lineLoop fuel (Z.of_nat n) scores (pre ++ replicate (2 * fuel) EmptyString)
  = Ok (pre ++ flat_map (λ s, [sprintf_d (ClusterID s);
                               sprintf_d (IDWithinCluster s)])
                 (take fuel (drop n scores))).
Proof.
  induction fuel as [|fuel IH]; intros n pre Hpre Hlen Hfit.
  { simpl. done. }
  cbn [lineLoop].
  destruct (lookup_lt_is_Some_2 scores n) as [s Hs]; [lia|].
  rewrite (sliceGet_Ok scores (Z.of_nat n) s) by (rewrite ?Nat2Z.id; done || lia).
  cbn [mbind result_bind].
  rewrite (wrapInt_small (Z.of_nat n * 2)) by lia.
  rewrite (wrapInt_small (Z.of_nat n * 2 + 1)) by lia.
  replace (2 * S fuel)%nat with (S (S (2 * fuel))) by lia. cbn [replicate].
  rewrite sliceSet_Ok by (rewrite length_app; simpl; lia).
  cbn [mbind result_bind].
  rewrite sliceSet_Ok by (rewrite length_insert, length_app; simpl; lia).
  cbn [mbind result_bind].
  replace (Z.to_nat (Z.of_nat n * 2)) with (length pre + 0)%nat by lia.
  replace (Z.to_nat (Z.of_nat n * 2 + 1)) with (length pre + 1)%nat by lia.
  rewrite !insert_app_r. cbn [insert list_insert].
  replace (Z.of_nat n + 1) with (Z.of_nat (S n)) by lia.
  rewrite (drop_S _ _ _ Hs). cbn [take flat_map].
  specialize (IH (S n) (pre ++ [sprintf_d (ClusterID s);
                                sprintf_d (IDWithinCluster s)])).
  rewrite <- !app_assoc in IH. cbn [app] in IH.
  rewrite IH; [done| |lia|lia].
  rewrite length_app. simpl. lia.
Qed.

(** With a non-empty score list, [writeResults] formats the first [k]
    scores and then writes to the two writers in turn. *)
Lemma writeResults_line writer perfWriter scores k perfLine :
  scores ≠ [] → 0 ≤ k → Z.of_nat (length scores) < 2 ^ 62 →
  writeResults writer perfWriter scores k perfLine
  = match csvWrite writer (resultLine scores k) with
    | None => (Panic WriteFailed, (writer, perfWriter))
    | Some writer' =>
        match csvWrite perfWriter perfLine with
        | None => (Panic WriteFailed, (writer', perfWriter))
        | Some perfWriter' => (Ok (), (writer', perfWriter'))
        end
    end.
Proof.
  intros Hne Hk Hlen. unfold writeResults.
  destruct (Z.eqb_spec (Z.of_nat (length scores)) 0) as [H0|_].
  { destruct scores; [done|simpl in H0; lia]. }
  set (numRes := if _ <? k then _ else k).
  assert (HnumRes : 0 ≤ numRes ≤ Z.of_nat (length scores) ∧ numRes ≤ k).
  { subst numRes. destruct (Z.ltb_spec (Z.of_nat (length scores)) k); lia. }
  assert (Htake : take (Z.to_nat numRes) scores = take (Z.to_nat k) scores).
  { subst numRes. destruct (Z.ltb_spec (Z.of_nat (length scores)) k); [|done].
    rewrite Nat2Z.id, firstn_all. symmetry. apply take_ge. lia. }
  unfold makeLine. rewrite wrapInt_small by lia.
  destruct (Z.ltb_spec (numRes * 2) 0); [lia|]. cbn [mbind result_bind].
  replace (Z.to_nat (numRes * 2)) with (2 * Z.to_nat numRes)%nat by lia.
  pose proof (lineLoop_run scores (Z.to_nat numRes) 0 [] eq_refl) as Hloop.
  cbn [app drop] in Hloop. change (Z.of_nat 0) with 0 in Hloop.
  rewrite Hloop by lia. rewrite drop_0, Htake. done.
Qed.

(** X17: with a non-empty score list, a non-negative [k] and writers that
    accept writes, [writeResults] returns after it has appended one record
    to each file: to the results file the cluster id and the id within the
    cluster of the first [min(k, len(scores))] scores, in order, and to the
    performance file the performance record. *)
Theorem writeResults_writes_top_k writer perfWriter scores k perfLine :
  scores ≠ [] → 0 ≤ k → Z.of_nat (length scores) < 2 ^ 62 →
  broken writer = false → broken perfWriter = false →
  writeResults writer perfWriter scores k perfLine
  = (Ok (), (mkWriter (records writer ++ [resultLine scores k]) false,
             mkWriter (records perfWriter ++ [perfLine]) false))
  ∧ Z.of_nat (length (resultLine scores k))
    = 2 * Z.min k (Z.of_nat (length scores)).
Proof.
  intros Hne Hk Hlen Hw Hpw. split.
  - rewrite writeResults_line by done. unfold csvWrite. by rewrite Hw, Hpw.
  - unfold resultLine.
    assert (Hgen : ∀ l : list VectorScore,
              length (flat_map (λ s, [sprintf_d (ClusterID s);
                                      sprintf_d (IDWithinCluster s)]) l)
              = (2 * length l)%nat).
    { induction l as [|s l IH]; simpl; [done|]. rewrite IH. lia. }
    rewrite Hgen, length_take. lia.
Qed.

Lemma writeResults_writes_top_k_witness :
  writeResults (mkWriter [] false) (mkWriter [] false)
    [mkVectorScore 3 1 9; mkVectorScore 3 0 7; mkVectorScore 2 5 1] 2
    ["0.5"%string]
  = (Ok (), (mkWriter ([] ++ [resultLine [mkVectorScore 3 1 9;
                                          mkVectorScore 3 0 7;
                                          mkVectorScore 2 5 1] 2]) false,
             mkWriter ([] ++ [["0.5"%string]]) false)).
Proof.
  apply (writeResults_writes_top_k (mkWriter [] false) (mkWriter [] false)
           [mkVectorScore 3 1 9; mkVectorScore 3 0 7; mkVectorScore 2 5 1] 2
           ["0.5"%string]).
  - discriminate.
  - lia.
  - vm_compute. reflexivity.
  - reflexivity.
  - reflexivity.
Defined.



(** ** [readQueryLine] *)

Lemma wrapInt_high z : 2 ^ 63 ≤ z < 2 ^ 64 → wrapInt z = z - 2 ^ 64.
Proof.
  intros Hz. unfold wrapInt.
  assert ((z + 2 ^ 63) mod 2 ^ 64 = z - 2 ^ 63) as ->; [|lia].
  symmetry. apply (Z.mod_unique _ _ 1); lia.
Qed.

Section QueryFacts.

Variable StringToUint64 : string → option Z.
Variable Float : Type.
Variable ParseFloat : string → Float * bool.
Variable QuantizeClamp : Float → Z → Z.

Lemma parses_Forall (fields : list string) :
  forallb (λ s, negb (ParseFloat s).2) fields = true
  ↔ Forall (λ s, (ParseFloat s).2 = false) fields.
Proof.
  induction fields as [|s fields IH]; simpl.
  - split; [constructor|done].
  - rewrite Forall_cons, andb_true_iff, IH, negb_true_iff. done.
Qed.

Lemma fieldLoop_run f fields precBits fuel : ∀ (n : nat) (pre : list Z),
  length pre = n → (n + fuel = length fields)%nat →
  Z.of_nat (length fields) + 1 < 2 ^ 63 →
  fieldLoop Float ParseFloat QuantizeClamp fuel (Z.of_nat n) (f :: fields)
    precBits (pre ++ replicate fuel 0)
  = if forallb (λ s, negb (ParseFloat s).2) (drop n fields)
    then Return (pre ++ map (λ s, QuantizeClamp (ParseFloat s).1 precBits)
                          (drop n fields))
    else Abort QueryConversion.
Proof.
  induction fuel as [|fuel IH]; intros n pre Hpre Hlen Hfit.
  { rewrite drop_ge by lia. simpl. done. }
  cbn [fieldLoop].
  destruct (lookup_lt_is_Some_2 fields n) as [s Hs]; [lia|].
  rewrite wrapInt_small by lia.
  rewrite (sliceGet_Ok (f :: fields) (Z.of_nat n + 1) s);
    [|lia|by replace (Z.to_nat (Z.of_nat n + 1)) with (S n) by lia].
  cbn [raise mbind outcome_bind].
  rewrite (drop_S _ _ _ Hs). cbn [forallb map].
  destruct (ParseFloat s) as [u err] eqn:Hp. cbn [fst snd].
  cbn [replicate].
  rewrite sliceSet_Ok by (rewrite length_app; simpl; lia).
  cbn [raise mbind outcome_bind].
  destruct err; cbn [negb andb]; [done|].
  replace (Z.to_nat (Z.of_nat n)) with (length pre + 0)%nat by lia.
  rewrite insert_app_r. cbn [insert list_insert].
  replace (Z.of_nat n + 1) with (Z.of_nat (S n)) by lia.
  specialize (IH (S n) (pre ++ [QuantizeClamp u precBits])).
  rewrite <- !app_assoc in IH. cbn [app] in IH.
  rewrite IH; [|rewrite length_app; simpl; lia|lia|lia].
  destruct (forallb _ _); done.
Qed.

(** [readQueryLine] on a record with at least one field. *)
Lemma readQueryLine_record fpr f fields rest dim precBits :
  0 ≤ dim < 2 ^ 64 → Z.of_nat (length fields) + 1 < 2 ^ 63 →
  readQueryLine StringToUint64 Float ParseFloat QuantizeClamp
    (mkReader fpr (Some (f :: fields) :: rest)) dim precBits
  = match checkFieldCount fpr (f :: fields) with
    | None => (Abort QueryReadError, mkReader fpr rest)
    | Some fpr' =>
        (if decide (Z.of_nat (length fields) = dim) then
           match StringToUint64 f with
           | None => Abort ClusterIndexConversion
           | Some clusterIndex =>
               if forallb (λ s, negb (ParseFloat s).2) fields
               then Return (clusterIndex,
                            map (λ s, QuantizeClamp (ParseFloat s).1 precBits)
                                fields,
                            false)
               else Abort QueryConversion
           end
         else Abort (ColumnCountMismatch (add64 dim 1)
                       (Z.of_nat (length (f :: fields)))),
         mkReader fpr' rest)
    end.
Proof.
  intros Hdim Hlen. unfold readQueryLine, csvRead.
  cbn [pending FieldsPerRecord].
  destruct (checkFieldCount fpr (f :: fields)) as [fpr'|]; [|done]. f_equal.
  case_decide as Hd.
  - subst dim. rewrite (int_of_u64_small (Z.of_nat (length fields))) by lia.
    rewrite (wrapInt_small (Z.of_nat (length fields) + 1)) by lia.
    destruct (Z.eqb_spec (Z.of_nat (length (f :: fields)))
                (Z.of_nat (length fields) + 1)) as [_|Hne];
      [|simpl in Hne; lia].
    cbn [negb]. change (sliceGet (f :: fields) 0) with (Ok f).
    cbn [raise mbind outcome_bind].
    destruct (StringToUint64 f) as [ci|]; [|done].
    unfold makeSlice. destruct (Z.leb_spec (2 ^ 63) (Z.of_nat (length fields)));
      [lia|].
    cbn [raise mbind outcome_bind]. rewrite Nat2Z.id.
    pose proof (fieldLoop_run f fields precBits (length fields) 0 [] eq_refl)
      as Hloop.
    cbn [app drop] in Hloop. change (Z.of_nat 0) with 0 in Hloop.
    rewrite Hloop by lia. rewrite drop_0.
    destruct (forallb _ _); done.
  - destruct (Z.eqb_spec (Z.of_nat (length (f :: fields)))
                (wrapInt (int_of_u64 dim + 1))) as [Heq|_]; [|done].
    exfalso. simpl in Heq. unfold int_of_u64 in Heq.
    destruct (Z_lt_le_dec dim (2 ^ 63)) as [Hlo|Hhi].
    + rewrite (wrapInt_small dim) in Heq by lia.
      destruct (Z_lt_le_dec (dim + 1) (2 ^ 63)).
      * rewrite wrapInt_small in Heq by lia. lia.
      * pose proof (wrapInt_high (dim + 1)). lia.
    + rewrite (wrapInt_high dim) in Heq by lia.
      rewrite wrapInt_small in Heq by lia. lia.
Qed.


End QueryFacts.

(** X19: on a record that holds a cluster index and exactly [dim] numbers,
    read with a reader that expects no other number of fields,
    [readQueryLine] returns the cluster index, the numbers quantized with
    [precBits], in order, and [isEnd = false]; the reader has advanced by
    this one record and from now on expects [dim + 1] fields. *)
Theorem readQueryLine_reads_record StringToUint64 Float
    (ParseFloat : string → Float * bool) QuantizeClamp fpr f fields rest dim
    precBits clusterIndex :
  fpr = 0 ∨ fpr = dim + 1 →
  Z.of_nat (length fields) = dim →
  dim + 1 < 2 ^ 63 →
  StringToUint64 f = Some clusterIndex →
  Forall (λ s, (ParseFloat s).2 = false) fields →
  readQueryLine StringToUint64 Float ParseFloat QuantizeClamp
    (mkReader fpr (Some (f :: fields) :: rest)) dim precBits
  = (Return (clusterIndex,
             map (λ s, QuantizeClamp (ParseFloat s).1 precBits) fields,
             false),
     mkReader (dim + 1) rest).
Proof.
  intros Hfpr Hlen Hdim Hci Hparse.
  rewrite readQueryLine_record by lia.
  assert (checkFieldCount fpr (f :: fields) = Some (dim + 1)) as ->.
  { unfold checkFieldCount. cbn [length]. rewrite Nat2Z.inj_succ, Hlen.
    destruct Hfpr as [-> | ->].
    - cbn; f_equal; lia.
    - destruct (Z.ltb_spec 0 (dim + 1)); [|lia].
      destruct (Z.eqb_spec (Z.succ dim) (dim + 1)); [done|lia]. }
  rewrite decide_True by done. rewrite Hci.
  apply parses_Forall in Hparse. by rewrite Hparse.
Qed.

Lemma readQueryLine_reads_record_witness :
  readQueryLine sampleToUint64 Z sampleParseFloat sampleQuantize
    (mkReader 0 [Some ["7"; "1"; "22"]%string; Some ["8"; "333"; "4"]%string])
    2 5
  = (Return (1, map (λ s, sampleQuantize (sampleParseFloat s).1 5)
                  ["1"; "22"]%string, false),
     mkReader (2 + 1) [Some ["8"; "333"; "4"]%string]).
Proof.
  apply (readQueryLine_reads_record sampleToUint64 Z sampleParseFloat
           sampleQuantize 0 "7" ["1"; "22"]%string
           [Some ["8"; "333"; "4"]%string] 2 5 1).
  - left. reflexivity.
  - reflexivity.
  - lia.
  - reflexivity.
  - repeat constructor.
Defined.

(** X20: what [readQueryLine] accepts.  It returns [isEnd = true] (with
    cluster index 0 and no query) exactly at the end of the file.  It
    returns a query, of length [dim], only for a record that holds a
    cluster index and [dim] numbers.  On every other record it panics with
    one of its own four panics: after the check of the column count no
    index is out of range.  A well-formed record is refused only by the
    reader, when it expects another number of fields. *)
Theorem readQueryLine_accepts_well_formed StringToUint64 Float
    (ParseFloat : string → Float * bool) QuantizeClamp reader dim precBits :
  0 ≤ dim < 2 ^ 64 →
  Forall (λ rec, ∀ row, rec = Some row →
            row ≠ [] ∧ Z.of_nat (length row) < 2 ^ 63) (pending reader) →
  match readQueryLine StringToUint64 Float ParseFloat QuantizeClamp reader
          dim precBits with
  | (Return (clusterIndex, query, isEnd), reader') =>
      if isEnd
      then pending reader = [] ∧ clusterIndex = 0 ∧ query = []
           ∧ reader' = reader
      else ∃ rec, pending reader = rec :: pending reader'
                  ∧ goodRecord StringToUint64 ParseFloat dim rec
                  ∧ Z.of_nat (length query) = dim
  | (Abort p, reader') =>
      ∃ rec, pending reader = rec :: pending reader'
             ∧ (p = QueryReadError
                ∨ (∃ expected got, p = ColumnCountMismatch expected got)
                ∨ p = ClusterIndexConversion
                ∨ p = QueryConversion)
             ∧ (goodRecord StringToUint64 ParseFloat dim rec →
                p = QueryReadError
                ∧ 0 < FieldsPerRecord reader
                ∧ FieldsPerRecord reader ≠ dim + 1)
  end.
Proof.
  intros Hdim Hreader. destruct reader as [fpr [|[row|] rest]];
    cbn [pending FieldsPerRecord] in *.
  - done.
  - apply Forall_cons in Hreader as [Hrow _].
    destruct (Hrow row eq_refl) as [Hne Hlen].
    destruct row as [|f fields]; [done|]. simpl in Hlen.
    rewrite readQueryLine_record by lia.
    destruct (checkFieldCount fpr (f :: fields)) as [fpr'|] eqn:Hcheck.
    + case_decide as Hd.
      * destruct (StringToUint64 f) as [ci|] eqn:Hci.
        -- destruct (forallb _ _) eqn:Hp.
           ++ exists (Some (f :: fields)). split; [done|]. split.
              ** exists f, fields. rewrite Hci.
                 apply parses_Forall in Hp. eauto.
              ** by rewrite length_map.
           ++ exists (Some (f :: fields)). split; [done|]. split; [auto 10|].
              intros (f' & fields' & [= <- <-] & _ & _ & Hall).
              apply parses_Forall in Hall. congruence.
        -- exists (Some (f :: fields)). split; [done|]. split; [auto 10|].
           intros (f' & fields' & [= <- <-] & _ & [ci Hsome] & _). congruence.
      * exists (Some (f :: fields)). split; [done|]. split; [eauto 10|].
        intros (f' & fields' & [= <- <-] & Hl & _). done.
    + exists (Some (f :: fields)). split; [done|]. split; [auto|].
      intros (f' & fields' & [= <- <-] & Hl & _). split; [done|].
      unfold checkFieldCount in Hcheck.
      destruct (Z.ltb_spec 0 fpr); [|by destruct (fpr =? 0)].
      destruct (Z.eqb_spec (Z.of_nat (length (f :: fields))) fpr) as [|Hne'];
        [done|].
      split; [done|]. simpl in Hne'. lia.
  - exists None. split; [done|]. split; [auto|].
    intros (f' & fields' & Hnone & _). done.
Qed.

Lemma readQueryLine_accepts_well_formed_witness :
  match readQueryLine sampleToUint64 Z sampleParseFloat sampleQuantize
          (mkReader 0 [Some ["7"; "1"]%string]) 2 5 with
  | (Return (clusterIndex, query, isEnd), reader') =>
      if isEnd
      then pending (mkReader 0 [Some ["7"; "1"]%string]) = []
           ∧ clusterIndex = 0 ∧ query = []
           ∧ reader' = mkReader 0 [Some ["7"; "1"]%string]
      else ∃ rec, pending (mkReader 0 [Some ["7"; "1"]%string])
                  = rec :: pending reader'
                  ∧ goodRecord sampleToUint64 sampleParseFloat 2 rec
                  ∧ Z.of_nat (length query) = 2
  | (Abort p, reader') =>
      ∃ rec, pending (mkReader 0 [Some ["7"; "1"]%string])
             = rec :: pending reader'
             ∧ (p = QueryReadError
                ∨ (∃ expected got, p = ColumnCountMismatch expected got)
                ∨ p = ClusterIndexConversion
                ∨ p = QueryConversion)
             ∧ (goodRecord sampleToUint64 sampleParseFloat 2 rec →
                p = QueryReadError
                ∧ 0 < FieldsPerRecord (mkReader 0 [Some ["7"; "1"]%string])
                ∧ FieldsPerRecord (mkReader 0 [Some ["7"; "1"]%string])
                  ≠ 2 + 1)
  end.
Proof.
  apply (readQueryLine_accepts_well_formed sampleToUint64 Z sampleParseFloat
           sampleQuantize (mkReader 0 [Some ["7"; "1"]%string]) 2 5).
  - lia.
  - repeat constructor; injection H as <-; [discriminate|simpl; lia].
Defined.

(** ** The loop of [main] over the queries *)


Section LoopFacts.

Variable StringToUint64 : string → option Z.
Variable Float : Type.
Variable ParseFloat : string → Float * bool.
Variable QuantizeClamp : Float → Z → Z.
Variable Parties : Type.
Variable QueryPerf : Type.
Variable runRound :
  Parties → list Z → Z → bool → option (list VectorScore * QueryPerf * Parties).
Variable perfLineOf : QueryPerf → list string.


End LoopFacts.



Example queryLoop_two_queries :
  queryLoop sampleToUint64 Z sampleParseFloat sampleQuantize nat
    (list string) sampleRound (λ perf, perf) 3 sample_queries 0%nat
    (mkWriter [] false) (mkWriter [] false) 2 5 10 false 0
  = Some (Return 2,
          (mkWriter [["1"; "0"]%string; ["1"; "0"]%string] false,
           mkWriter [["0"%string]; ["0"%string]] false)).
Proof. vm_compute. reflexivity. Qed.

(** ** The arguments and the names of the output files *)

Lemma string_length_append (s t : string) :
  String.length (String.append s t)
  = (String.length s + String.length t)%nat.
Proof. induction s as [|c s IH]; simpl; [done|]. by rewrite IH. Qed.

Lemma substring_append_l (s t : string) :
  String.substring 0 (String.length s) (String.append s t) = s.
Proof.
  induction s as [|c s IH]; simpl.
  - by destruct t.
  - by rewrite IH.
Qed.

Lemma append_inj_r (s a b : string) :
  String.append s a = String.append s b → a = b.
Proof. induction s as [|c s IH]; simpl; [done|]. intros [= H]. by apply IH. Qed.

(** The Unix [filepath.Ext] meets the contract. *)
Lemma unixExt_spec : ExtSpec unixExt.
Proof.
  intros path. induction path as [|c rest [stem IH]].
  - by exists EmptyString.
  - cbn [unixExt]. destruct (hasSeparator rest).
    { exists (String c stem). rewrite IH at 1. reflexivity. }
    destruct (unixExt rest) as [|c' e] eqn:He; rewrite ?He in IH.
    + destruct (Ascii.eqb c "."%char).
      * by exists EmptyString.
      * exists (String c stem). rewrite IH at 1. reflexivity.
    + exists (String c stem). rewrite IH at 1. reflexivity.
Qed.

(** X21: when [argumentsValidation] has accepted the arguments and a
    query file is given, the name of the query file ends in [.csv], the
    slices [query[:len(query)-4]] of [main] do not panic, and the results
    and the performance figures go to the name of the query file with
    [.csv] replaced by the suffix of the mode.  The two names differ from
    each other and from the name of the query file, so no file is
    overwritten by another. *)
Theorem output_files_beside_query Ext Dir Join preamble topk query dir prefix
    clusterOnly :
  ExtSpec Ext →
  Z.of_nat (String.length query) < 2 ^ 63 →
  query ≠ EmptyString →
  argumentsValidation Ext Dir preamble topk query = Return () →
  ∃ stem out perf,
    query = String.append stem ".csv"
    ∧ outputFileName Join query dir prefix clusterOnly = Return out
    ∧ perfFileName Join query dir prefix clusterOnly = Return perf
    ∧ out = String.append stem
              (if clusterOnly then "_results_cluster_only.csv"
               else "_results.csv")
    ∧ perf = String.append stem
               (if clusterOnly then "_perf_cluster_only.csv"
                else "_perf.csv")
    ∧ out ≠ perf ∧ out ≠ query ∧ perf ≠ query.
Proof.
  intros HExt Hlen Hq Hval. unfold argumentsValidation in Hval.
  destruct (String.eqb preamble EmptyString); [done|].
  destruct (topk <=? 0); [done|].
  assert (Hqe : String.eqb query EmptyString = false)
    by by apply String.eqb_neq.
  rewrite Hqe in Hval. cbn [negb andb] in Hval.
  destruct (String.eqb (Ext query) ".csv") eqn:Hext; cbn [negb] in Hval;
    [|done].
  apply String.eqb_eq in Hext.
  destruct (HExt query) as [stem Hstem]. rewrite Hext in Hstem.
  assert (Hslice : sliceTo query (wrapInt (Z.of_nat (String.length query) - 4))
                   = Return stem).
  { rewrite Hstem in Hlen |- *. rewrite string_length_append in Hlen |- *.
    cbn [String.length] in Hlen |- *.
    rewrite wrapInt_small by lia. unfold sliceTo.
    rewrite string_length_append. cbn [String.length].
    destruct (Z.ltb_spec (Z.of_nat (String.length stem + 4) - 4) 0); [lia|].
    destruct (Z.ltb_spec (Z.of_nat (String.length stem + 4))
                (Z.of_nat (String.length stem + 4) - 4)); [lia|].
    cbn [orb].
    replace (Z.to_nat (Z.of_nat (String.length stem + 4) - 4))
      with (String.length stem) by lia.
    by rewrite substring_append_l. }
  exists stem,
    (String.append stem
       (if clusterOnly then "_results_cluster_only.csv" else "_results.csv")),
    (String.append stem
       (if clusterOnly then "_perf_cluster_only.csv" else "_perf.csv")).
  split; [done|].
  split; [unfold outputFileName; rewrite Hqe; cbn [negb]; rewrite Hslice;
          cbn [mbind outcome_bind]; destruct clusterOnly; reflexivity|].
  split; [unfold perfFileName; rewrite Hqe; cbn [negb]; rewrite Hslice;
          cbn [mbind outcome_bind]; destruct clusterOnly; reflexivity|].
  split; [by destruct clusterOnly|]. split; [by destruct clusterOnly|].
  rewrite Hstem.
  destruct clusterOnly; repeat split; intros H; apply append_inj_r in H;
    discriminate H.
Qed.

Lemma output_files_beside_query_witness :
  ∃ stem out perf,
    "data/q.csv"%string = String.append stem ".csv"
    ∧ outputFileName (λ d f, String.append d f) "data/q.csv" "data" "p" false
      = Return out
    ∧ perfFileName (λ d f, String.append d f) "data/q.csv" "data" "p" false
      = Return perf
    ∧ out = String.append stem "_results.csv"
    ∧ perf = String.append stem "_perf.csv"
    ∧ out ≠ perf ∧ out ≠ "data/q.csv"%string ∧ perf ≠ "data/q.csv"%string.
Proof.
  apply (output_files_beside_query unixExt (λ _, "data"%string)
           (λ d f, String.append d f) "data/p" 10 "data/q.csv" "data" "p"
           false).
  - exact unixExt_spec.
  - vm_compute. reflexivity.
  - discriminate.
  - vm_compute. reflexivity.
Defined.
